(** * halonet: the V-Net topology builder [get_model] of [halonet/net/model.py]

    The builder assembles a Keras computation graph.  The embedding keeps the
    graph explicit: every layer call appends one node to the graph and returns
    the handle (position) of the new node; the Python locals [x] and
    [forward_list] are threaded through the two level loops, and the two
    Python errors the code can raise by itself ([IndexError] on
    [forward_list[i]], an unbound [x]) are results of the builder monad.

    Python integers are [Z]; the float arguments ([dropout_in],
    [dropout_out], [lrelu_alpha]) are IEEE values ([spec_float]), of which
    the builder only tests the truth value.

    [get_model] records the layer calls that the code issues, each taken
    to return; the module [Keras] has the same code under the checks that
    Keras makes inside a layer call, where a rejected call raises
    [ValueError].

    The script [halonet/scripts/train.py], which calls the builder, is
    embedded in the module [Train]: the two configurations it passes to
    [get_model], and the loop that gathers the files into batches. *)

From Stdlib Require Import ZArith List Bool String Lia.
From Stdlib Require Import Floats.SpecFloat.
From stdpp Require Import base tactics option list.

Open Scope Z_scope.

(** ** Python values of the configuration *)

(** [dropout_in] and [dropout_out] are [False] or a float. *)
Inductive pyval : Type :=
| PyFalse
| PyFloat (f : spec_float).

(** Python truthiness, as tested by [if dropout:]. *)
Definition truthy (v : pyval) : bool :=
  match v with
  | PyFalse => false
  | PyFloat (S754_zero _) => false
  | PyFloat _ => true
  end.

(** A strictly positive finite float. *)
Definition positive_rate (v : pyval) : bool :=
  match v with
  | PyFloat (S754_finite false _ _) => true
  | _ => false
  end.

Record config : Type := Config {
  nlevels : Z;
  nfm : Z;
  input_shape : list Z;
  nconv : Z;
  dropout_in : pyval;
  dropout_out : pyval;
  lrelu_alpha : option spec_float;
  batch_norm : bool
}.

(** ** The computation graph *)

(** A tensor is the position, in the graph, of the node that produced it. *)
Abbreviation handle := nat (only parsing).

Inductive padding : Type := Valid | Same.

Definition size3 : Type := (Z * Z * Z)%type.

Inductive layer : Type :=
| Input (shape : list Z)
| Conv3D (filters : Z) (kernel_size strides : size3) (pad : padding)
| Conv3DTranspose (filters : Z) (kernel_size strides : size3)
| BatchNormalization (scale : bool)
| LeakyReLU (alpha : spec_float)
| PReLU
| Dropout (rate : pyval)
| Add
| Concatenate (axis : Z)
| Activation (name : string).

Record node : Type := Node { op : layer; inputs : list handle }.

Abbreviation graph := (list node) (only parsing).

(** ** The builder monad: graph state and Python exceptions *)

(** [IndexError] and [UnboundLocalError] are raised by the code of the builder
    itself; [ValueError] is what Keras raises inside a layer call that it
    rejects (see [Keras] below). *)
Inductive exn : Type := IndexError | UnboundLocalError | ValueError.

Inductive result (A : Type) : Type :=
| Ok (a : A)
| Raise (e : exn).
Arguments Ok {A} a.
Arguments Raise {A} e.

Definition M (A : Type) : Type := graph -> result (A * graph).

Definition ret {A} (a : A) : M A := fun g => Ok (a, g).

Definition bind {A B} (k : A -> M B) (m : M A) : M B :=
  fun g => match m g with
           | Ok (a, g') => k a g'
           | Raise e => Raise e
           end.

Definition raise {A} (e : exn) : M A := fun _ => Raise e.

#[global] Instance M_ret : MRet M := @ret.
#[global] Instance M_bind : MBind M := @bind.

(** Calling a layer on input tensors creates one node; the returned tensor is
    the handle of that node. *)
Definition call (l : layer) (ins : list handle) : M handle :=
  fun g => Ok (length g, g ++ [Node l ins]).

(** ** Python helpers *)

(** [range(n)] *)
Definition range (n : Z) : list Z := map Z.of_nat (seq 0 (Z.to_nat n)).

(** [l[i]] with Python's negative indices. *)
Definition py_index {A} (l : list A) (i : Z) : M A :=
  let j := if i <? 0 then i + Z.of_nat (length l) else i in
  if j <? 0 then raise IndexError
  else match l !! Z.to_nat j with
       | Some a => ret a
       | None => raise IndexError
       end.

(** Reading a local that may not have been assigned yet. *)
Definition read_local {A} (v : option A) : M A :=
  match v with
  | Some a => ret a
  | None => raise UnboundLocalError
  end.

(** ** get_model *)

Definition conv_kernel_size : size3 := (5, 5, 5).
Definition updown_kernel_size : size3 := (2, 2, 2).
Definition updown_stride : size3 := updown_kernel_size.
Definition unit_size : size3 := (1, 1, 1).

(** The locals shared by the loops. *)
Record locals : Type := Locals {
  x : option handle;
  forward_list : list handle
}.

(** What the construction leaves behind: the model's input and output
    tensors and the forward-feature list. *)
Record built : Type := Built {
  b_input : handle;
  b_output : handle;
  b_forward : list handle
}.

Section Builder.

Variable cfg : config.

(** [NonLinearity(t, lrelu=lrelu_alpha, dropout=False, batch_norm=batch_norm)]:
    an argument that the call site omits is [None] and takes its default. *)
Definition NonLinearity (t : handle) (dropout : option pyval)
    (bn : option bool) : M handle :=
  let dropout := default PyFalse dropout in
  let bn := default (batch_norm cfg) bn in
  to ← (if bn then call (BatchNormalization false) [t] else ret t);
  to ← (match lrelu_alpha cfg with
         | Some a => call (LeakyReLU a) [to]
         | None => call PReLU [to]
         end);
  to ← (if truthy dropout then call (Dropout dropout) [to] else ret to);
  ret to.

(** The loop [for ci in range(nconv-1)] of a residual block. *)
Fixpoint extra_convs (channels : Z) (cis : list Z) (residual : handle)
    : M handle :=
  match cis with
  | [] => ret residual
  | ci :: cis' =>
      residual ← call (Conv3D channels conv_kernel_size unit_size Same)
                       [residual];
      residual ← NonLinearity residual (Some (dropout_in cfg))
                    (Some ((ci =? nconv cfg - 2) && batch_norm cfg));
      extra_convs channels cis' residual
  end.

(** The convolutions of a full residual block: lines 100-105 and 134-139. *)
Definition residual_convs (channels : Z) (t : handle) : M handle :=
  residual ← call (Conv3D channels conv_kernel_size unit_size Same) [t];
  residual ← NonLinearity residual (Some (dropout_in cfg)) (Some false);
  extra_convs channels (range (nconv cfg - 1)) residual.

(** The condition guarding [dropout_out] at a transition. *)
Definition transition_dropout (fi : Z) : bool :=
  Z.abs (fi - nlevels cfg) <? nlevels cfg.

(** The nonlinearity after an up or down convolution: lines 115-118 and
    144-147. *)
Definition transition_nonlinearity (fi : Z) (t : handle) : M handle :=
  if transition_dropout fi
  then NonLinearity t (Some (dropout_out cfg)) None
  else NonLinearity t None None.

(** Body of the encoder loop. *)
Definition encoder_level (input_state : handle) (fi : Z) (v : locals)
    : M locals :=
  '(shortcut, residual) ←
    (if fi =? 0 then
       residual ← call (Conv3D (nfm cfg) conv_kernel_size unit_size Same)
                        [input_state];
       residual ← NonLinearity residual None (Some false);
       ret (input_state, residual)
     else
       xv ← read_local (x v);
       residual ← residual_convs (nfm cfg * 2 ^ fi) xv;
       ret (xv, residual));
  xs ← call Add [residual; shortcut];
  let fl := forward_list v ++ [xs] in
  xd ← call (Conv3D (nfm cfg * 2 ^ (fi + 1)) updown_kernel_size
                     updown_stride Valid) [xs];
  xn ← transition_nonlinearity fi xd;
  ret (Locals (Some xn) fl).

(** Body of the decoder loop. *)
Definition decoder_level (fi : Z) (v : locals) : M locals :=
  shortcut ← read_local (x v);
  xc ← (if negb (fi =? nlevels cfg - 1) then
           f ← py_index (forward_list v) (fi + 1);
           call (Concatenate (-1)) [f; shortcut]
         else ret shortcut);
  residual ← residual_convs (nfm cfg * 2 ^ (fi + 1)) xc;
  xs ← call Add [residual; shortcut];
  xu ← call (Conv3DTranspose (nfm cfg * 2 ^ fi) updown_kernel_size
                              updown_stride) [xs];
  xn ← transition_nonlinearity fi xu;
  ret (Locals (Some xn) (forward_list v)).

(** A [for] loop over the levels. *)
Fixpoint for_each (body : Z -> locals -> M locals) (fis : list Z)
    (v : locals) : M locals :=
  match fis with
  | [] => ret v
  | fi :: fis' => v' ← body fi v; for_each body fis' v'
  end.

Definition encoder (input_state : handle) : M locals :=
  for_each (encoder_level input_state) (range (nlevels cfg))
           (Locals None []).

Definition decoder (v : locals) : M locals :=
  for_each decoder_level (rev (range (nlevels cfg))) v.

(** Final forwarding and convolution, lines 151-163. *)
Definition head (v : locals) : M handle :=
  f ← py_index (forward_list v) 0;
  xv ← read_local (x v);
  xc ← call (Concatenate (-1)) [f; xv];
  residual ← call (Conv3D (nfm cfg) conv_kernel_size unit_size Same) [xc];
  shortcut ← call (Conv3D (nfm cfg) unit_size unit_size Same) [xc];
  xs ← call Add [residual; shortcut];
  xs ← NonLinearity xs None (Some false);
  xo ← call (Conv3D 2 unit_size unit_size Valid) [xs];
  xo ← NonLinearity xo None (Some false);
  call (Activation "softmax") [xo].

Definition build : M built :=
  input_state ← call (Input (input_shape cfg)) [];
  v ← encoder input_state;
  v ← decoder v;
  out ← head v;
  ret (Built input_state out (forward_list v)).

End Builder.

(** [km.Model(inputs = input_state, outputs = x)] with the layers it owns.
    [Ok] means that the code of [get_model] ran to its [return], having issued
    the layer calls recorded in the graph, each of them taken to return.  The
    checks that Keras makes inside a layer call are those of
    [Keras.get_model] below. *)
Record model : Type := Model {
  m_inputs : handle;
  m_outputs : handle;
  m_layers : graph
}.

Definition get_model (cfg : config) : result model :=
  match build cfg [] with
  | Ok (b, g) => Ok (Model (b_input b) (b_output b) g)
  | Raise e => Raise e
  end.

(** * Vocabulary of the statements *)

(** ** Running the builder: the nodes a computation appends *)

(** [runs m g P]: from graph [g] the computation [m] returns normally, having
    appended some nodes [added] to [g], and [P] holds of its result and of
    the appended nodes. *)
Definition runs {A} (m : M A) (g : graph) (P : A -> list node -> Prop) : Prop :=
  exists a added, m g = Ok (a, g ++ added) /\ P a added.

(** A computation only appends to the graph. *)
Definition grows {A} (m : M A) : Prop :=
  forall g a g', m g = Ok (a, g') -> g `prefix_of` g'.

(** Whatever a computation returns satisfies [Q]. *)
Definition returns {A} (m : M A) (Q : A -> Prop) : Prop :=
  forall g a g', m g = Ok (a, g') -> Q a.

(** A run of nodes placed at handles [n], [n+1], ... in which every node has
    one input, the node before it; the first one reads [t]. *)
Fixpoint chain (t : handle) (n : nat) (l : list node) : Prop :=
  match l with
  | [] => True
  | nd :: l' => inputs nd = [t] /\ chain n (S n) l'
  end.

(** The tensor that comes out of such a run. *)
Definition chain_out (t : handle) (n : nat) (l : list node) : handle :=
  match l with
  | [] => t
  | _ :: _ => (n + length l - 1)%nat
  end.

(** The activation selected by [lrelu_alpha]. *)
Definition activation (cfg : config) : layer :=
  match lrelu_alpha cfg with
  | Some a => LeakyReLU a
  | None => PReLU
  end.

(** The layers of a nonlinearity with dropout value [d] and batch-norm flag
    [b]. *)
Definition nl_ops (cfg : config) (d : pyval) (b : bool) : list layer :=
  (if b then [BatchNormalization false] else []) ++
  [activation cfg] ++
  (if truthy d then [Dropout d] else []).

(** One convolution round of a residual block. *)
Definition round_ops (cfg : config) (channels : Z) (b : bool) : list layer :=
  Conv3D channels conv_kernel_size unit_size Same ::
  nl_ops cfg (dropout_in cfg) b.

Definition is_batch_norm (l : layer) : bool :=
  match l with BatchNormalization _ => true | _ => false end.

Definition is_dropout (l : layer) : bool :=
  match l with Dropout _ => true | _ => false end.

Definition is_conv (l : layer) : bool :=
  match l with Conv3D _ _ _ _ => true | _ => false end.

(** The batch-norm flag of the additional round [ci]. *)
Definition round_bn (cfg : config) (ci : Z) : bool :=
  (ci =? nconv cfg - 2) && batch_norm cfg.

(** The layers of a full residual block on [channels] feature maps. *)
Definition residual_ops (cfg : config) (channels : Z) : list layer :=
  round_ops cfg channels false ++
  flat_map (fun ci => round_ops cfg channels (round_bn cfg ci))
           (range (nconv cfg - 1)).

(** ** The nodes of one level *)

(** The strided convolution that ends encoder level [fi]. *)
Definition down_conv (cfg : config) (fi : Z) : layer :=
  Conv3D (nfm cfg * 2 ^ (fi + 1)) updown_kernel_size updown_stride Valid.

(** The transposed convolution that ends decoder level [fi]. *)
Definition up_conv (cfg : config) (fi : Z) : layer :=
  Conv3DTranspose (nfm cfg * 2 ^ fi) updown_kernel_size updown_stride.

(** The layers of the nonlinearity after the transition of level [fi]. *)
Definition transition_ops (cfg : config) (fi : Z) : list layer :=
  nl_ops cfg (if transition_dropout cfg fi then dropout_out cfg else PyFalse)
         (batch_norm cfg).

(** The residual convolutions of encoder level [fi]. *)
Definition enc_res_ops (cfg : config) (fi : Z) : list layer :=
  if fi =? 0
  then Conv3D (nfm cfg) conv_kernel_size unit_size Same ::
       nl_ops cfg PyFalse false
  else residual_ops cfg (nfm cfg * 2 ^ fi).

(** [seg] is what encoder level [fi] appends at handle [n] when its shortcut
    is [shortcut]; [hadd] is the handle of the residual sum. *)
Definition enc_segment (cfg : config) (fi : Z) (shortcut : handle) (n : nat)
    (hadd : handle) (seg : list node) : Prop :=
  exists res nl,
    seg = res ++ [Node Add [(hadd - 1)%nat; shortcut];
                  Node (down_conv cfg fi) [hadd]] ++ nl /\
    hadd = (n + length res)%nat /\
    map op res = enc_res_ops cfg fi /\
    chain shortcut n res /\
    map op nl = transition_ops cfg fi /\
    chain (S hadd) (S (S hadd)) nl.

(** [seg] is what decoder level [fi] appends at handle [n] when the current
    tensor is [hx] and the forwarded features are [fl]. *)
Definition dec_segment (cfg : config) (fi : Z) (hx : handle)
    (fl : list handle) (n : nat) (seg : list node) : Prop :=
  exists cat res nl hadd,
    seg = cat ++ res ++ [Node Add [(hadd - 1)%nat; hx];
                         Node (up_conv cfg fi) [hadd]] ++ nl /\
    hadd = (n + length cat + length res)%nat /\
    (if fi =? nlevels cfg - 1
     then cat = [] /\ chain hx n res
     else exists f, fl !! Z.to_nat (fi + 1) = Some f /\
                    cat = [Node (Concatenate (-1)) [f; hx]] /\
                    chain n (S n) res) /\
    map op res = residual_ops cfg (nfm cfg * 2 ^ (fi + 1)) /\
    map op nl = transition_ops cfg fi /\
    chain (S hadd) (S (S hadd)) nl.

(** The graph after the encoder levels [done], with its forwarded features. *)
Inductive enc_built (cfg : config) : list Z -> graph -> list handle -> Prop :=
| enc_built_nil :
    enc_built cfg [] [Node (Input (input_shape cfg)) []] []
| enc_built_snoc done fi g fl hadd seg :
    enc_built cfg done g fl ->
    enc_segment cfg fi (length g - 1)%nat (length g) hadd seg ->
    enc_built cfg (done ++ [fi]) (g ++ seg) (fl ++ [hadd]).

(** The graph after the whole encoder and the decoder levels [done]. *)
Inductive dec_built (cfg : config) (fl : list handle)
    : list Z -> graph -> Prop :=
| dec_built_nil g :
    enc_built cfg (range (nlevels cfg)) g fl ->
    dec_built cfg fl [] g
| dec_built_snoc done fi g seg :
    dec_built cfg fl done g ->
    dec_segment cfg fi (length g - 1)%nat fl (length g) seg ->
    dec_built cfg fl (done ++ [fi]) (g ++ seg).

(** ** The stages of [build] *)

(** The builder run up to the entry of decoder level [fi]: the input, the
    whole encoder and the decoder levels above [fi].  At [fi = -1] this is
    the run up to the head. *)
Definition decoder_entry (cfg : config) (fi : Z) : M locals :=
  input_state ← call (Input (input_shape cfg)) [];
  v ← encoder cfg input_state;
  for_each (decoder_level cfg)
           (take (Z.to_nat (nlevels cfg - 1 - fi)) (rev (range (nlevels cfg))))
           v.

(** The nodes of the head placed at handle [n], reading the forwarded
    features [f] and the decoder output [hx]. *)
Definition head_nodes (cfg : config) (n : nat) (f hx : handle) : list node :=
  [ Node (Concatenate (-1)) [f; hx];
    Node (Conv3D (nfm cfg) conv_kernel_size unit_size Same) [n];
    Node (Conv3D (nfm cfg) unit_size unit_size Same) [n];
    Node Add [(n + 1)%nat; (n + 2)%nat];
    Node (activation cfg) [(n + 3)%nat];
    Node (Conv3D 2 unit_size unit_size Valid) [(n + 4)%nat];
    Node (activation cfg) [(n + 5)%nat];
    Node (Activation "softmax") [(n + 6)%nat] ].

(** ** The sequence of layers of the model *)

(** Layers of encoder level [fi], in creation order. *)
Definition enc_ops (cfg : config) (fi : Z) : list layer :=
  enc_res_ops cfg fi ++ [Add; down_conv cfg fi] ++ transition_ops cfg fi.

(** Layers of decoder level [fi], in creation order. *)
Definition dec_ops (cfg : config) (fi : Z) : list layer :=
  (if fi =? nlevels cfg - 1 then [] else [Concatenate (-1)]) ++
  residual_ops cfg (nfm cfg * 2 ^ (fi + 1)) ++
  [Add; up_conv cfg fi] ++ transition_ops cfg fi.

(** Layers of the head. *)
Definition head_ops (cfg : config) : list layer :=
  [ Concatenate (-1);
    Conv3D (nfm cfg) conv_kernel_size unit_size Same;
    Conv3D (nfm cfg) unit_size unit_size Same;
    Add; activation cfg;
    Conv3D 2 unit_size unit_size Valid; activation cfg;
    Activation "softmax" ].

(** The complete layer sequence of a model with at least one level. *)
Definition model_ops (cfg : config) : list layer :=
  Input (input_shape cfg) ::
  flat_map (enc_ops cfg) (range (nlevels cfg)) ++
  flat_map (dec_ops cfg) (rev (range (nlevels cfg))) ++
  head_ops cfg.

(** ** Reading a layer sequence as blocks *)

(** The layers that [NonLinearity] creates. *)
Definition is_pointwise (l : layer) : bool :=
  match l with
  | BatchNormalization _ | LeakyReLU _ | PReLU | Dropout _ => true
  | _ => false
  end.

(** The longest run of nonlinearity layers at the front of [ops]. *)
Fixpoint pointwise_prefix (ops : list layer) : list layer :=
  match ops with
  | l :: rest => if is_pointwise l then l :: pointwise_prefix rest else []
  | [] => []
  end.

(** Every other layer, paired with the nonlinearity layers that directly
    follow it. *)
Fixpoint blocks (ops : list layer) : list (layer * list layer) :=
  match ops with
  | l :: rest =>
      (if is_pointwise l then [] else [(l, pointwise_prefix rest)]) ++
      blocks rest
  | [] => []
  end.

Definition size3_eqb (a b : size3) : bool :=
  let '(a1, a2, a3) := a in
  let '(b1, b2, b3) := b in
  (a1 =? b1) && (a2 =? b2) && (a3 =? b3).

(** The down and up convolutions. *)
Definition is_transition (l : layer) : bool :=
  match l with
  | Conv3D _ _ strides _ => size3_eqb strides updown_stride
  | Conv3DTranspose _ _ _ => true
  | _ => false
  end.

Definition is_down (l : layer) : bool :=
  match l with
  | Conv3D _ _ strides _ => size3_eqb strides updown_stride
  | _ => false
  end.

Definition is_up (l : layer) : bool :=
  match l with
  | Conv3DTranspose _ _ _ => true
  | _ => false
  end.

(** The 5x5x5 convolutions. *)
Definition is_conv5 (l : layer) : bool :=
  match l with
  | Conv3D _ kernel _ _ => size3_eqb kernel conv_kernel_size
  | _ => false
  end.

(** The transitions of a graph, each with its nonlinearity. *)
Definition transitions (g : graph) : list (layer * list layer) :=
  List.filter (fun b => is_transition (fst b)) (blocks (map op g)).

(** The 5x5x5 convolutions of a graph, each with its nonlinearity. *)
Definition conv5_blocks (g : graph) : list (layer * list layer) :=
  List.filter (fun b => is_conv5 (fst b)) (blocks (map op g)).

(** A block: a layer that is not a nonlinearity layer, then some that are. *)
Definition block_wf (b : layer * list layer) : Prop :=
  is_pointwise (fst b) = false /\ forallb is_pointwise (snd b) = true.

Definition unblocks (bs : list (layer * list layer)) : list layer :=
  flat_map (fun b => fst b :: snd b) bs.

(** ** The blocks of the model *)

Definition conv5 (channels : Z) : layer :=
  Conv3D channels conv_kernel_size unit_size Same.

(** The rounds of a full residual block. *)
Definition res_blocks (cfg : config) (channels : Z)
    : list (layer * list layer) :=
  (conv5 channels, nl_ops cfg (dropout_in cfg) false) ::
  map (fun ci => (conv5 channels,
                  nl_ops cfg (dropout_in cfg) (round_bn cfg ci)))
      (range (nconv cfg - 1)).

Definition enc_blocks (cfg : config) (fi : Z) : list (layer * list layer) :=
  (if fi =? 0
   then [(conv5 (nfm cfg), nl_ops cfg PyFalse false)]
   else res_blocks cfg (nfm cfg * 2 ^ fi)) ++
  [(Add, []); (down_conv cfg fi, transition_ops cfg fi)].

Definition dec_blocks (cfg : config) (fi : Z) : list (layer * list layer) :=
  (if fi =? nlevels cfg - 1 then [] else [(Concatenate (-1), [])]) ++
  res_blocks cfg (nfm cfg * 2 ^ (fi + 1)) ++
  [(Add, []); (up_conv cfg fi, transition_ops cfg fi)].

Definition head_blocks (cfg : config) : list (layer * list layer) :=
  [ (Concatenate (-1), []);
    (conv5 (nfm cfg), []);
    (Conv3D (nfm cfg) unit_size unit_size Same, []);
    (Add, [activation cfg]);
    (Conv3D 2 unit_size unit_size Valid, [activation cfg]);
    (Activation "softmax", []) ].

Definition model_blocks (cfg : config) : list (layer * list layer) :=
  (Input (input_shape cfg), []) ::
  flat_map (enc_blocks cfg) (range (nlevels cfg)) ++
  flat_map (dec_blocks cfg) (rev (range (nlevels cfg))) ++
  head_blocks cfg.

(** The transitions of the model, in creation order. *)
Definition model_transitions (cfg : config) : list (layer * list layer) :=
  map (fun fi => (down_conv cfg fi, transition_ops cfg fi))
      (range (nlevels cfg)) ++
  map (fun fi => (up_conv cfg fi, transition_ops cfg fi))
      (rev (range (nlevels cfg))).

(** The 5x5x5 convolutions of the model, in creation order. *)
Definition model_conv5 (cfg : config) : list (layer * list layer) :=
  flat_map (fun fi => if fi =? 0
                      then [(conv5 (nfm cfg), nl_ops cfg PyFalse false)]
                      else res_blocks cfg (nfm cfg * 2 ^ fi))
           (range (nlevels cfg)) ++
  flat_map (fun fi => res_blocks cfg (nfm cfg * 2 ^ (fi + 1)))
           (rev (range (nlevels cfg))) ++
  [(conv5 (nfm cfg), [])].

(** The rounds of a full residual block on [channels] feature maps: round 0
    is the first convolution, rounds [1 .. nconv-1] are the additional
    ones.  Each is a 5x5x5 convolution with the layers of its
    nonlinearity. *)
Definition block_rounds (cfg : config) (channels : Z)
    : list (layer * list layer) :=
  map (fun i =>
         (Conv3D channels (5, 5, 5) (1, 1, 1) Same,
          (if (1 <=? i) && (i =? nconv cfg - 1) && batch_norm cfg
           then [BatchNormalization false] else []) ++
          [activation cfg] ++
          (if truthy (dropout_in cfg) then [Dropout (dropout_in cfg)]
           else [])))
      (range (1 + Z.max 0 (nconv cfg - 1))).

(** ** The forward-feature list *)

Definition is_concat (l : layer) : bool :=
  match l with Concatenate _ => true | _ => false end.

(** The forwarded tensors read by the concatenations of a graph, in creation
    order: the first operand of every [Concatenate] node. *)
Definition concat_reads (g : graph) : list handle :=
  flat_map (fun nd => match op nd, inputs nd with
                      | Concatenate _, f :: _ => [f]
                      | _, _ => []
                      end) g.

(** ** Channel counts *)

(** The size that two sizes of an axis broadcast to, as Keras computes it
    for the operands of [add]: equal sizes are kept, a size of 1 takes the
    other one, anything else is a mismatch. *)
Definition broadcast_dim (a b : Z) : option Z :=
  if a =? b then Some a
  else if a =? 1 then Some b
  else if b =? 1 then Some a
  else None.

(** The number of feature maps (size of the last axis) of the output of a
    layer, from those of its inputs: a convolution has its [filters], the
    layers of a nonlinearity and an activation keep the count, a
    concatenation along the last axis adds the counts, and [Add] broadcasts
    the counts of its two operands; there is no count when they do not
    broadcast. *)
Definition layer_channels (l : layer) (ins : list (option Z)) : option Z :=
  match l, ins with
  | Input shape, [] => last shape
  | Conv3D filters _ _ _, [_] => Some filters
  | Conv3DTranspose filters _ _, [_] => Some filters
  | (BatchNormalization _ | LeakyReLU _ | PReLU | Dropout _ | Activation _),
    [c] => c
  | Add, [Some a; Some b] => broadcast_dim a b
  | Concatenate _, [Some a; Some b] => Some (a + b)
  | _, _ => None
  end.

Definition known_channels (acc : list (option Z)) (h : handle) : option Z :=
  match acc !! h with
  | Some c => c
  | None => None
  end.

Definition channels_step (acc : list (option Z)) (nd : node)
    : list (option Z) :=
  acc ++ [layer_channels (op nd) (map (known_channels acc) (inputs nd))].

(** The channel counts of all tensors of a graph, in creation order. *)
Definition all_channels (g : graph) : list (option Z) :=
  fold_left channels_step g [].

Definition channels (g : graph) (h : handle) : option Z :=
  known_channels (all_channels g) h.

(** The channel count at the end of a chain of layers [ops] that starts
    from a tensor of [c] channels. *)
Definition ops_channels (ops : list layer) (c : option Z) : option Z :=
  fold_left (fun c o => layer_channels o [c]) ops c.

(** In graph [g] a sum of a residual with [cin] channels and a shortcut with
    channel count [cs] is read by the transition convolution [conv], created
    right after it, whose output has [cout] channels. *)
Definition sum_then_transition (g : graph) (conv : layer) (cin : Z)
    (cs : option Z) (cout : Z) : Prop :=
  exists h r s,
    (S h < length g)%nat /\ (r < h)%nat /\ (s < h)%nat /\
    g !! h = Some (Node Add [r; s]) /\
    g !! S h = Some (Node conv [h]) /\
    channels g r = Some cin /\
    channels g s = cs /\
    channels g h = layer_channels Add [Some cin; cs] /\
    channels g (S h) = Some cout.

(** * The builder under the checks of Keras

    [get_model] above records the layer calls that the code issues when
    every call returns.  Keras checks a layer call and raises [ValueError]
    when it rejects it; the exception leaves [get_model] at that call.
    [Keras.get_model] is the same code with these checks.  What is modelled
    of them: a convolution needs a positive number of filters and an input
    with three spatial axes and a channel axis; a convolution without
    padding needs its window to fit into every spatial axis; the operands
    of [add] have to broadcast; those of [Concatenate] have to agree on
    every axis but the last.  The values of the dropout rate and of the
    slope of [LeakyReLU] are taken to be acceptable. *)

Module Keras.

(** The length of an axis of length [d] after a convolution with a window
    of [k] and a stride of [s]. *)
Definition conv_length (d k s : Z) (pad : padding) : option Z :=
  match pad with
  | Same => Some ((d + s - 1) / s)
  | Valid => if k <=? d then Some ((d - k) / s + 1) else None
  end.

(** The same for a transposed convolution, which has no padding here. *)
Definition deconv_length (d k s : Z) : Z := d * s + Z.max (k - s) 0.

(** The shape of a tensor is the list of its axes without the batch axis. *)
Definition conv_shape (filters : Z) (kernel_size strides : size3)
    (pad : padding) (s : list Z) : option (list Z) :=
  let '(k1, k2, k3) := kernel_size in
  let '(s1, s2, s3) := strides in
  match s with
  | [d1; d2; d3; _] =>
      match conv_length d1 k1 s1 pad, conv_length d2 k2 s2 pad,
            conv_length d3 k3 s3 pad with
      | Some e1, Some e2, Some e3 => Some [e1; e2; e3; filters]
      | _, _, _ => None
      end
  | _ => None
  end.

Definition deconv_shape (filters : Z) (kernel_size strides : size3)
    (s : list Z) : option (list Z) :=
  let '(k1, k2, k3) := kernel_size in
  let '(s1, s2, s3) := strides in
  match s with
  | [d1; d2; d3; _] =>
      Some [deconv_length d1 k1 s1; deconv_length d2 k2 s2;
            deconv_length d3 k3 s3; filters]
  | _ => None
  end.

(** The shape that the operands of [add] broadcast to. *)
Fixpoint broadcast (a b : list Z) : option (list Z) :=
  match a, b with
  | [], [] => Some []
  | d :: a', e :: b' =>
      match broadcast_dim d e, broadcast a' b' with
      | Some c, Some r => Some (c :: r)
      | _, _ => None
      end
  | _, _ => None
  end.

(** A shape as its leading axes and its last axis. *)
Fixpoint split_last (s : list Z) : option (list Z * Z) :=
  match s with
  | [] => None
  | [c] => Some ([], c)
  | d :: s' =>
      match split_last s' with
      | Some (i, c) => Some (d :: i, c)
      | None => None
      end
  end.

Fixpoint shape_eqb (a b : list Z) : bool :=
  match a, b with
  | [], [] => true
  | d :: a', e :: b' => (d =? e) && shape_eqb a' b'
  | _, _ => false
  end.

(** Concatenation along the last axis, the only one the builder uses. *)
Definition concat_shape (axis : Z) (a b : list Z) : option (list Z) :=
  match split_last a, split_last b with
  | Some (ia, ca), Some (ib, cb) =>
      if (axis =? -1) && shape_eqb ia ib then Some (ia ++ [ca + cb])
      else None
  | _, _ => None
  end.

(** The shape of the output of a layer called on tensors of the shapes
    [ins]; [None] when Keras rejects the call. *)
Definition layer_shape (l : layer) (ins : list (list Z)) : option (list Z) :=
  match l, ins with
  | Input s, [] => Some s
  | Conv3D filters kernel_size strides pad, [s] =>
      if 0 <? filters then conv_shape filters kernel_size strides pad s
      else None
  | Conv3DTranspose filters kernel_size strides, [s] =>
      if 0 <? filters then deconv_shape filters kernel_size strides s
      else None
  | (BatchNormalization _ | LeakyReLU _ | PReLU | Dropout _ | Activation _),
    [s] => Some s
  | Add, [a; b] => broadcast a b
  | Concatenate axis, [a; b] => concat_shape axis a b
  | _, _ => None
  end.

Definition known_shape (acc : list (option (list Z))) (h : handle)
    : option (list Z) :=
  match acc !! h with
  | Some s => s
  | None => None
  end.

Definition shapes_step (acc : list (option (list Z))) (nd : node)
    : list (option (list Z)) :=
  acc ++ [ins ← mapM (known_shape acc) (inputs nd); layer_shape (op nd) ins].

(** The shapes of all tensors of a graph, in creation order. *)
Definition shapes (g : graph) : list (option (list Z)) :=
  fold_left shapes_step g [].

Definition tensor_shape (g : graph) (h : handle) : option (list Z) :=
  known_shape (shapes g) h.

(** A layer call: Keras accepts it and the node is created, or it raises
    [ValueError]. *)
Definition call (l : layer) (ins : list handle) : M handle :=
  fun g =>
    match ins ← mapM (tensor_shape g) ins; layer_shape l ins with
    | Some _ => call l ins g
    | None => Raise ValueError
    end.

Section Builder.

Variable cfg : config.

Definition NonLinearity (t : handle) (dropout : option pyval)
    (bn : option bool) : M handle :=
  let dropout := default PyFalse dropout in
  let bn := default (batch_norm cfg) bn in
  to ← (if bn then call (BatchNormalization false) [t] else ret t);
  to ← (match lrelu_alpha cfg with
         | Some a => call (LeakyReLU a) [to]
         | None => call PReLU [to]
         end);
  to ← (if truthy dropout then call (Dropout dropout) [to] else ret to);
  ret to.

Fixpoint extra_convs (channels : Z) (cis : list Z) (residual : handle)
    : M handle :=
  match cis with
  | [] => ret residual
  | ci :: cis' =>
      residual ← call (Conv3D channels conv_kernel_size unit_size Same)
                       [residual];
      residual ← NonLinearity residual (Some (dropout_in cfg))
                    (Some ((ci =? nconv cfg - 2) && batch_norm cfg));
      extra_convs channels cis' residual
  end.

Definition residual_convs (channels : Z) (t : handle) : M handle :=
  residual ← call (Conv3D channels conv_kernel_size unit_size Same) [t];
  residual ← NonLinearity residual (Some (dropout_in cfg)) (Some false);
  extra_convs channels (range (nconv cfg - 1)) residual.

Definition transition_nonlinearity (fi : Z) (t : handle) : M handle :=
  if transition_dropout cfg fi
  then NonLinearity t (Some (dropout_out cfg)) None
  else NonLinearity t None None.

Definition encoder_level (input_state : handle) (fi : Z) (v : locals)
    : M locals :=
  '(shortcut, residual) ←
    (if fi =? 0 then
       residual ← call (Conv3D (nfm cfg) conv_kernel_size unit_size Same)
                        [input_state];
       residual ← NonLinearity residual None (Some false);
       ret (input_state, residual)
     else
       xv ← read_local (x v);
       residual ← residual_convs (nfm cfg * 2 ^ fi) xv;
       ret (xv, residual));
  xs ← call Add [residual; shortcut];
  let fl := forward_list v ++ [xs] in
  xd ← call (Conv3D (nfm cfg * 2 ^ (fi + 1)) updown_kernel_size
                     updown_stride Valid) [xs];
  xn ← transition_nonlinearity fi xd;
  ret (Locals (Some xn) fl).

Definition decoder_level (fi : Z) (v : locals) : M locals :=
  shortcut ← read_local (x v);
  xc ← (if negb (fi =? nlevels cfg - 1) then
           f ← py_index (forward_list v) (fi + 1);
           call (Concatenate (-1)) [f; shortcut]
         else ret shortcut);
  residual ← residual_convs (nfm cfg * 2 ^ (fi + 1)) xc;
  xs ← call Add [residual; shortcut];
  xu ← call (Conv3DTranspose (nfm cfg * 2 ^ fi) updown_kernel_size
                              updown_stride) [xs];
  xn ← transition_nonlinearity fi xu;
  ret (Locals (Some xn) (forward_list v)).

Definition encoder (input_state : handle) : M locals :=
  for_each (encoder_level input_state) (range (nlevels cfg))
           (Locals None []).

Definition decoder (v : locals) : M locals :=
  for_each decoder_level (rev (range (nlevels cfg))) v.

Definition head (v : locals) : M handle :=
  f ← py_index (forward_list v) 0;
  xv ← read_local (x v);
  xc ← call (Concatenate (-1)) [f; xv];
  residual ← call (Conv3D (nfm cfg) conv_kernel_size unit_size Same) [xc];
  shortcut ← call (Conv3D (nfm cfg) unit_size unit_size Same) [xc];
  xs ← call Add [residual; shortcut];
  xs ← NonLinearity xs None (Some false);
  xo ← call (Conv3D 2 unit_size unit_size Valid) [xs];
  xo ← NonLinearity xo None (Some false);
  call (Activation "softmax") [xo].

Definition build : M built :=
  input_state ← call (Input (input_shape cfg)) [];
  v ← encoder input_state;
  v ← decoder v;
  out ← head v;
  ret (Built input_state out (forward_list v)).

End Builder.

Definition get_model (cfg : config) : result model :=
  match build cfg [] with
  | Ok (b, g) => Ok (Model (b_input b) (b_output b) g)
  | Raise e => Raise e
  end.

End Keras.

(** The builder under the checks ends as the builder without them, or with
    a [ValueError]. *)
Definition follows {A} (km m : M A) : Prop :=
  forall g, km g = m g \/ km g = Raise ValueError.

(** In graph [g] the transition convolution [conv] reads a tensor of [cin]
    channels and gives one of [cout] channels. *)
Definition transition_widths (g : graph) (conv : layer) (cin cout : Z)
    : Prop :=
  exists h,
    g !! S h = Some (Node conv [h]) /\
    channels g h = Some cin /\
    channels g (S h) = Some cout.

(** ** Configurations *)

(** The same configuration with another [nconv]. *)
Definition with_nconv (cfg : config) (n : Z) : config :=
  Config (nlevels cfg) (nfm cfg) (input_shape cfg) n (dropout_in cfg)
         (dropout_out cfg) (lrelu_alpha cfg) (batch_norm cfg).

(** The float 0.5. *)
Definition cfg_half : spec_float := S754_finite false 4503599627370496 (-53).

(** The default configuration with one level and [dropout_out = 0.5]. *)
Definition cfg_dropout_out : config :=
  Config 1 16 [64; 64; 64; 1] 2 PyFalse (PyFloat cfg_half) None false.

(** One level, [batch_norm=True]. *)
Definition cfg_batch_norm : config :=
  Config 1 16 [64; 64; 64; 1] 2 PyFalse PyFalse None true.

(** A configuration in the style of the training script (batch norm, leaky
    ReLU, both dropouts, [nconv = 3]), on three levels. *)
Definition cfg_train : config :=
  Config 3 16 [128; 128; 128; 1] 3 (PyFloat cfg_half) (PyFloat cfg_half)
         (Some cfg_half) true.

(** A configuration with three levels and [nconv = 1], batch norm on. *)
Definition cfg_single_conv : config :=
  Config 3 16 [64; 64; 64; 1] 1 (PyFloat cfg_half) PyFalse None true.

(** The default configuration on one level, with [nconv = 0]. *)
Definition cfg_nconv0 : config :=
  Config 1 16 [64; 64; 64; 1] 0 PyFalse PyFalse None false.

(** One level and one feature map on an input of three channels. *)
Definition cfg_one_filter : config :=
  Config 1 1 [8; 8; 8; 3] 2 PyFalse PyFalse None false.

(** The default configuration, on one level. *)
Definition cfg_default : config :=
  Config 1 16 [64; 64; 64; 1] 2 PyFalse PyFalse None false.

(** ** The wiring of a graph *)

(** Every node reads tensors created before it, and only the node at handle
    0 reads none. *)
Definition topological (g : graph) : Prop :=
  forall h nd, g !! h = Some nd ->
    Forall (fun i => (i < h)%nat) (inputs nd) /\
    (inputs nd = [] -> h = 0%nat).

(** Tensor [h] is an input of the node at [h']. *)
Definition read_by (g : graph) (h h' : handle) : Prop :=
  exists nd, g !! h' = Some nd /\ h ∈ inputs nd.

(** The nodes [l], placed at handles [n], [n+1], ..., read tensors created
    before them, each one among others the tensor created just before it. *)
Definition wired (n : nat) (l : list node) : Prop :=
  forall i nd, l !! i = Some nd ->
    Forall (fun j => (j < n + i)%nat) (inputs nd) /\
    (n + i - 1)%nat ∈ inputs nd.

(** ** Counting layers *)

(** The number of layers of a sequence that satisfy [p]. *)
Definition count (p : layer -> bool) (ops : list layer) : Z :=
  Z.of_nat (length (List.filter p ops)).

(** The number of layers of a graph that satisfy [p]. *)
Definition count_layers (p : layer -> bool) (g : graph) : Z :=
  count p (map op g).

Definition sumZ (l : list Z) : Z := fold_right Z.add 0 l.

Definition is_input (l : layer) : bool :=
  match l with Input _ => true | _ => false end.

Definition is_add (l : layer) : bool :=
  match l with Add => true | _ => false end.

(** The activations that [NonLinearity] chooses from. *)
Definition is_relu (l : layer) : bool :=
  match l with LeakyReLU _ | PReLU => true | _ => false end.

Definition is_activation (l : layer) : bool :=
  match l with Activation _ => true | _ => false end.

(** The number of convolution rounds of a full residual block: the first
    convolution and the iterations of [for ci in range(nconv-1)]. *)
Definition rounds (cfg : config) : Z := 1 + Z.max 0 (nconv cfg - 1).

(** The number of layers that satisfy [p] among those of one nonlinearity
    with batch-norm flag [batch_norm] and no dropout. *)
Definition census_nl (cfg : config) (p : layer -> bool) : Z :=
  Z.b2z (batch_norm cfg) * Z.b2z (p (BatchNormalization false)) +
  Z.b2z (p (activation cfg)).

(** ... in the dropout layer that a nonlinearity adds for the value [d]. *)
Definition census_drop (p : layer -> bool) (d : pyval) : Z :=
  Z.b2z (truthy d) * Z.b2z (p (Dropout d)).

(** ... in one full residual block. *)
Definition census_residual (cfg : config) (p : layer -> bool) : Z :=
  rounds cfg * (Z.b2z (p (conv5 (nfm cfg))) + Z.b2z (p (activation cfg)) +
                census_drop p (dropout_in cfg)) +
  Z.b2z (batch_norm cfg && (2 <=? nconv cfg)) *
  Z.b2z (p (BatchNormalization false)).

(** ... in the whole model, for a [p] that does not look at the number of
    filters of a convolution. *)
Definition census (cfg : config) (p : layer -> bool) : Z :=
  Z.b2z (p (Input (input_shape cfg))) +
  (2 * nlevels cfg - 1) * census_residual cfg p +
  (2 * nlevels cfg + 1) * Z.b2z (p Add) +
  nlevels cfg * Z.b2z (p (Concatenate (-1))) +
  nlevels cfg * (Z.b2z (p (down_conv cfg 0)) + Z.b2z (p (up_conv cfg 0))) +
  2 * nlevels cfg * census_nl cfg p +
  2 * (nlevels cfg - 1) * census_drop p (dropout_out cfg) +
  2 * Z.b2z (p (conv5 (nfm cfg))) + 3 * Z.b2z (p (activation cfg)) +
  Z.b2z (p (Conv3D (nfm cfg) unit_size unit_size Same)) +
  Z.b2z (p (Conv3D 2 unit_size unit_size Valid)) +
  Z.b2z (p (Activation "softmax")).

(** ** Dependence on the graph built so far *)

(** A computation looks at the graph only through its length: from two
    graphs of the same length it returns the same value and appends the
    same nodes, or raises the same exception. *)
Definition oblivious {A} (m : M A) : Prop :=
  forall g1 g2 : graph, length g1 = length g2 ->
    match m g1, m g2 with
    | Ok (a1, g1'), Ok (a2, g2') =>
        a1 = a2 /\ exists added, g1' = g1 ++ added /\ g2' = g2 ++ added
    | Raise e1, Raise e2 => e1 = e2
    | _, _ => False
    end.

(** The same configuration with another [input_shape]. *)
Definition with_input_shape (cfg : config) (shape : list Z) : config :=
  Config (nlevels cfg) (nfm cfg) shape (nconv cfg) (dropout_in cfg)
         (dropout_out cfg) (lrelu_alpha cfg) (batch_norm cfg).

(** ** The models of the training script *)

(** The same configuration with other dropout values. *)
Definition with_dropout (cfg : config) (d_in d_out : pyval) : config :=
  Config (nlevels cfg) (nfm cfg) (input_shape cfg) (nconv cfg) d_in d_out
         (lrelu_alpha cfg) (batch_norm cfg).

(** The layers other than Dropout. *)
Definition not_dropout (l : layer) : bool := negb (is_dropout l).

(** The floats 0.25, 0.05 and 0.4. *)
Definition float_0_25 : spec_float :=
  S754_finite false 4503599627370496 (-54).
Definition float_0_05 : spec_float :=
  S754_finite false 7205759403792794 (-57).
Definition float_0_4 : spec_float :=
  S754_finite false 7205759403792794 (-54).

(** [scripts/train.py], lines 48-49: the model of a fresh training,
    [get_model(nlevels, input_shape=(sz, sz, sz, 1), batch_norm=True,
    lrelu_alpha=0.05, nconv=nconv, dropout_in=0.25, dropout_out=0.5)] with
    [nlevels = 5], [sz = 128], [nconv = 3]. *)
Definition train_fresh_cfg : config :=
  Config 5 16 [128; 128; 128; 1] 3 (PyFloat float_0_25) (PyFloat cfg_half)
         (Some float_0_05) true.

(** Lines 56-57: the model into which the saved weights are loaded, with
    [dropout_out=0.4] and [dropout_in] left at its default. *)
Definition train_reload_cfg : config :=
  Config 5 16 [128; 128; 128; 1] 3 PyFalse (PyFloat float_0_4)
         (Some float_0_05) true.

(** * The training script [halonet/scripts/train.py]

    The script has no functions.  The embedding keeps its control flow, the
    names it binds and the exceptions that its own statements raise; the
    calls into numpy, Keras and the catalog module are events of a trace and
    are taken to return, and the directory of fields is taken to hold a file
    for every catalog.  The arrays [delta] and [mask] are always updated
    together; they are represented by the files whose sub-cubes make up
    their rows, in the order of axis 0 (every file contributes the same
    number of rows, and the reflections of lines 165-189 change the content
    of rows, not their origin).  The sizes computed at lines 101-108 and
    145-162 from the constants [fz = 416], [sz = 128], [nbuff = 16] and
    [vp = 0.25] are not part of the events; with these constants
    [nchunks = 4] and no division of those lines is by zero once
    [filesperbatch] is not. *)

Module Train.

Inductive exn : Type := NameError | ZeroDivisionError.

(** The settings at the head of the script that select its branches
    (lines 28, 29 and 36). *)
Record settings : Type := Settings {
  inputmodelfile : option string;
  inputweightsfile : option string;
  check : bool
}.

Inductive event : Type :=
| GetModel (cfg : config)
    (** [model.get_model], line 48 or line 56 *)
| LoadModel
    (** [load_model], line 75 *)
| LoadFile (fi : Z)
    (** catalog and field [fi] are read, lines 81-89 *)
| DumpLarge
    (** the check output of lines 93-98 *)
| DumpChunk
    (** the check output of lines 127-132 *)
| Fit (fi it : Z) (files : list Z)
    (** [hnet.fit] at line 194, in iteration [it] after file [fi]; [files]
        are the files whose sub-cubes make up the array [delta], of which
        the first [batch_size] rows are passed as training data and the
        other rows as validation data *).

Inductive outcome (A : Type) : Type :=
| Returns (a : A)
| Fails (e : exn) (tr : list event).
Arguments Returns {A} a.
Arguments Fails {A} e tr.

Definition filesperbatch_start : Z := 5.
Definition niter : Z := 2.

(** The names bound while the script runs ([None]: not bound yet), and the
    trace so far. *)
Record state : Type := State {
  it : option Z;
  delta : option (list Z);
  trace : list event
}.

(** Lines 45-76: the value bound to [filesperbatch], if any.  [nepochs] is
    bound on the same two branches. *)
Definition setup_filesperbatch (s : settings) (nfiles : Z) : option Z :=
  match inputmodelfile s with
  | None =>
      match inputweightsfile s with
      | None => Some filesperbatch_start
      | Some _ => Some (nfiles / 8)
      end
  | Some _ => None
  end.

Definition setup_trace (s : settings) : list event :=
  match inputmodelfile s with
  | None =>
      match inputweightsfile s with
      | None => [GetModel train_fresh_cfg]
      | Some _ => [GetModel train_reload_cfg]
      end
  | Some _ => [LoadModel]
  end.

(** The body of [for fi in range(nfiles)], lines 80-216. *)
Definition file_step (s : settings) (filesperbatch : option Z) (fi : Z)
    (st : state) : outcome state :=
  let tr := trace st ++ [LoadFile fi] in
  (* line 91: if check and fi == 0 and it == 0 *)
  match (if check s && (fi =? 0)
         then match it st with
              | Some i => inr (i =? 0)
              | None => inl NameError
              end
         else inr false) with
  | inl e => Fails e tr
  | inr dump =>
      let tr := if dump then tr ++ [DumpLarge] else tr in
      (* line 118: if (fi % filesperbatch) == 0 *)
      match filesperbatch with
      | None => Fails NameError tr
      | Some b =>
          if b =? 0 then Fails ZeroDivisionError tr
          else
            match (if fi mod b =? 0 then Some [fi]
                   else match delta st with
                        | Some d => Some (fi :: d)
                        | None => None
                        end) with
            | None => Fails NameError tr
            | Some d =>
                (* line 125: if check and fi == 0 *)
                let tr := if check s && (fi =? 0) then tr ++ [DumpChunk]
                          else tr in
                (* line 134: if (fi + 1) % filesperbatch == 0 *)
                if (fi + 1) mod b =? 0
                then Returns
                       (State (Some (niter - 1)) (Some d)
                          (tr ++ map (fun i => Fit fi i d) (range niter)))
                else Returns (State (it st) (Some d) tr)
            end
      end
  end.

Fixpoint files_loop (s : settings) (filesperbatch : option Z) (fis : list Z)
    (st : state) : outcome state :=
  match fis with
  | [] => Returns st
  | fi :: fis' =>
      match file_step s filesperbatch fi st with
      | Returns st' => files_loop s filesperbatch fis' st'
      | Fails e tr => Fails e tr
      end
  end.

(** The script, run where the catalog directory holds [nfiles] files. *)
Definition main (s : settings) (nfiles : Z) : outcome state :=
  files_loop s (setup_filesperbatch s nfiles) (range nfiles)
             (State None None (setup_trace s)).

(** The settings as they stand in the script. *)
Definition script_settings : settings :=
  Settings None
    (Some "/scratch/p/pen/pberger/rundir128-3/halonet128-2018-02-26-first.h5"%string)
    false.

(** The files [hi, hi-1, ..., hi-n+1]. *)
Definition newest_first (hi n : Z) : list Z :=
  map (fun j => hi - j) (range n).

Definition is_fit (e : event) : bool :=
  match e with Fit _ _ _ => true | _ => false end.

(** The files of which some call of [fit] of a trace gets sub-cubes, as
    training or as validation data. *)
Definition files_passed_to_fit (tr : list event) : list Z :=
  flat_map (fun e => match e with Fit _ _ files => files | _ => [] end) tr.

(** What one file adds to the trace once [filesperbatch] is bound to a
    positive number [b] and [check] is off: its load and, when it completes
    a batch, the [niter = 2] calls of [fit] on the last [b] files. *)
Definition schedule (b : Z) (fi : Z) : list event :=
  LoadFile fi ::
  (if (fi + 1) mod b =? 0
   then [Fit fi 0 (newest_first fi b); Fit fi 1 (newest_first fi b)]
   else []).

End Train.

(** * Proofs *)

(** ** Runs of the builder *)

Section RunLemmas.

Context {A B : Type}.

Lemma runs_ret (a : A) g (P : A -> list node -> Prop) :
  P a [] -> runs (ret a) g P.
Proof.
  intros HP. exists a, []. split; [|done].
  by rewrite app_nil_r.
Qed.

Lemma runs_bind (m : M A) (k : A -> M B) g (P : B -> list node -> Prop) :
  runs m g (fun a add1 =>
    runs (k a) (g ++ add1) (fun b add2 => P b (add1 ++ add2))) ->
  runs (m ≫= k) g P.
Proof.
  intros (a & add1 & Hm & b & add2 & Hk & HP).
  exists b, (add1 ++ add2). split; [|done].
  unfold mbind, M_bind, bind. rewrite Hm, Hk. by rewrite app_assoc.
Qed.

Lemma runs_weaken (m : M A) g (P Q : A -> list node -> Prop) :
  runs m g P -> (forall a added, P a added -> Q a added) -> runs m g Q.
Proof. intros (a & added & Hm & HP) HPQ. exists a, added. eauto. Qed.

Lemma runs_det (m : M A) g (P : A -> list node -> Prop) a g' :
  runs m g P -> m g = Ok (a, g') -> exists added, g' = g ++ added /\ P a added.
Proof.
  intros (a' & added & Hm & HP) Hg. rewrite Hm in Hg.
  injection Hg as -> <-. eauto.
Qed.

End RunLemmas.

Lemma runs_call l ins g (P : handle -> list node -> Prop) :
  P (length g) [Node l ins] -> runs (call l ins) g P.
Proof. intros HP. by exists (length g), [Node l ins]. Qed.

Lemma chain_out_cons t n nd l :
  chain_out t n (nd :: l) = chain_out n (S n) l.
Proof. destruct l; simpl; lia. Qed.

Lemma chain_app t n l1 l2 :
  chain t n (l1 ++ l2) <->
  chain t n l1 /\ chain (chain_out t n l1) (n + length l1) l2.
Proof.
  revert t n. induction l1 as [|nd l1 IH]; intros t n.
  - simpl. rewrite Nat.add_0_r. tauto.
  - rewrite chain_out_cons. cbn [app chain length].
    rewrite IH, Nat.add_succ_r. tauto.
Qed.

Lemma chain_out_app t n l1 l2 :
  chain_out t n (l1 ++ l2) = chain_out (chain_out t n l1) (n + length l1) l2.
Proof.
  destruct l2 as [|nd l2].
  - by rewrite app_nil_r.
  - destruct l1 as [|nd1 l1]; simpl; [lia|].
    rewrite length_app. simpl. lia.
Qed.

(** What one call to [NonLinearity] appends. *)
Lemma NonLinearity_runs cfg t d b g :
  runs (NonLinearity cfg t d b) g (fun h added =>
    map op added
    = nl_ops cfg (default PyFalse d) (default (batch_norm cfg) b) /\
    chain t (length g) added /\
    h = (length g + length added - 1)%nat).
Proof.
  unfold NonLinearity, nl_ops, activation.
  destruct (default (batch_norm cfg) b), (lrelu_alpha cfg),
    (truthy (default PyFalse d));
    repeat (apply runs_bind || apply runs_call || apply runs_ret);
    simpl; rewrite ?length_app; simpl; repeat split; f_equal; lia.
Qed.

Lemma nl_ops_nonempty cfg d b : nl_ops cfg d b <> [].
Proof. unfold nl_ops. destruct b; discriminate. Qed.

Lemma chain_out_nonempty t n l :
  l <> [] -> chain_out t n l = (n + length l - 1)%nat.
Proof. by destruct l. Qed.

(** One round: a 5x5x5 convolution and its nonlinearity. *)
Lemma round_runs cfg channels d b r g :
  runs (c ← call (Conv3D channels conv_kernel_size unit_size Same) [r];
        NonLinearity cfg c (Some d) (Some b)) g
    (fun h added =>
       map op added =
         Conv3D channels conv_kernel_size unit_size Same :: nl_ops cfg d b /\
       chain r (length g) added /\
       h = (length g + length added - 1)%nat).
Proof.
  apply runs_bind, runs_call.
  eapply runs_weaken; [apply NonLinearity_runs|].
  intros h a2 (Hops & Hch & ->). simpl in Hops.
  rewrite length_app in *. simpl in *.
  repeat split; [by rewrite Hops| |lia].
  by replace (S (length g)) with (length g + 1)%nat by lia.
Qed.

Lemma extra_convs_runs cfg channels cis r g :
  runs (extra_convs cfg channels cis r) g (fun h added =>
    map op added =
      flat_map (fun ci => round_ops cfg channels (round_bn cfg ci)) cis /\
    chain r (length g) added /\
    h = chain_out r (length g) added).
Proof.
  revert r g. induction cis as [|ci cis IH]; intros r g.
  - by apply runs_ret.
  - cbn [extra_convs].
    pose proof (round_runs cfg channels (dropout_in cfg) (round_bn cfg ci) r g)
      as Hround.
    unfold runs in Hround.
    destruct Hround as (h1 & a1 & Hrun & Hops & Hch & ->).
    specialize (IH (length g + length a1 - 1)%nat (g ++ a1)).
    destruct IH as (h2 & a2 & Hrun2 & Hops2 & Hch2 & ->).
    assert (a1 <> []) as Hne by (intros ->; discriminate).
    exists (chain_out r (length g) (a1 ++ a2)), (a1 ++ a2). split.
    + unfold mbind, M_bind, bind in *. fold (round_bn cfg ci).
      destruct (call _ _ g) as [[c gc]|]; [|done].
      rewrite Hrun, Hrun2, app_assoc.
      by rewrite chain_out_app, length_app, (chain_out_nonempty r _ a1).
    + rewrite map_app, Hops, Hops2. split; [done|]. split; [|done].
      apply chain_app. split; [done|].
      rewrite (chain_out_nonempty r _ a1) by done.
      by rewrite length_app in Hch2.
Qed.

Lemma residual_convs_runs cfg channels t g :
  runs (residual_convs cfg channels t) g (fun h added =>
    map op added = residual_ops cfg channels /\
    chain t (length g) added /\
    h = (length g + length added - 1)%nat).
Proof.
  unfold residual_convs.
  pose proof (round_runs cfg channels (dropout_in cfg) false t g) as Hround.
  destruct Hround as (h1 & a1 & Hrun & Hops & Hch & ->).
  destruct (extra_convs_runs cfg channels (range (nconv cfg - 1))
              (length g + length a1 - 1)%nat (g ++ a1))
    as (h2 & a2 & Hrun2 & Hops2 & Hch2 & ->).
  assert (a1 <> []) as Hne by (intros ->; discriminate).
  exists (chain_out t (length g) (a1 ++ a2)), (a1 ++ a2). split.
  - unfold mbind, M_bind, bind in *.
    destruct (call _ _ g) as [[c gc]|]; [|done].
    rewrite Hrun, Hrun2, app_assoc.
    by rewrite chain_out_app, length_app, (chain_out_nonempty t _ a1).
  - unfold residual_ops, round_ops. rewrite map_app, Hops, Hops2.
    split; [done|]. split.
    + apply chain_app. split; [done|].
      rewrite (chain_out_nonempty t _ a1) by done.
      by rewrite length_app in Hch2.
    + apply chain_out_nonempty. by destruct a1.
Qed.

Lemma bind_run {A B} (m : M A) (k : A -> M B) g a g' :
  m g = Ok (a, g') -> (m ≫= k) g = k a g'.
Proof. intros H. unfold mbind, M_bind, bind. by rewrite H. Qed.

Lemma call_run l ins g : call l ins g = Ok (length g, g ++ [Node l ins]).
Proof. done. Qed.

Lemma ret_run {A} (a : A) g : ret a g = Ok (a, g).
Proof. done. Qed.

Lemma transition_nonlinearity_runs cfg fi t g :
  runs (transition_nonlinearity cfg fi t) g (fun h added =>
    map op added = transition_ops cfg fi /\
    chain t (length g) added /\
    h = (length g + length added - 1)%nat).
Proof.
  unfold transition_nonlinearity, transition_ops.
  destruct (transition_dropout cfg fi); apply NonLinearity_runs.
Qed.

Lemma residual_ops_nonempty cfg channels : residual_ops cfg channels <> [].
Proof. discriminate. Qed.

Lemma enc_res_ops_nonempty cfg fi : enc_res_ops cfg fi <> [].
Proof. unfold enc_res_ops. destruct (fi =? 0); discriminate. Qed.

Lemma map_op_nonempty (l : list node) ops :
  map op l = ops -> ops <> [] -> (1 <= length l)%nat.
Proof. intros <- Hne. destruct l; [done|simpl; lia]. Qed.

(** The residual part of an encoder level. *)
Lemma encoder_residual_runs cfg input fi v shortcut g :
  (if fi =? 0 then shortcut = input else x v = Some shortcut) ->
  runs (if fi =? 0 then
          residual ← call (Conv3D (nfm cfg) conv_kernel_size unit_size Same)
                          [input];
          residual ← NonLinearity cfg residual None (Some false);
          ret (input, residual)
        else
          xv ← read_local (x v);
          residual ← residual_convs cfg (nfm cfg * 2 ^ fi) xv;
          ret (xv, residual)) g
    (fun sr res =>
       sr = (shortcut, (length g + length res - 1)%nat) /\
       map op res = enc_res_ops cfg fi /\
       chain shortcut (length g) res).
Proof.
  unfold enc_res_ops. destruct (fi =? 0); intros Hs.
  - subst shortcut.
    apply runs_bind, runs_call, runs_bind.
    eapply runs_weaken; [apply NonLinearity_runs|].
    intros h a (Hops & Hch & ->). apply runs_ret.
    rewrite app_nil_r. rewrite length_app in *. simpl in *.
    rewrite Hops. split; [do 2 f_equal; lia|]. split; [done|].
    by replace (S (length g)) with (length g + 1)%nat by lia.
  - rewrite Hs. apply runs_bind, runs_ret, runs_bind.
    eapply runs_weaken; [apply residual_convs_runs|].
    intros h a (Hops & Hch & ->). apply runs_ret.
    simpl. rewrite app_nil_r in Hch. by rewrite !app_nil_r.
Qed.

Lemma chain_eq t t' n n' l :
  t = t' -> n = n' -> chain t n l -> chain t' n' l.
Proof. by intros -> ->. Qed.

Ltac chain_lia H := eapply chain_eq; [| |exact H]; lia.

Lemma encoder_level_runs cfg input fi v shortcut g :
  (if fi =? 0 then shortcut = input else x v = Some shortcut) ->
  runs (encoder_level cfg input fi v) g (fun v' seg =>
    exists hadd,
      enc_segment cfg fi shortcut (length g) hadd seg /\
      v' = Locals (Some (length g + length seg - 1)%nat)
                  (forward_list v ++ [hadd])).
Proof.
  intros Hs. unfold encoder_level.
  apply runs_bind.
  eapply runs_weaken; [by apply encoder_residual_runs|].
  intros [s r] res (Heq & Hops & Hch). injection Heq as -> ->.
  apply runs_bind, runs_call, runs_bind, runs_call, runs_bind.
  eapply runs_weaken; [apply transition_nonlinearity_runs|].
  intros h nl (Hnl & Hchn & ->). apply runs_ret.
  pose proof (map_op_nonempty _ _ Hops (enc_res_ops_nonempty cfg fi)) as Hlen.
  pose proof (map_op_nonempty _ _ Hnl (nl_ops_nonempty _ _ _)) as Hlen'.
  rewrite !length_app in *. cbn [length] in *. rewrite !app_nil_r.
  exists (length g + length res)%nat. split.
  - exists res, nl. repeat split; try done. chain_lia Hchn.
  - f_equal. f_equal. lia.
Qed.

Lemma py_index_run {A} (l : list A) (i : Z) a g :
  0 <= i -> l !! Z.to_nat i = Some a -> py_index l i g = Ok (a, g).
Proof.
  intros Hi Hl. unfold py_index.
  destruct (i <? 0) eqn:E; [lia|]. rewrite E. by rewrite Hl.
Qed.

Lemma decoder_level_runs cfg fi v hx g :
  0 <= fi ->
  x v = Some hx ->
  (fi <> nlevels cfg - 1 -> is_Some (forward_list v !! Z.to_nat (fi + 1))) ->
  runs (decoder_level cfg fi v) g (fun v' seg =>
    dec_segment cfg fi hx (forward_list v) (length g) seg /\
    v' = Locals (Some (length g + length seg - 1)%nat) (forward_list v)).
Proof.
  intros Hfi Hx Hfl. unfold decoder_level, dec_segment. rewrite Hx.
  apply runs_bind, runs_ret, runs_bind.
  destruct (fi =? nlevels cfg - 1) eqn:E; cbn [negb].
  - apply runs_ret, runs_bind.
    eapply runs_weaken; [apply residual_convs_runs|].
    intros h res (Hops & Hch & ->).
    apply runs_bind, runs_call, runs_bind, runs_call, runs_bind.
    eapply runs_weaken; [apply transition_nonlinearity_runs|].
    intros h nl (Hnl & Hchn & ->). apply runs_ret.
    pose proof (map_op_nonempty _ _ Hops (residual_ops_nonempty _ _)) as Hlen.
    pose proof (map_op_nonempty _ _ Hnl (nl_ops_nonempty _ _ _)) as Hlen'.
    rewrite !length_app in *. cbn [length app] in *.
    rewrite !app_nil_r in *. split; [|do 2 f_equal; lia].
    exists [], res, nl, (length g + length res)%nat.
    cbn [length app].
    split; [repeat f_equal; lia|]. split; [lia|].
    split; [split; [done|chain_lia Hch]|].
    split; [done|]. split; [done|]. chain_lia Hchn.
  - destruct Hfl as [f Hf]; [lia|].
    apply runs_bind. exists f, []. split.
    { rewrite !app_nil_r. apply py_index_run; [lia|done]. }
    apply runs_call, runs_bind.
    eapply runs_weaken; [apply residual_convs_runs|].
    intros h res (Hops & Hch & ->).
    apply runs_bind, runs_call, runs_bind, runs_call, runs_bind.
    eapply runs_weaken; [apply transition_nonlinearity_runs|].
    intros h nl (Hnl & Hchn & ->). apply runs_ret.
    pose proof (map_op_nonempty _ _ Hops (residual_ops_nonempty _ _)) as Hlen.
    pose proof (map_op_nonempty _ _ Hnl (nl_ops_nonempty _ _ _)) as Hlen'.
    rewrite !length_app in *. cbn [length app] in *.
    rewrite !app_nil_r in *. split; [|do 2 f_equal; lia].
    exists [Node (Concatenate (-1)) [f; hx]], res, nl,
      (length g + 1 + length res)%nat.
    cbn [length app].
    split; [repeat f_equal; lia|]. split; [lia|].
    split.
    { exists f. split; [done|]. split; [repeat f_equal; lia|chain_lia Hch]. }
    split; [done|]. split; [done|]. chain_lia Hchn.
Qed.

(** ** The level loops *)

Lemma range_nonpos n : n <= 0 -> range n = [].
Proof. intros H. unfold range. by replace (Z.to_nat n) with 0%nat by lia. Qed.

Lemma range_succ n : 0 <= n -> range (n + 1) = range n ++ [n].
Proof.
  intros H. unfold range.
  replace (Z.to_nat (n + 1)) with (S (Z.to_nat n)) by lia.
  rewrite seq_S, map_app. simpl. do 3 f_equal. lia.
Qed.

Lemma length_range n : length (range n) = Z.to_nat n.
Proof. unfold range. by rewrite length_map, length_seq. Qed.

Lemma lookup_range n (i : nat) :
  (i < Z.to_nat n)%nat -> range n !! i = Some (Z.of_nat i).
Proof.
  intros H. unfold range. rewrite list_lookup_fmap.
  by rewrite lookup_seq_lt.
Qed.

Lemma elem_of_range n fi : fi ∈ range n <-> 0 <= fi < n.
Proof.
  unfold range. rewrite list_elem_of_fmap. split.
  - intros (i & -> & Hi). apply elem_of_seq in Hi. lia.
  - intros H. exists (Z.to_nat fi). split; [lia|]. apply elem_of_seq. lia.
Qed.

Lemma for_each_app body l1 l2 v g :
  for_each body (l1 ++ l2) v g =
  (v' ← for_each body l1 v; for_each body l2 v') g.
Proof.
  revert v g. induction l1 as [|fi l1 IH]; intros v g; [done|].
  cbn [app for_each]. unfold mbind, M_bind, bind in *.
  destruct (body fi v g) as [[v1 g1]|]; [|done]. apply IH.
Qed.

Lemma enc_segment_length cfg fi s n hadd seg :
  enc_segment cfg fi s n hadd seg -> (4 <= length seg)%nat.
Proof.
  intros (res & nl & -> & _ & Hops & _ & Hnl & _).
  pose proof (map_op_nonempty _ _ Hops (enc_res_ops_nonempty cfg fi)).
  pose proof (map_op_nonempty _ _ Hnl (nl_ops_nonempty _ _ _)).
  rewrite !length_app. simpl. lia.
Qed.

Lemma dec_segment_length cfg fi hx fl n seg :
  dec_segment cfg fi hx fl n seg -> (4 <= length seg)%nat.
Proof.
  intros (cat & res & nl & hadd & -> & _ & _ & Hops & Hnl & _).
  pose proof (map_op_nonempty _ _ Hops (residual_ops_nonempty _ _)).
  pose proof (map_op_nonempty _ _ Hnl (nl_ops_nonempty _ _ _)).
  rewrite !length_app. simpl. lia.
Qed.

Lemma enc_built_length cfg done g fl :
  enc_built cfg done g fl ->
  (1 <= length g)%nat /\ length fl = length done.
Proof.
  induction 1 as [|done fi g fl hadd seg _ [IH1 IH2] Hseg]; [done|].
  rewrite !length_app. simpl. lia.
Qed.

(** The encoder loop over the first [k] levels. *)
Lemma encoder_loop_runs cfg (k : nat) :
  runs (for_each (encoder_level cfg 0%nat) (range (Z.of_nat k))
                 (Locals None []))
       [Node (Input (input_shape cfg)) []]
    (fun v added =>
       let g := [Node (Input (input_shape cfg)) []] ++ added in
       enc_built cfg (range (Z.of_nat k)) g (forward_list v) /\
       x v = if k is O then None else Some (length g - 1)%nat).
Proof.
  induction k as [|k IH].
  - apply runs_ret. split; [constructor|done].
  - replace (Z.of_nat (S k)) with (Z.of_nat k + 1) by lia.
    rewrite range_succ by lia.
    destruct IH as (v & added & Hrun & Hbuilt & Hx).
    set (g := [Node (Input (input_shape cfg)) []] ++ added) in *.
    destruct (encoder_level_runs cfg 0%nat (Z.of_nat k) v (length g - 1)%nat g)
      as (v' & seg & Hrun' & hadd & Hseg & ->).
    { destruct (Z.eqb_spec (Z.of_nat k) 0) as [E|E].
      - assert (k = 0%nat) as -> by lia. subst g.
        cbn in Hrun. injection Hrun as <- Hadd.
        by destruct added.
      - rewrite Hx. destruct k; [lia|done]. }
    exists (Locals (Some (length g + length seg - 1)%nat)
                   (forward_list v ++ [hadd])), (added ++ seg).
    split.
    + rewrite for_each_app. erewrite bind_run by exact Hrun.
      cbn [for_each]. erewrite bind_run by exact Hrun'.
      unfold ret. subst g. by rewrite <- app_assoc.
    + cbn [forward_list x]. rewrite app_assoc. fold g. split.
      * by econstructor.
      * by rewrite length_app.
Qed.

Lemma rev_range_succ n : 0 <= n -> rev (range (n + 1)) = n :: rev (range n).
Proof. intros H. by rewrite range_succ, rev_app_distr. Qed.

Lemma lookup_rev_range (n j : nat) :
  (j < n)%nat ->
  rev (range (Z.of_nat n)) !! j = Some (Z.of_nat n - 1 - Z.of_nat j).
Proof.
  revert j. induction n as [|n IH]; intros j Hj; [lia|].
  replace (Z.of_nat (S n)) with (Z.of_nat n + 1) by lia.
  rewrite rev_range_succ by lia. destruct j as [|j]; simpl.
  - f_equal. lia.
  - rewrite IH by lia. f_equal. lia.
Qed.

Lemma lookup_rev_range_level n fi :
  0 <= fi < n -> rev (range n) !! Z.to_nat (n - 1 - fi) = Some fi.
Proof.
  intros H.
  pose proof (lookup_rev_range (Z.to_nat n) (Z.to_nat (n - 1 - fi))) as Hl.
  rewrite Z2Nat.id in Hl by lia. rewrite Hl by lia. f_equal. lia.
Qed.

Lemma length_rev_range n : length (rev (range n)) = Z.to_nat n.
Proof. by rewrite length_rev, length_range. Qed.

(** The decoder loop over its first [j] levels, started after the encoder. *)
Lemma decoder_loop_runs cfg g0 v0 (j : nat) :
  enc_built cfg (range (nlevels cfg)) g0 (forward_list v0) ->
  x v0 = Some (length g0 - 1)%nat ->
  (j <= Z.to_nat (nlevels cfg))%nat ->
  runs (for_each (decoder_level cfg) (take j (rev (range (nlevels cfg)))) v0)
       g0
    (fun v added =>
       dec_built cfg (forward_list v0) (take j (rev (range (nlevels cfg))))
                 (g0 ++ added) /\
       x v = Some (length (g0 ++ added) - 1)%nat /\
       forward_list v = forward_list v0).
Proof.
  intros Henc Hx0. induction j as [|j IH]; intros Hj.
  - apply runs_ret. rewrite app_nil_r. split; [by constructor|done].
  - destruct IH as (v & added & Hrun & Hbuilt & Hx & Hfl); [lia|].
    assert (rev (range (nlevels cfg)) !! j
            = Some (nlevels cfg - 1 - Z.of_nat j)) as Hlk.
    { replace (nlevels cfg) with (Z.of_nat (Z.to_nat (nlevels cfg))) at 1
        by lia.
      rewrite lookup_rev_range by lia. f_equal. lia. }
    rewrite (take_S_r _ _ _ Hlk).
    set (fi := nlevels cfg - 1 - Z.of_nat j) in *.
    destruct (decoder_level_runs cfg fi v (length (g0 ++ added) - 1)%nat
                (g0 ++ added))
      as (v' & seg & Hrun' & Hseg & ->); [lia|done| |].
    { intros Hne. rewrite Hfl. apply lookup_lt_is_Some.
      destruct (enc_built_length _ _ _ _ Henc) as [_ ->].
      rewrite length_range. lia. }
    rewrite Hfl in *.
    eexists _, (added ++ seg). split.
    + rewrite for_each_app. erewrite bind_run by exact Hrun.
      cbn [for_each]. erewrite bind_run by exact Hrun'.
      unfold ret. by rewrite <- app_assoc.
    + cbn [forward_list x]. rewrite app_assoc. split.
      * by econstructor.
      * by rewrite (length_app (g0 ++ added)).
Qed.

(** ** Every computation only appends to the graph *)

Lemma grows_ret {A} (a : A) : grows (ret a).
Proof. intros g a' g' [= _ <-]. done. Qed.

Lemma grows_raise {A} e : grows (@raise A e).
Proof. intros g a g' [=]. Qed.

Lemma grows_call l ins : grows (call l ins).
Proof. intros g a g' [= _ <-]. by apply prefix_app_r. Qed.

Lemma grows_bind {A B} (m : M A) (k : A -> M B) :
  grows m -> (forall a, grows (k a)) -> grows (m ≫= k).
Proof.
  intros Hm Hk g b g'. unfold mbind, M_bind, bind.
  destruct (m g) as [[a g1]|] eqn:E; [|done].
  intros Hk'. etrans; [by eapply Hm|by eapply Hk].
Qed.

Lemma grows_read_local {A} (o : option A) : grows (read_local o).
Proof. destruct o; [apply grows_ret|apply grows_raise]. Qed.

Lemma grows_py_index {A} (l : list A) i : grows (py_index l i).
Proof.
  unfold py_index. repeat case_match;
    first [apply grows_ret|apply grows_raise].
Qed.

Ltac grows_step :=
  lazymatch goal with
  | |- grows (ret _) => apply grows_ret
  | |- grows (raise _) => apply grows_raise
  | |- grows (call _ _) => apply grows_call
  | |- grows (read_local _) => apply grows_read_local
  | |- grows (py_index _ _) => apply grows_py_index
  | |- grows (_ ≫= _) => apply grows_bind; [|intros ?]
  | |- grows (if _ then _ else _) => case_match
  | |- grows (match _ with _ => _ end) => case_match
  end.

Lemma grows_NonLinearity cfg t d b : grows (NonLinearity cfg t d b).
Proof. unfold NonLinearity. repeat grows_step. Qed.

Lemma grows_extra_convs cfg channels cis r :
  grows (extra_convs cfg channels cis r).
Proof.
  revert r. induction cis as [|ci cis IH]; intros r; cbn [extra_convs].
  - apply grows_ret.
  - apply grows_bind; [apply grows_call|intros c].
    apply grows_bind; [apply grows_NonLinearity|intros c']. apply IH.
Qed.

Lemma grows_residual_convs cfg channels t :
  grows (residual_convs cfg channels t).
Proof.
  unfold residual_convs.
  apply grows_bind; [apply grows_call|intros c].
  apply grows_bind; [apply grows_NonLinearity|intros c'].
  apply grows_extra_convs.
Qed.

Lemma grows_transition_nonlinearity cfg fi t :
  grows (transition_nonlinearity cfg fi t).
Proof.
  unfold transition_nonlinearity. case_match; apply grows_NonLinearity.
Qed.

Ltac grows_level :=
  lazymatch goal with
  | |- grows (NonLinearity _ _ _ _) => apply grows_NonLinearity
  | |- grows (residual_convs _ _ _) => apply grows_residual_convs
  | |- grows (transition_nonlinearity _ _ _) =>
      apply grows_transition_nonlinearity
  | |- _ => grows_step
  end.

Lemma grows_encoder_level cfg input fi v : grows (encoder_level cfg input fi v).
Proof. unfold encoder_level. repeat grows_level. Qed.

Lemma grows_decoder_level cfg fi v : grows (decoder_level cfg fi v).
Proof. unfold decoder_level. repeat grows_level. Qed.

Lemma grows_for_each body fis v :
  (forall fi v, grows (body fi v)) -> grows (for_each body fis v).
Proof.
  intros Hb. revert v. induction fis as [|fi fis IH]; intros v.
  - apply grows_ret.
  - cbn [for_each]. apply grows_bind; [apply Hb|apply IH].
Qed.

Lemma grows_head cfg v : grows (head cfg v).
Proof. unfold head. repeat grows_level. Qed.

(** ** The stages of [build] *)

(** A nonlinearity without batch norm and without dropout is the bare
    activation. *)
Lemma NonLinearity_plain cfg t g :
  NonLinearity cfg t None (Some false) g =
  Ok (length g, g ++ [Node (activation cfg) [t]]).
Proof. unfold NonLinearity, activation. by destruct (lrelu_alpha cfg). Qed.

Lemma head_run cfg v f hx g :
  forward_list v !! 0%nat = Some f ->
  x v = Some hx ->
  head cfg v g = Ok ((length g + 7)%nat, g ++ head_nodes cfg (length g) f hx).
Proof.
  intros Hf Hx. unfold head, head_nodes.
  erewrite bind_run by (by apply py_index_run).
  rewrite Hx. cbn [read_local].
  erewrite bind_run by apply ret_run.
  do 4 erewrite bind_run by apply call_run.
  erewrite bind_run by apply NonLinearity_plain.
  erewrite bind_run by apply call_run.
  erewrite bind_run by apply NonLinearity_plain.
  rewrite call_run, !length_app. cbn [length].
  rewrite <- !app_assoc, <- !Nat.add_assoc. done.
Qed.

Lemma encoder_run cfg :
  0 <= nlevels cfg ->
  exists v g,
    (input_state ← call (Input (input_shape cfg)) [];
     encoder cfg input_state) [] = Ok (v, g) /\
    enc_built cfg (range (nlevels cfg)) g (forward_list v) /\
    x v = if nlevels cfg =? 0 then None else Some (length g - 1)%nat.
Proof.
  intros Hn.
  destruct (encoder_loop_runs cfg (Z.to_nat (nlevels cfg)))
    as (v & added & Hrun & Hbuilt & Hx).
  rewrite Z2Nat.id in * by lia.
  exists v, ([Node (Input (input_shape cfg)) []] ++ added).
  split; [|split; [done|]].
  - erewrite bind_run by apply call_run. exact Hrun.
  - rewrite Hx. destruct (Z.eqb_spec (nlevels cfg) 0) as [->|Hne]; [done|].
    destruct (Z.to_nat (nlevels cfg)) eqn:E; [lia|done].
Qed.

Lemma decoder_entry_run cfg fi :
  1 <= nlevels cfg -> -1 <= fi < nlevels cfg ->
  exists v g,
    decoder_entry cfg fi [] = Ok (v, g) /\
    dec_built cfg (forward_list v)
      (take (Z.to_nat (nlevels cfg - 1 - fi)) (rev (range (nlevels cfg)))) g /\
    x v = Some (length g - 1)%nat /\
    length (forward_list v) = Z.to_nat (nlevels cfg).
Proof.
  intros Hn Hfi.
  destruct (encoder_run cfg) as (v0 & g0 & Hrun0 & Hbuilt0 & Hx0); [lia|].
  destruct (Z.eqb_spec (nlevels cfg) 0) as [|_]; [lia|].
  destruct (decoder_loop_runs cfg g0 v0 (Z.to_nat (nlevels cfg - 1 - fi)))
    as (v & added & Hrun & Hbuilt & Hx & Hfl); [done|done|lia|].
  exists v, (g0 ++ added). rewrite Hfl. repeat split; try done.
  - unfold decoder_entry.
    unfold mbind, M_bind, bind in *. rewrite call_run in *.
    destruct (encoder cfg _ _) as [[v1 g1]|]; [|done].
    by injection Hrun0 as -> ->.
  - destruct (enc_built_length _ _ _ _ Hbuilt0) as [_ ->].
    by rewrite length_range.
Qed.

Lemma take_rev_range_all n :
  take (Z.to_nat (n - 1 - -1)) (rev (range n)) = rev (range n).
Proof.
  apply take_ge. rewrite length_rev_range. lia.
Qed.

(** The whole construction. *)
Lemma build_run cfg :
  1 <= nlevels cfg ->
  exists g fl f,
    decoder_entry cfg (-1) [] = Ok (Locals (Some (length g - 1)%nat) fl, g) /\
    dec_built cfg fl (rev (range (nlevels cfg))) g /\
    length fl = Z.to_nat (nlevels cfg) /\
    fl !! 0%nat = Some f /\
    build cfg [] =
      Ok (Built 0%nat (length g + 7)%nat fl,
          g ++ head_nodes cfg (length g) f (length g - 1)%nat).
Proof.
  intros Hn.
  destruct (decoder_entry_run cfg (-1)) as (v & g & Hrun & Hbuilt & Hx & Hlen);
    [lia|lia|].
  rewrite take_rev_range_all in Hbuilt.
  destruct (lookup_lt_is_Some_2 (forward_list v) 0%nat) as [f Hf]; [lia|].
  exists g, (forward_list v), f.
  split; [|split; [done|split; [done|split; [done|]]]].
  - rewrite Hrun. destruct v as [xv fl]. simpl in *. by rewrite Hx.
  - unfold decoder_entry in Hrun. rewrite take_rev_range_all in Hrun.
    unfold build, decoder. unfold mbind, M_bind, bind in *.
    rewrite call_run in *.
    destruct (encoder cfg _ _) as [[v1 g1]|]; [|done].
    rewrite Hrun. by rewrite (head_run cfg v f (length g - 1)%nat).
Qed.

(** ** The sequence of layers of the model *)

Lemma enc_segment_ops cfg fi s n hadd seg :
  enc_segment cfg fi s n hadd seg -> map op seg = enc_ops cfg fi.
Proof.
  intros (res & nl & -> & _ & Hops & _ & Hnl & _).
  unfold enc_ops. by rewrite !map_app, Hops, Hnl.
Qed.

Lemma dec_segment_ops cfg fi hx fl n seg :
  dec_segment cfg fi hx fl n seg -> map op seg = dec_ops cfg fi.
Proof.
  intros (cat & res & nl & hadd & -> & _ & Hcat & Hops & Hnl & _).
  unfold dec_ops. rewrite !map_app, Hops, Hnl.
  destruct (fi =? nlevels cfg - 1).
  - by destruct Hcat as [-> _].
  - by destruct Hcat as (f & _ & -> & _).
Qed.

Lemma enc_built_ops cfg done g fl :
  enc_built cfg done g fl ->
  map op g = Input (input_shape cfg) :: flat_map (enc_ops cfg) done.
Proof.
  induction 1 as [|done fi g fl hadd seg _ IH Hseg]; [done|].
  rewrite map_app, IH, flat_map_app, (enc_segment_ops _ _ _ _ _ _ Hseg).
  simpl. by rewrite app_nil_r.
Qed.

Lemma dec_built_ops cfg fl done g :
  dec_built cfg fl done g ->
  map op g = Input (input_shape cfg) ::
             flat_map (enc_ops cfg) (range (nlevels cfg)) ++
             flat_map (dec_ops cfg) done.
Proof.
  induction 1 as [g Henc|done fi g seg _ IH Hseg].
  - rewrite (enc_built_ops _ _ _ _ Henc). simpl. by rewrite app_nil_r.
  - rewrite map_app, IH, flat_map_app, (dec_segment_ops _ _ _ _ _ _ Hseg).
    simpl. by rewrite app_nil_r, <- app_assoc.
Qed.

Lemma get_model_build cfg b g :
  build cfg [] = Ok (b, g) ->
  get_model cfg = Ok (Model (b_input b) (b_output b) g).
Proof. intros H. unfold get_model. by rewrite H. Qed.

Lemma get_model_ops cfg :
  1 <= nlevels cfg ->
  exists m, get_model cfg = Ok m /\ map op (m_layers m) = model_ops cfg.
Proof.
  intros Hn.
  destruct (build_run cfg Hn) as (g & fl & f & _ & Hb & _ & _ & Hrun).
  eexists. split; [by apply get_model_build|].
  cbn [m_layers]. rewrite map_app, (dec_built_ops _ _ _ _ Hb).
  unfold model_ops. cbn [app]. by rewrite <- app_assoc.
Qed.

(** ** Reading a layer sequence as blocks *)

Lemma pointwise_prefix_app a rest :
  forallb is_pointwise a = true ->
  pointwise_prefix (a ++ rest) = a ++ pointwise_prefix rest.
Proof.
  induction a as [|l a IH]; [done|]. simpl.
  intros [Hl Ha]%andb_prop. rewrite Hl. by rewrite IH.
Qed.

Lemma blocks_pointwise_app a rest :
  forallb is_pointwise a = true -> blocks (a ++ rest) = blocks rest.
Proof.
  induction a as [|l a IH]; [done|]. simpl.
  intros [Hl Ha]%andb_prop. rewrite Hl. by apply IH.
Qed.

Lemma pointwise_prefix_unblocks bs :
  Forall block_wf bs -> pointwise_prefix (unblocks bs) = [].
Proof.
  destruct 1 as [|[l nl] bs [Hl _] _]; [done|].
  simpl in *. by rewrite Hl.
Qed.

Lemma blocks_unblocks bs : Forall block_wf bs -> blocks (unblocks bs) = bs.
Proof.
  induction 1 as [|[l nl] bs [Hl Hnl] Hbs IH]; [done|].
  simpl in *. rewrite Hl. simpl.
  rewrite pointwise_prefix_app, blocks_pointwise_app by done.
  fold (unblocks bs). rewrite pointwise_prefix_unblocks by done.
  by rewrite app_nil_r, IH.
Qed.

(** ** The blocks of the model *)

Lemma activation_pointwise cfg : is_pointwise (activation cfg) = true.
Proof. unfold activation. by destruct (lrelu_alpha cfg). Qed.

Lemma nl_ops_pointwise cfg d b : forallb is_pointwise (nl_ops cfg d b) = true.
Proof.
  unfold nl_ops. rewrite !forallb_app. simpl.
  rewrite activation_pointwise.
  destruct b, (truthy d) eqn:E; simpl; try done; by destruct d.
Qed.

Lemma unblocks_app bs1 bs2 :
  unblocks (bs1 ++ bs2) = unblocks bs1 ++ unblocks bs2.
Proof. apply flat_map_app. Qed.

Lemma unblocks_cons b bs :
  unblocks (b :: bs) = (fst b :: snd b) ++ unblocks bs.
Proof. done. Qed.

Lemma unblocks_flat_map {A} (f : A -> list (layer * list layer)) l :
  unblocks (flat_map f l) = flat_map (fun a => unblocks (f a)) l.
Proof.
  induction l as [|a l IH]; [done|].
  simpl. by rewrite unblocks_app, IH.
Qed.

Lemma unblocks_res_blocks cfg channels :
  unblocks (res_blocks cfg channels) = residual_ops cfg channels.
Proof.
  unfold res_blocks, residual_ops. rewrite unblocks_cons. f_equal.
  induction (range (nconv cfg - 1)) as [|ci l IH]; [done|].
  cbn [map flat_map]. by rewrite unblocks_cons, IH.
Qed.

Lemma res_blocks_wf cfg channels : Forall block_wf (res_blocks cfg channels).
Proof.
  unfold res_blocks. constructor.
  - split; [done|apply nl_ops_pointwise].
  - apply Forall_forall. intros b Hb.
    apply (list_elem_of_fmap_1 _ (range (nconv cfg - 1))) in Hb
      as (ci & -> & _).
    split; [done|apply nl_ops_pointwise].
Qed.

Lemma unblocks_enc_blocks cfg fi :
  unblocks (enc_blocks cfg fi) = enc_ops cfg fi.
Proof.
  unfold enc_blocks, enc_ops, enc_res_ops. rewrite unblocks_app.
  destruct (fi =? 0).
  - simpl. by rewrite app_nil_r.
  - rewrite unblocks_res_blocks. simpl. by rewrite app_nil_r.
Qed.

Lemma unblocks_dec_blocks cfg fi :
  unblocks (dec_blocks cfg fi) = dec_ops cfg fi.
Proof.
  unfold dec_blocks, dec_ops. rewrite !unblocks_app, unblocks_res_blocks.
  destruct (fi =? nlevels cfg - 1); simpl; by rewrite app_nil_r.
Qed.

Lemma enc_blocks_wf cfg fi : Forall block_wf (enc_blocks cfg fi).
Proof.
  unfold enc_blocks. apply Forall_app. split.
  - destruct (fi =? 0); [|apply res_blocks_wf].
    constructor; [|done]. split; [done|apply nl_ops_pointwise].
  - repeat constructor. apply nl_ops_pointwise.
Qed.

Lemma dec_blocks_wf cfg fi : Forall block_wf (dec_blocks cfg fi).
Proof.
  unfold dec_blocks. rewrite !Forall_app. split; [|split].
  - destruct (fi =? nlevels cfg - 1); repeat constructor.
  - apply res_blocks_wf.
  - repeat constructor. apply nl_ops_pointwise.
Qed.

Lemma Forall_flat_map_intro {A B} (P : B -> Prop) (f : A -> list B) l :
  (forall a, Forall P (f a)) -> Forall P (flat_map f l).
Proof.
  intros Hf. induction l as [|a l IH]; [done|].
  simpl. apply Forall_app. split; [apply Hf|done].
Qed.

Lemma model_blocks_wf cfg : Forall block_wf (model_blocks cfg).
Proof.
  unfold model_blocks. constructor; [done|].
  rewrite !Forall_app. split; [|split].
  - apply Forall_flat_map_intro, enc_blocks_wf.
  - apply Forall_flat_map_intro, dec_blocks_wf.
  - unfold head_blocks.
    repeat constructor; simpl; by rewrite activation_pointwise.
Qed.

Lemma unblocks_model_blocks cfg : unblocks (model_blocks cfg) = model_ops cfg.
Proof.
  unfold model_blocks, model_ops.
  change (unblocks ((Input (input_shape cfg), []) :: ?l))
    with (Input (input_shape cfg) :: unblocks l).
  rewrite !unblocks_app, !unblocks_flat_map. f_equal.
  f_equal; [|f_equal].
  - apply flat_map_ext. intros fi. apply unblocks_enc_blocks.
  - apply flat_map_ext. intros fi. apply unblocks_dec_blocks.
Qed.

(** The model read as blocks. *)
Lemma get_model_blocks cfg :
  1 <= nlevels cfg ->
  exists m, get_model cfg = Ok m /\
            blocks (map op (m_layers m)) = model_blocks cfg.
Proof.
  intros Hn. destruct (get_model_ops cfg Hn) as (m & Hm & Hops).
  exists m. split; [done|].
  rewrite Hops, <- unblocks_model_blocks.
  apply blocks_unblocks, model_blocks_wf.
Qed.

Lemma filter_flat_map {A B} (p : B -> bool) (f : A -> list B) l :
  List.filter p (flat_map f l) = flat_map (fun a => List.filter p (f a)) l.
Proof.
  induction l as [|a l IH]; [done|].
  simpl. by rewrite List.filter_app, IH.
Qed.

Lemma flat_map_singleton {A B} (f : A -> B) l :
  flat_map (fun a => [f a]) l = map f l.
Proof. induction l as [|a l IH]; [done|]. simpl. by rewrite IH. Qed.

Lemma filter_none {A} (p : A -> bool) l :
  Forall (fun a => p a = false) l -> List.filter p l = [].
Proof. induction 1 as [|a l Ha _ IH]; [done|]. simpl. by rewrite Ha. Qed.

Lemma filter_all {A} (p : A -> bool) l :
  Forall (fun a => p a = true) l -> List.filter p l = l.
Proof. induction 1 as [|a l Ha _ IH]; [done|]. simpl. by rewrite Ha, IH. Qed.

Lemma res_blocks_conv5 cfg channels :
  Forall (fun b => fst b = conv5 channels) (res_blocks cfg channels).
Proof.
  unfold res_blocks. constructor; [done|].
  apply Forall_forall. intros b Hb.
  by apply (list_elem_of_fmap_1 _ (range (nconv cfg - 1))) in Hb
    as (ci & -> & _).
Qed.

Lemma transitions_res_blocks cfg channels :
  List.filter (fun b => is_transition (fst b)) (res_blocks cfg channels) = [].
Proof.
  apply filter_none. eapply Forall_impl; [apply res_blocks_conv5|].
  by intros b ->.
Qed.

Lemma conv5_res_blocks cfg channels :
  List.filter (fun b => is_conv5 (fst b)) (res_blocks cfg channels)
  = res_blocks cfg channels.
Proof.
  apply filter_all. eapply Forall_impl; [apply res_blocks_conv5|].
  by intros b ->.
Qed.

Lemma transitions_model_blocks cfg :
  List.filter (fun b => is_transition (fst b)) (model_blocks cfg)
  = model_transitions cfg.
Proof.
  unfold model_blocks, model_transitions. cbn [List.filter fst is_transition].
  rewrite !List.filter_app, !filter_flat_map.
  rewrite <- !flat_map_singleton.
  cbn [head_blocks List.filter fst is_transition conv5 size3_eqb unit_size
       updown_stride updown_kernel_size Z.eqb andb Pos.eqb].
  rewrite app_nil_r. f_equal; apply flat_map_ext; intros fi.
  - unfold enc_blocks. rewrite List.filter_app.
    destruct (fi =? 0); [|rewrite transitions_res_blocks]; done.
  - unfold dec_blocks. rewrite !List.filter_app, transitions_res_blocks.
    by destruct (fi =? nlevels cfg - 1).
Qed.

Lemma get_model_transitions cfg :
  1 <= nlevels cfg ->
  exists m, get_model cfg = Ok m /\
            transitions (m_layers m) = model_transitions cfg.
Proof.
  intros Hn. destruct (get_model_blocks cfg Hn) as (m & Hm & Hb).
  exists m. split; [done|].
  unfold transitions. rewrite Hb. apply transitions_model_blocks.
Qed.

Lemma conv5_model_blocks cfg :
  List.filter (fun b => is_conv5 (fst b)) (model_blocks cfg) = model_conv5 cfg.
Proof.
  unfold model_blocks, model_conv5. cbn [List.filter fst is_conv5].
  rewrite !List.filter_app, !filter_flat_map.
  f_equal; [|f_equal]; try (apply flat_map_ext; intros fi).
  - unfold enc_blocks. rewrite List.filter_app.
    destruct (fi =? 0); [|rewrite conv5_res_blocks];
      cbn; by rewrite ?app_nil_r.
  - unfold dec_blocks. rewrite !List.filter_app, conv5_res_blocks.
    destruct (fi =? nlevels cfg - 1); cbn; by rewrite ?app_nil_r.
Qed.

Lemma get_model_conv5 cfg :
  1 <= nlevels cfg ->
  exists m, get_model cfg = Ok m /\
            conv5_blocks (m_layers m) = model_conv5 cfg.
Proof.
  intros Hn. destruct (get_model_blocks cfg Hn) as (m & Hm & Hb).
  exists m. split; [done|].
  unfold conv5_blocks. rewrite Hb. apply conv5_model_blocks.
Qed.

(** ** What a nonlinearity contains *)

Lemma activation_not_batch_norm cfg : is_batch_norm (activation cfg) = false.
Proof. unfold activation. by destruct (lrelu_alpha cfg). Qed.

Lemma activation_not_dropout cfg : is_dropout (activation cfg) = false.
Proof. unfold activation. by destruct (lrelu_alpha cfg). Qed.

Lemma nl_ops_batch_norm cfg d b : existsb is_batch_norm (nl_ops cfg d b) = b.
Proof.
  unfold nl_ops. rewrite !existsb_app. cbn [existsb].
  rewrite activation_not_batch_norm. by destruct b, (truthy d).
Qed.

Lemma nl_ops_dropout cfg d b : existsb is_dropout (nl_ops cfg d b) = truthy d.
Proof.
  unfold nl_ops. rewrite !existsb_app. cbn [existsb].
  rewrite activation_not_dropout. by destruct b, (truthy d).
Qed.

Lemma positive_rate_truthy d : positive_rate d = true -> truthy d = true.
Proof. by destruct d as [|[]]. Qed.

Lemma transition_dropout_spec cfg fi :
  1 <= nlevels cfg -> 0 <= fi <= nlevels cfg - 1 ->
  transition_dropout cfg fi = negb (fi =? 0).
Proof.
  intros Hn Hfi. unfold transition_dropout.
  destruct (Z.eqb_spec fi 0) as [->|Hne]; simpl.
  - apply Z.ltb_ge. lia.
  - apply Z.ltb_lt. lia.
Qed.

Lemma transition_ops_dropout cfg fi :
  existsb is_dropout (transition_ops cfg fi)
  = transition_dropout cfg fi && truthy (dropout_out cfg).
Proof.
  unfold transition_ops. rewrite nl_ops_dropout.
  by destruct (transition_dropout cfg fi).
Qed.

Lemma transition_ops_batch_norm cfg fi :
  existsb is_batch_norm (transition_ops cfg fi) = batch_norm cfg.
Proof. apply nl_ops_batch_norm. Qed.

Lemma filter_blocks (p : layer -> bool) ops :
  (forall l, p l = true -> is_pointwise l = false) ->
  List.filter p ops = List.filter p (map fst (blocks ops)).
Proof.
  intros Hp. induction ops as [|l ops IH]; [done|].
  cbn [blocks List.filter]. rewrite map_app, List.filter_app, <- IH.
  destruct (p l) eqn:E.
  - rewrite (Hp l E). simpl. by rewrite E.
  - destruct (is_pointwise l); simpl; by rewrite ?E.
Qed.

Lemma filter_map_fst {A B} (p : A -> bool) (l : list (A * B)) :
  List.filter p (map fst l) = map fst (List.filter (fun b => p (fst b)) l).
Proof.
  induction l as [|b l IH]; [done|]. simpl.
  destruct (p (fst b)); simpl; by rewrite IH.
Qed.

(** C1, as stated, fails: with one level the condition is false at level 0,
    and no dropout layer follows either transition although [dropout_out]
    is a positive rate. *)
Lemma transition_dropout_level0_counterexample :
  positive_rate (dropout_out cfg_dropout_out) = true /\
  transition_dropout cfg_dropout_out 0 = false /\
  exists m, get_model cfg_dropout_out = Ok m /\
    map (fun b => existsb is_dropout (snd b)) (transitions (m_layers m))
    = [false; false].
Proof.
  split; [done|]. split; [done|].
  eexists. split; [vm_compute; reflexivity|]. vm_compute. reflexivity.
Qed.

(** C1 amended: for [nlevels >= 1] and [fi] in [0, nlevels-1] the condition
    [abs(fi - nlevels) < nlevels] is true exactly when [fi <> 0]; so in the
    model the nonlinearity after the down and the up transition of level [fi]
    contains a dropout layer exactly when [fi <> 0] and [dropout_out] is
    truthy (in particular a positive rate). *)
Theorem transition_dropout_levels cfg :
  1 <= nlevels cfg ->
  (forall fi, 0 <= fi <= nlevels cfg - 1 ->
     transition_dropout cfg fi = negb (fi =? 0)) /\
  (positive_rate (dropout_out cfg) = true -> truthy (dropout_out cfg) = true) /\
  exists m, get_model cfg = Ok m /\
    map (fun b => existsb is_dropout (snd b)) (transitions (m_layers m))
    = map (fun fi => negb (fi =? 0) && truthy (dropout_out cfg))
          (range (nlevels cfg) ++ rev (range (nlevels cfg))).
Proof.
  intros Hn. split; [intros fi; by apply transition_dropout_spec|].
  split; [apply positive_rate_truthy|].
  destruct (get_model_transitions cfg Hn) as (m & Hm & Ht).
  exists m. split; [done|]. rewrite Ht. unfold model_transitions.
  rewrite !map_app, !map_map. cbn [snd].
  f_equal; apply map_ext_in; intros fi Hfi; rewrite transition_ops_dropout;
    (rewrite transition_dropout_spec; [done|done|]).
  - apply list_elem_of_In, elem_of_range in Hfi. lia.
  - apply in_rev, list_elem_of_In, elem_of_range in Hfi. lia.
Qed.

Lemma transition_dropout_levels_witness :
  map (fun b => existsb is_dropout (snd b))
      (transitions (match get_model cfg_train with
                    | Ok m => m_layers m
                    | Raise _ => []
                    end))
  = [false; true; true; true; true; false].
Proof.
  destruct (transition_dropout_levels cfg_train) as (_ & _ & m & Hm & Ht);
    [done|].
  rewrite Hm, Ht. reflexivity.
Defined.

Lemma filter_filter_impl {A} (p q : A -> bool) l :
  (forall a, p a = true -> q a = true) ->
  List.filter p (List.filter q l) = List.filter p l.
Proof.
  intros Hpq. induction l as [|a l IH]; [done|]. simpl.
  destruct (q a) eqn:Eq; simpl; rewrite IH; [done|].
  destruct (p a) eqn:Ep; [|done]. apply Hpq in Ep. congruence.
Qed.

Lemma res_blocks_fst cfg channels :
  map fst (res_blocks cfg channels)
  = repeat (conv5 channels) (S (Z.to_nat (nconv cfg - 1))).
Proof.
  unfold res_blocks. cbn [map fst repeat]. f_equal.
  rewrite map_map. cbn [fst]. rewrite <- (length_range (nconv cfg - 1)).
  induction (range (nconv cfg - 1)) as [|ci l IH]; [done|].
  simpl. by rewrite IH.
Qed.

(** C2, as stated, fails: with [batch_norm=True] the nonlinearity after the
    down transition and after the up transition both normalize. *)
Lemma transition_batch_norm_counterexample :
  batch_norm cfg_batch_norm = true /\
  exists m, get_model cfg_batch_norm = Ok m /\
    transitions (m_layers m)
    = [ (Conv3D 32 (2, 2, 2) (2, 2, 2) Valid,
         [BatchNormalization false; PReLU]);
        (Conv3DTranspose 16 (2, 2, 2) (2, 2, 2),
         [BatchNormalization false; PReLU]) ].
Proof.
  split; [done|]. eexists. split; [vm_compute; reflexivity|].
  vm_compute. reflexivity.
Qed.

(** C2 amended: the transitions call [NonLinearity] without a [batch_norm]
    argument, whose default is the builder's [batch_norm] flag; so the
    nonlinearity after each of the [2 * nlevels] transitions contains a batch
    normalization exactly when [batch_norm] is set. *)
Theorem transition_batch_norm_follows_flag cfg :
  1 <= nlevels cfg ->
  (forall fi t g, exists h added,
     transition_nonlinearity cfg fi t g = Ok (h, g ++ added) /\
     existsb is_batch_norm (map op added) = batch_norm cfg) /\
  exists m, get_model cfg = Ok m /\
    length (transitions (m_layers m)) = (2 * Z.to_nat (nlevels cfg))%nat /\
    Forall (fun b => existsb is_batch_norm (snd b) = batch_norm cfg)
           (transitions (m_layers m)).
Proof.
  intros Hn. split.
  - intros fi t g.
    destruct (transition_nonlinearity_runs cfg fi t g)
      as (h & added & Hrun & Hops & _).
    exists h, added. split; [done|].
    rewrite Hops. apply transition_ops_batch_norm.
  - destruct (get_model_transitions cfg Hn) as (m & Hm & Ht).
    exists m. split; [done|]. rewrite Ht. unfold model_transitions. split.
    + rewrite length_app, !length_map, length_rev_range, length_range. lia.
    + apply Forall_app. split; apply Forall_forall; intros b Hb;
        apply (list_elem_of_fmap_1 _ _) in Hb as (fi & -> & _);
        apply transition_ops_batch_norm.
Qed.

Lemma transition_batch_norm_follows_flag_witness :
  Forall (fun b => existsb is_batch_norm (snd b) = true)
         (transitions (match get_model cfg_train with
                       | Ok m => m_layers m
                       | Raise _ => []
                       end)).
Proof.
  destruct (transition_batch_norm_follows_flag cfg_train)
    as (_ & m & Hm & _ & Hall); [done|].
  rewrite Hm. exact Hall.
Defined.

(** The transitions and the 5x5x5 convolutions of the model, by level. *)
Lemma model_transition_layers cfg :
  1 <= nlevels cfg ->
  exists m, get_model cfg = Ok m /\
    List.filter is_down (map op (m_layers m))
    = map (fun fi => Conv3D (nfm cfg * 2 ^ (fi + 1)) (2, 2, 2) (2, 2, 2) Valid)
          (range (nlevels cfg)) /\
    List.filter is_up (map op (m_layers m))
    = map (fun fi => Conv3DTranspose (nfm cfg * 2 ^ fi) (2, 2, 2) (2, 2, 2))
          (rev (range (nlevels cfg))) /\
    Z.of_nat (length (List.filter is_down (map op (m_layers m))))
    = nlevels cfg /\
    Z.of_nat (length (List.filter is_up (map op (m_layers m))))
    = nlevels cfg /\
    map fst (conv5_blocks (m_layers m))
    = flat_map (fun fi => repeat (conv5 (nfm cfg * 2 ^ fi))
                            (if fi =? 0 then 1
                             else S (Z.to_nat (nconv cfg - 1))))
               (range (nlevels cfg)) ++
      flat_map (fun fi => repeat (conv5 (nfm cfg * 2 ^ (fi + 1)))
                            (S (Z.to_nat (nconv cfg - 1))))
               (rev (range (nlevels cfg))) ++
      [conv5 (nfm cfg)].
Proof.
  intros Hn. destruct (get_model_blocks cfg Hn) as (m & Hm & Hb).
  exists m. split; [done|].
  assert (forall p : layer -> bool,
            (forall l, p l = true -> is_transition l = true) ->
            List.filter p (map op (m_layers m))
            = List.filter p (map fst (model_transitions cfg))) as Hfilter.
  { intros p Hp. rewrite filter_blocks.
    2:{ intros l Hl%Hp. by destruct l. }
    rewrite Hb, !filter_map_fst, <- transitions_model_blocks.
    by rewrite filter_filter_impl by (intros b; apply Hp). }
  assert (List.filter is_down (map op (m_layers m))
          = map (fun fi => down_conv cfg fi) (range (nlevels cfg))) as Hdown.
  { rewrite Hfilter by (by intros []). unfold model_transitions.
    rewrite map_app, !map_map, List.filter_app. cbn [fst].
    rewrite filter_all, filter_none, app_nil_r; [done| |];
      apply Forall_forall; intros l Hl;
      by apply (list_elem_of_fmap_1 _ _) in Hl as (fi & -> & _). }
  assert (List.filter is_up (map op (m_layers m))
          = map (fun fi => up_conv cfg fi) (rev (range (nlevels cfg)))) as Hup.
  { rewrite Hfilter by (by intros []). unfold model_transitions.
    rewrite map_app, !map_map, List.filter_app. cbn [fst].
    rewrite filter_none, filter_all; [done| |];
      apply Forall_forall; intros l Hl;
      by apply (list_elem_of_fmap_1 _ _) in Hl as (fi & -> & _). }
  rewrite Hdown, Hup, !length_map, length_rev_range, length_range.
  split; [done|]. split; [done|]. split; [lia|]. split; [lia|].
  unfold conv5_blocks. rewrite Hb, conv5_model_blocks. unfold model_conv5.
  rewrite !map_app, !flat_map_concat_map, !concat_map, !map_map.
  f_equal; [|f_equal].
  - f_equal. apply map_ext. intros fi. destruct (Z.eqb_spec fi 0) as [->|Hne].
    + cbn. by rewrite Z.mul_1_r.
    + apply res_blocks_fst.
  - f_equal. apply map_ext. intros fi. apply res_blocks_fst.
Qed.


(** ** Residual blocks *)

Lemma range_cons k :
  0 <= k -> range (1 + k) = 0 :: map (fun i => i + 1) (range k).
Proof.
  intros Hk. unfold range.
  replace (Z.to_nat (1 + k)) with (S (Z.to_nat k)) by lia.
  cbn [seq map]. f_equal. rewrite <- seq_shift, !map_map.
  apply map_ext. intros i. lia.
Qed.

Lemma range_max k : range (Z.max 0 k) = range k.
Proof. unfold range. f_equal. f_equal. lia. Qed.

Lemma res_blocks_rounds cfg channels :
  res_blocks cfg channels = block_rounds cfg channels.
Proof.
  unfold res_blocks, block_rounds.
  rewrite range_cons, range_max by lia. cbn [map]. f_equal.
  rewrite map_map. apply map_ext_in. intros ci Hci.
  apply list_elem_of_In, elem_of_range in Hci.
  unfold nl_ops, round_bn, conv5. do 3 f_equal.
  replace (1 <=? ci + 1) with true by (symmetry; apply Z.leb_le; lia).
  replace (ci + 1 =? nconv cfg - 1) with (ci =? nconv cfg - 2); [done|].
  destruct (Z.eqb_spec ci (nconv cfg - 2)),
    (Z.eqb_spec (ci + 1) (nconv cfg - 1)); (done || lia).
Qed.

Lemma residual_convs_blocks cfg channels t g :
  exists h added,
    residual_convs cfg channels t g = Ok (h, g ++ added) /\
    blocks (map op added) = block_rounds cfg channels.
Proof.
  destruct (residual_convs_runs cfg channels t g)
    as (h & added & Hrun & Hops & _).
  exists h, added. split; [done|].
  rewrite Hops, <- unblocks_res_blocks, <- res_blocks_rounds.
  apply blocks_unblocks, res_blocks_wf.
Qed.

(** C6: a full residual block is [1 + (nconv-1)] rounds of a 5x5x5
    convolution and a nonlinearity; the nonlinearity of round [i] has a
    batch normalization only when [i] is the last additional round
    ([i = nconv-1] and [i >= 1]) and [batch_norm] is set, so never on the
    first convolution; every round has the dropout layer of [dropout_in]
    when that is truthy.  In the model these are the 5x5x5 convolutions of
    the encoder levels [fi > 0] (on [nfm * 2^fi] feature maps) and of all
    decoder levels (on [nfm * 2^(fi+1)]); encoder level 0 and the head have
    a single 5x5x5 convolution each. *)
Theorem residual_block_rounds cfg :
  1 <= nlevels cfg ->
  (forall channels t g, exists h added,
     residual_convs cfg channels t g = Ok (h, g ++ added) /\
     blocks (map op added) = block_rounds cfg channels) /\
  exists m, get_model cfg = Ok m /\
    conv5_blocks (m_layers m)
    = flat_map (fun fi =>
                  if fi =? 0
                  then [(Conv3D (nfm cfg) (5, 5, 5) (1, 1, 1) Same,
                         [activation cfg])]
                  else block_rounds cfg (nfm cfg * 2 ^ fi))
               (range (nlevels cfg)) ++
      flat_map (fun fi => block_rounds cfg (nfm cfg * 2 ^ (fi + 1)))
               (rev (range (nlevels cfg))) ++
      [(Conv3D (nfm cfg) (5, 5, 5) (1, 1, 1) Same, [])].
Proof.
  intros Hn. split; [apply residual_convs_blocks|].
  destruct (get_model_conv5 cfg Hn) as (m & Hm & Hc).
  exists m. split; [done|]. rewrite Hc. unfold model_conv5.
  f_equal; [|f_equal]; apply flat_map_ext; intros fi.
  - destruct (fi =? 0); [done|apply res_blocks_rounds].
  - apply res_blocks_rounds.
Qed.

Lemma residual_block_rounds_witness :
  map (fun b => existsb is_batch_norm (snd b))
      (conv5_blocks (match get_model cfg_train with
                     | Ok m => m_layers m
                     | Raise _ => []
                     end))
  = [ false;
      false; false; true;  false; false; true;
      false; false; true;  false; false; true;  false; false; true;
      false ].
Proof.
  destruct (residual_block_rounds cfg_train) as (_ & m & Hm & Hc); [done|].
  rewrite Hm, Hc. vm_compute. reflexivity.
Defined.

(** C10: with [nconv = 1] a full residual block is one 5x5x5 convolution
    and its nonlinearity, without batch normalization whatever
    [batch_norm] is.  In the model every encoder level [fi > 0] and every
    decoder level has, between its input (the concatenation, where there is
    one) and its residual sum, exactly one 5x5x5 convolution, the
    activation and the dropout of [dropout_in]; so no 5x5x5 convolution is
    followed by a batch normalization. *)
Theorem single_conv_residual_block cfg :
  nconv cfg = 1 ->
  1 <= nlevels cfg ->
  let drop := if truthy (dropout_in cfg) then [Dropout (dropout_in cfg)]
              else [] in
  (forall channels t g, exists h added,
     residual_convs cfg channels t g = Ok (h, g ++ added) /\
     map op added
     = Conv3D channels (5, 5, 5) (1, 1, 1) Same :: activation cfg :: drop /\
     length (List.filter is_conv (map op added)) = 1%nat /\
     existsb is_batch_norm (map op added) = false) /\
  exists m, get_model cfg = Ok m /\
    map op (m_layers m)
    = Input (input_shape cfg) ::
      flat_map (fun fi =>
                  (if fi =? 0
                   then [Conv3D (nfm cfg) (5, 5, 5) (1, 1, 1) Same;
                         activation cfg]
                   else Conv3D (nfm cfg * 2 ^ fi) (5, 5, 5) (1, 1, 1) Same ::
                        activation cfg :: drop) ++
                  [Add; down_conv cfg fi] ++ transition_ops cfg fi)
               (range (nlevels cfg)) ++
      flat_map (fun fi =>
                  (if fi =? nlevels cfg - 1 then [] else [Concatenate (-1)]) ++
                  (Conv3D (nfm cfg * 2 ^ (fi + 1)) (5, 5, 5) (1, 1, 1) Same ::
                   activation cfg :: drop) ++
                  [Add; up_conv cfg fi] ++ transition_ops cfg fi)
               (rev (range (nlevels cfg))) ++
      head_ops cfg /\
    conv5_blocks (m_layers m)
    = flat_map (fun fi =>
                  if fi =? 0
                  then [(Conv3D (nfm cfg) (5, 5, 5) (1, 1, 1) Same,
                         [activation cfg])]
                  else [(Conv3D (nfm cfg * 2 ^ fi) (5, 5, 5) (1, 1, 1) Same,
                         activation cfg :: drop)])
               (range (nlevels cfg)) ++
      flat_map (fun fi =>
                  [(Conv3D (nfm cfg * 2 ^ (fi + 1)) (5, 5, 5) (1, 1, 1) Same,
                    activation cfg :: drop)])
               (rev (range (nlevels cfg))) ++
      [(Conv3D (nfm cfg) (5, 5, 5) (1, 1, 1) Same, [])] /\
    Forall (fun b => existsb is_batch_norm (snd b) = false)
           (conv5_blocks (m_layers m)).
Proof.
  intros Hc Hn drop.
  assert (forall d, nl_ops cfg d false
                    = activation cfg ::
                      (if truthy d then [Dropout d] else [])) as Hnl.
  { intros d. unfold nl_ops. done. }
  assert (forall channels,
            residual_ops cfg channels
            = Conv3D channels (5, 5, 5) (1, 1, 1) Same :: activation cfg ::
              drop) as Hres.
  { intros channels. unfold residual_ops, round_ops. rewrite Hc.
    change (range (1 - 1)) with (@nil Z). cbn [flat_map].
    by rewrite app_nil_r, Hnl. }
  assert (forall channels,
            res_blocks cfg channels
            = [(Conv3D channels (5, 5, 5) (1, 1, 1) Same,
                activation cfg :: drop)]) as Hrb.
  { intros channels. unfold res_blocks. rewrite Hc.
    change (range (1 - 1)) with (@nil Z). cbn [map]. by rewrite Hnl. }
  split.
  - intros channels t g.
    destruct (residual_convs_runs cfg channels t g)
      as (h & added & Hrun & Hops & _).
    exists h, added. split; [done|]. rewrite Hops, Hres.
    split; [done|]. cbn [List.filter existsb is_conv is_batch_norm].
    rewrite activation_not_batch_norm.
    unfold drop, activation.
    by destruct (lrelu_alpha cfg), (truthy (dropout_in cfg)).
  - destruct (get_model_conv5 cfg Hn) as (m & Hm & Hb).
    destruct (get_model_ops cfg Hn) as (m' & Hm' & Hops).
    rewrite Hm in Hm'. injection Hm' as <-.
    exists m. split; [done|].
    assert (conv5_blocks (m_layers m)
            = flat_map (fun fi =>
                  if fi =? 0
                  then [(Conv3D (nfm cfg) (5, 5, 5) (1, 1, 1) Same,
                         [activation cfg])]
                  else [(Conv3D (nfm cfg * 2 ^ fi) (5, 5, 5) (1, 1, 1) Same,
                         activation cfg :: drop)])
               (range (nlevels cfg)) ++
              flat_map (fun fi =>
                  [(Conv3D (nfm cfg * 2 ^ (fi + 1)) (5, 5, 5) (1, 1, 1) Same,
                    activation cfg :: drop)])
               (rev (range (nlevels cfg))) ++
              [(Conv3D (nfm cfg) (5, 5, 5) (1, 1, 1) Same, [])]) as Hblocks.
    { rewrite Hb. unfold model_conv5. f_equal; [|f_equal].
      - apply flat_map_ext. intros fi.
        destruct (fi =? 0); [by rewrite Hnl|apply Hrb].
      - apply flat_map_ext. intros fi. apply Hrb. }
    split; [|split; [exact Hblocks|]].
    + rewrite Hops. unfold model_ops. f_equal. f_equal; [|f_equal].
      * apply flat_map_ext. intros fi. unfold enc_ops, enc_res_ops.
        f_equal. destruct (fi =? 0); [by rewrite Hnl|apply Hres].
      * apply flat_map_ext. intros fi. unfold dec_ops.
        by rewrite Hres.
    + rewrite Hblocks.
      assert (existsb is_batch_norm (activation cfg :: drop) = false) as Hno.
      { cbn [existsb]. rewrite activation_not_batch_norm.
        unfold drop. by destruct (truthy (dropout_in cfg)). }
      rewrite !Forall_app. split; [|split].
      * apply Forall_flat_map_intro. intros fi.
        destruct (fi =? 0); constructor; try done.
        cbn [snd existsb]. by rewrite activation_not_batch_norm.
      * apply Forall_flat_map_intro. intros fi. by constructor.
      * by constructor.
Qed.

Lemma single_conv_residual_block_witness :
  batch_norm cfg_single_conv = true /\
  conv5_blocks (match get_model cfg_single_conv with
                | Ok m => m_layers m
                | Raise _ => []
                end)
  = [ (Conv3D 16 (5, 5, 5) (1, 1, 1) Same, [PReLU]);
      (Conv3D 32 (5, 5, 5) (1, 1, 1) Same,
       [PReLU; Dropout (PyFloat cfg_half)]);
      (Conv3D 64 (5, 5, 5) (1, 1, 1) Same,
       [PReLU; Dropout (PyFloat cfg_half)]);
      (Conv3D 128 (5, 5, 5) (1, 1, 1) Same,
       [PReLU; Dropout (PyFloat cfg_half)]);
      (Conv3D 64 (5, 5, 5) (1, 1, 1) Same,
       [PReLU; Dropout (PyFloat cfg_half)]);
      (Conv3D 32 (5, 5, 5) (1, 1, 1) Same,
       [PReLU; Dropout (PyFloat cfg_half)]);
      (Conv3D 16 (5, 5, 5) (1, 1, 1) Same, []) ] /\
  Forall (fun b => existsb is_batch_norm (snd b) = false)
         (conv5_blocks (match get_model cfg_single_conv with
                        | Ok m => m_layers m
                        | Raise _ => []
                        end)).
Proof.
  split; [reflexivity|].
  pose proof (single_conv_residual_block cfg_single_conv eq_refl
                ltac:(unfold cfg_single_conv; simpl; lia))
    as (_ & m & Hm & _ & Hblocks & Hall).
  rewrite Hm. split; [|exact Hall].
  rewrite Hblocks. vm_compute. reflexivity.
Defined.

(** ** Invalid configurations *)

Lemma get_model_no_levels cfg :
  nlevels cfg <= 0 -> get_model cfg = Raise IndexError.
Proof.
  intros Hn. unfold get_model, build, encoder, decoder.
  rewrite (range_nonpos (nlevels cfg)) by done. reflexivity.
Qed.

Lemma get_model_nconv cfg :
  nconv cfg <= 1 -> get_model cfg = get_model (with_nconv cfg 1).
Proof.
  intros Hc. destruct cfg as [nl nf shape nc din dout alpha bn].
  unfold with_nconv, get_model, build, encoder, decoder, encoder_level,
    decoder_level, residual_convs.
  cbn [nconv nlevels nfm input_shape dropout_in dropout_out lrelu_alpha
       batch_norm] in *.
  rewrite (range_nonpos (nc - 1)) by lia. reflexivity.
Qed.

Lemma get_model_returns cfg :
  1 <= nlevels cfg -> exists m, get_model cfg = Ok m.
Proof.
  intros Hn. destruct (get_model_ops cfg Hn) as (m & Hm & _). eauto.
Qed.

(** ** The builder under the checks of Keras *)

Lemma follows_refl {A} (m : M A) : follows m m.
Proof. intros g. by left. Qed.

Lemma follows_call l ins : follows (Keras.call l ins) (call l ins).
Proof.
  intros g. unfold Keras.call.
  destruct (_ ≫= _); [by left|by right].
Qed.

Lemma follows_bind {A B} (km m : M A) (kk k : A -> M B) :
  follows km m -> (forall a, follows (kk a) (k a)) ->
  follows (km ≫= kk) (m ≫= k).
Proof.
  intros Hm Hk g. unfold mbind, M_bind, bind.
  destruct (Hm g) as [-> | ->]; [|by right].
  destruct (m g) as [[a g1]|e]; [apply Hk|by left].
Qed.

Ltac follows_step :=
  lazymatch goal with
  | |- follows (ret _) (ret _) => apply follows_refl
  | |- follows (read_local _) (read_local _) => apply follows_refl
  | |- follows (py_index _ _) (py_index _ _) => apply follows_refl
  | |- follows (Keras.call _ _) (call _ _) => apply follows_call
  | |- follows (_ ≫= _) (_ ≫= _) => apply follows_bind; [|intros ?]
  | |- follows (if ?b then _ else _) (if ?b then _ else _) => destruct b
  | |- follows (match ?o with _ => _ end) (match ?o with _ => _ end) =>
      destruct o
  end.

Lemma follows_NonLinearity cfg t d b :
  follows (Keras.NonLinearity cfg t d b) (NonLinearity cfg t d b).
Proof. unfold Keras.NonLinearity, NonLinearity. repeat follows_step. Qed.

Lemma follows_extra_convs cfg channels cis r :
  follows (Keras.extra_convs cfg channels cis r)
          (extra_convs cfg channels cis r).
Proof.
  revert r. induction cis as [|ci cis IH]; intros r;
    cbn [Keras.extra_convs extra_convs].
  - apply follows_refl.
  - apply follows_bind; [apply follows_call|intros c].
    apply follows_bind; [apply follows_NonLinearity|intros c']. apply IH.
Qed.

Lemma follows_residual_convs cfg channels t :
  follows (Keras.residual_convs cfg channels t)
          (residual_convs cfg channels t).
Proof.
  unfold Keras.residual_convs, residual_convs.
  apply follows_bind; [apply follows_call|intros c].
  apply follows_bind; [apply follows_NonLinearity|intros c'].
  apply follows_extra_convs.
Qed.

Lemma follows_transition_nonlinearity cfg fi t :
  follows (Keras.transition_nonlinearity cfg fi t)
          (transition_nonlinearity cfg fi t).
Proof.
  unfold Keras.transition_nonlinearity, transition_nonlinearity.
  destruct (transition_dropout cfg fi); apply follows_NonLinearity.
Qed.

Ltac follows_level :=
  lazymatch goal with
  | |- follows (Keras.NonLinearity _ _ _ _) _ => apply follows_NonLinearity
  | |- follows (Keras.residual_convs _ _ _) _ =>
      apply follows_residual_convs
  | |- follows (Keras.transition_nonlinearity _ _ _) _ =>
      apply follows_transition_nonlinearity
  | |- _ => follows_step
  end.

Lemma follows_encoder_level cfg input fi v :
  follows (Keras.encoder_level cfg input fi v) (encoder_level cfg input fi v).
Proof.
  unfold Keras.encoder_level, encoder_level. repeat follows_level.
Qed.

Lemma follows_decoder_level cfg fi v :
  follows (Keras.decoder_level cfg fi v) (decoder_level cfg fi v).
Proof.
  unfold Keras.decoder_level, decoder_level. repeat follows_level.
Qed.

Lemma follows_for_each kbody body fis v :
  (forall fi v, follows (kbody fi v) (body fi v)) ->
  follows (for_each kbody fis v) (for_each body fis v).
Proof.
  intros Hb. revert v. induction fis as [|fi fis IH]; intros v.
  - apply follows_refl.
  - cbn [for_each]. apply follows_bind; [apply Hb|apply IH].
Qed.

Lemma follows_head cfg v : follows (Keras.head cfg v) (head cfg v).
Proof. unfold Keras.head, head. repeat follows_level. Qed.

Lemma follows_build cfg : follows (Keras.build cfg) (build cfg).
Proof.
  unfold Keras.build, build.
  apply follows_bind; [apply follows_call|intros i].
  apply follows_bind.
  { apply follows_for_each. intros. apply follows_encoder_level. }
  intros v. apply follows_bind.
  { apply follows_for_each. intros. apply follows_decoder_level. }
  intros v'. apply follows_bind; [apply follows_head|].
  intros out. apply follows_refl.
Qed.

(** The call under the checks of Keras ends as the code does when every
    layer call returns, or with the [ValueError] of a rejected call. *)
Lemma keras_get_model_follows cfg :
  Keras.get_model cfg = get_model cfg \/
  Keras.get_model cfg = Raise ValueError.
Proof.
  unfold Keras.get_model, get_model.
  destruct (follows_build cfg []) as [-> | ->]; [by left|by right].
Qed.

(** A model that Keras accepts is the model of the layer calls that the
    code issues. *)
Lemma keras_get_model_sound cfg m :
  Keras.get_model cfg = Ok m -> get_model cfg = Ok m.
Proof.
  intros Hm. destruct (keras_get_model_follows cfg) as [H|H];
    rewrite H in Hm; [done|discriminate].
Qed.

Lemma keras_input_run shape :
  Keras.call (Input shape) [] [] = Ok (0%nat, [Node (Input shape) []]).
Proof. done. Qed.

Lemma keras_get_model_no_levels cfg :
  nlevels cfg <= 0 -> Keras.get_model cfg = Raise IndexError.
Proof.
  intros Hn. unfold Keras.get_model, Keras.build.
  erewrite bind_run by apply keras_input_run.
  unfold Keras.encoder, Keras.decoder. rewrite range_nonpos by done.
  done.
Qed.

(** With [nfm <= 0] the first convolution, at line 94, is rejected. *)
Lemma keras_get_model_no_filters cfg :
  1 <= nlevels cfg -> nfm cfg <= 0 -> Keras.get_model cfg = Raise ValueError.
Proof.
  intros Hn Hf. unfold Keras.get_model, Keras.build.
  erewrite bind_run by apply keras_input_run.
  unfold Keras.encoder.
  replace (nlevels cfg) with (1 + (nlevels cfg - 1)) by lia.
  rewrite range_cons by lia. cbn [for_each].
  assert (forall v,
            Keras.encoder_level cfg 0%nat 0 v
              [Node (Input (input_shape cfg)) []] = Raise ValueError) as Hlevel.
  { intros v. unfold Keras.encoder_level, mbind, M_bind, bind.
    change (0 =? 0) with true. cbv iota.
    unfold Keras.call at 1.
    cbn [mapM Keras.tensor_shape Keras.shapes fold_left Keras.shapes_step
         Keras.known_shape lookup list_lookup app inputs op Keras.layer_shape
         mbind mret option_bind option_ret].
    destruct (Z.ltb_spec 0 (nfm cfg)); [lia|]. done. }
  unfold mbind at 1, M_bind at 1, bind at 1.
  unfold mbind at 1, M_bind at 1, bind at 1.
  by rewrite Hlevel.
Qed.

Lemma keras_get_model_nconv cfg :
  nconv cfg <= 1 -> Keras.get_model cfg = Keras.get_model (with_nconv cfg 1).
Proof.
  intros Hc. destruct cfg as [nl nf shape nc din dout alpha bn].
  unfold with_nconv, Keras.get_model, Keras.build, Keras.encoder,
    Keras.decoder, Keras.encoder_level, Keras.decoder_level,
    Keras.residual_convs.
  cbn [nconv nlevels nfm input_shape dropout_in dropout_out lrelu_alpha
       batch_norm] in *.
  rewrite (range_nonpos (nc - 1)) by lia. reflexivity.
Qed.

(** C9, as stated, fails: [get_model(1, nconv=0)], with the default
    [nfm = 16] on the default input, raises nothing.  Keras accepts every
    layer call, and the builder returns the model of [nconv = 1]. *)
Lemma nonpositive_nconv_counterexample :
  nconv cfg_nconv0 <= 0 /\
  exists m, Keras.get_model cfg_nconv0 = Ok m /\
            Keras.get_model (with_nconv cfg_nconv0 1) = Ok m /\
            get_model cfg_nconv0 = Ok m /\
            get_model (with_nconv cfg_nconv0 1) = Ok m /\
            length (m_layers m) = 19%nat.
Proof.
  split; [done|]. eexists.
  split; [vm_compute; reflexivity|]. repeat split; vm_compute; reflexivity.
Qed.

(** C9 amended: a non-positive [nlevels] makes the construction fail, with
    the [IndexError] of [forward_list[0]]; with at least one level a
    non-positive [nfm] makes it fail with the [ValueError] of the first
    convolution, which Keras rejects.  A non-positive [nconv] is no failure
    by itself: the loop over the additional convolutions is empty, the
    builder issues the layer calls of [nconv = 1] and the call ends as the
    call with [nconv = 1] does. *)
Theorem invalid_configuration cfg :
  (nlevels cfg <= 0 -> Keras.get_model cfg = Raise IndexError) /\
  (1 <= nlevels cfg -> nfm cfg <= 0 ->
   Keras.get_model cfg = Raise ValueError) /\
  (nlevels cfg <= 0 \/ nfm cfg <= 0 ->
   forall m, Keras.get_model cfg <> Ok m) /\
  (nconv cfg <= 0 ->
   Keras.get_model cfg = Keras.get_model (with_nconv cfg 1)) /\
  (nlevels cfg <= 0 -> get_model cfg = Raise IndexError) /\
  (nconv cfg <= 0 -> get_model cfg = get_model (with_nconv cfg 1)).
Proof.
  split; [apply keras_get_model_no_levels|].
  split; [apply keras_get_model_no_filters|].
  split.
  { intros H m.
    destruct (Z.le_gt_cases (nlevels cfg) 0) as [Hn|Hn].
    - by rewrite keras_get_model_no_levels.
    - destruct H as [H|H]; [lia|].
      by rewrite keras_get_model_no_filters by lia. }
  split; [intros Hc; apply keras_get_model_nconv; lia|].
  split; [apply get_model_no_levels|].
  intros Hc. apply get_model_nconv. lia.
Qed.

Lemma invalid_configuration_witness :
  Keras.get_model (Config 0 16 [64; 64; 64; 1] 2 PyFalse PyFalse None false)
  = Raise IndexError /\
  Keras.get_model (Config 1 0 [64; 64; 64; 1] 2 PyFalse PyFalse None false)
  = Raise ValueError /\
  Keras.get_model (Config 2 (-16) [64; 64; 64; 1] 2 PyFalse PyFalse None false)
  = Raise ValueError /\
  Keras.get_model cfg_nconv0 = Keras.get_model (with_nconv cfg_nconv0 1) /\
  get_model (Config (-2) 16 [64; 64; 64; 1] 2 PyFalse PyFalse None false)
  = Raise IndexError /\
  get_model cfg_nconv0 = get_model (with_nconv cfg_nconv0 1).
Proof.
  destruct (invalid_configuration
              (Config 0 16 [64; 64; 64; 1] 2 PyFalse PyFalse None false))
    as (H0 & _).
  destruct (invalid_configuration
              (Config 1 0 [64; 64; 64; 1] 2 PyFalse PyFalse None false))
    as (_ & H1 & _).
  destruct (invalid_configuration
              (Config 2 (-16) [64; 64; 64; 1] 2 PyFalse PyFalse None false))
    as (_ & H2 & _).
  destruct (invalid_configuration
              (Config (-2) 16 [64; 64; 64; 1] 2 PyFalse PyFalse None false))
    as (_ & _ & _ & _ & H3 & _).
  destruct (invalid_configuration cfg_nconv0)
    as (_ & _ & _ & Hksame & _ & Hsame).
  split; [apply H0; simpl; lia|].
  split; [apply H1; simpl; lia|].
  split; [apply H2; simpl; lia|].
  split; [apply Hksame; unfold cfg_nconv0; simpl; lia|].
  split; [apply H3; simpl; lia|].
  apply Hsame; unfold cfg_nconv0; simpl; lia.
Defined.

(** ** What a computation returns *)

Lemma returns_ret {A} (a : A) (Q : A -> Prop) : Q a -> returns (ret a) Q.
Proof. by intros HQ g a' g' [= <- _]. Qed.

Lemma returns_bind {A B} (m : M A) (k : A -> M B) (Q : B -> Prop) :
  (forall a, returns (k a) Q) -> returns (m ≫= k) Q.
Proof.
  intros Hk g b g'. unfold mbind, M_bind, bind.
  destruct (m g) as [[a g1]|]; [|done]. apply Hk.
Qed.

(** The decoder never changes the forwarded features. *)
Lemma decoder_level_forward cfg fi v :
  returns (decoder_level cfg fi v)
          (fun v' => forward_list v' = forward_list v).
Proof.
  unfold decoder_level. repeat (apply returns_bind; intros ?).
  by apply returns_ret.
Qed.

Lemma for_each_decoder_forward cfg fis v :
  returns (for_each (decoder_level cfg) fis v)
          (fun v' => forward_list v' = forward_list v).
Proof.
  revert v. induction fis as [|fi fis IH]; intros v; cbn [for_each].
  - by apply returns_ret.
  - intros g v2 g2. unfold mbind, M_bind, bind.
    destruct (decoder_level cfg fi v g) as [[v1 g1]|] eqn:E; [|done].
    intros Hrest. apply IH in Hrest. apply decoder_level_forward in E.
    congruence.
Qed.

(** ** A decoder level inside the model *)

Lemma encoder_forward_list cfg :
  1 <= nlevels cfg ->
  exists v0 g0,
    (input_state ← call (Input (input_shape cfg)) [];
     encoder cfg input_state) [] = Ok (v0, g0) /\
    enc_built cfg (range (nlevels cfg)) g0 (forward_list v0) /\
    x v0 = Some (length g0 - 1)%nat.
Proof.
  intros Hn. destruct (encoder_run cfg) as (v0 & g0 & Hrun & Hb & Hx); [lia|].
  exists v0, g0. split; [done|]. split; [done|].
  rewrite Hx. by destruct (Z.eqb_spec (nlevels cfg) 0); [lia|].
Qed.

Lemma decoder_entry_unfold cfg fi v0 g0 :
  (input_state ← call (Input (input_shape cfg)) [];
   encoder cfg input_state) [] = Ok (v0, g0) ->
  decoder_entry cfg fi [] =
  for_each (decoder_level cfg)
    (take (Z.to_nat (nlevels cfg - 1 - fi)) (rev (range (nlevels cfg)))) v0 g0.
Proof.
  intros Hrun. unfold decoder_entry.
  unfold mbind, M_bind, bind in *. rewrite call_run in *.
  destruct (encoder cfg _ _) as [[v1 g1]|]; [|done].
  by injection Hrun as -> ->.
Qed.

(** Decoder level [fi] runs from the state [decoder_entry cfg fi] and leads
    to the state [decoder_entry cfg (fi - 1)]. *)
Lemma decoder_entry_step cfg fi v g :
  1 <= nlevels cfg -> 0 <= fi < nlevels cfg ->
  decoder_entry cfg fi [] = Ok (v, g) ->
  decoder_entry cfg (fi - 1) [] = decoder_level cfg fi v g.
Proof.
  intros Hn Hfi Hrun.
  destruct (encoder_forward_list cfg Hn) as (v0 & g0 & Henc & _ & _).
  rewrite (decoder_entry_unfold _ _ _ _ Henc) in Hrun.
  rewrite (decoder_entry_unfold _ _ _ _ Henc).
  replace (Z.to_nat (nlevels cfg - 1 - (fi - 1)))
    with (S (Z.to_nat (nlevels cfg - 1 - fi))) by lia.
  rewrite (take_S_r _ _ _ (lookup_rev_range_level _ _ Hfi)), for_each_app.
  erewrite bind_run by exact Hrun. cbn [for_each].
  unfold mbind, M_bind, bind, ret.
  by destruct (decoder_level cfg fi v g) as [[v' g']|].
Qed.

(** The graph and the forwarded features only grow towards the head. *)
Lemma decoder_entry_mono cfg (k : nat) fi v g v' g' :
  1 <= nlevels cfg -> -1 <= fi - Z.of_nat k -> fi < nlevels cfg ->
  decoder_entry cfg fi [] = Ok (v, g) ->
  decoder_entry cfg (fi - Z.of_nat k) [] = Ok (v', g') ->
  g `prefix_of` g'.
Proof.
  intros Hn. revert v' g'.
  induction k as [|k IH]; intros v' g' Hlo Hhi Hrun Hrun'.
  - rewrite Z.sub_0_r in Hrun'. rewrite Hrun in Hrun'.
    by injection Hrun' as _ <-.
  - destruct (decoder_entry_run cfg (fi - Z.of_nat k)) as (v1 & g1 & Hrun1 & _);
      [done|lia|].
    replace (fi - Z.of_nat (S k)) with (fi - Z.of_nat k - 1) in Hrun' by lia.
    assert (0 <= fi - Z.of_nat k < nlevels cfg) as Hk by lia.
    rewrite (decoder_entry_step _ _ _ _ Hn Hk Hrun1) in Hrun'.
    etrans; [by apply (IH v1 g1); [lia|done..]|].
    by eapply grows_decoder_level.
Qed.

Lemma decoder_level_in_model cfg fi :
  1 <= nlevels cfg -> 0 <= fi < nlevels cfg ->
  exists v g0 seg b g,
    decoder_entry cfg fi [] = Ok (v, g0) /\
    x v = Some (length g0 - 1)%nat /\
    (1 <= length g0)%nat /\
    Z.of_nat (length (forward_list v)) = nlevels cfg /\
    decoder_entry cfg (fi - 1) [] =
      Ok (Locals (Some (length g0 + length seg - 1)%nat) (forward_list v),
          g0 ++ seg) /\
    dec_segment cfg fi (length g0 - 1)%nat (forward_list v) (length g0) seg /\
    build cfg [] = Ok (b, g) /\
    b_forward b = forward_list v /\
    (g0 ++ seg) `prefix_of` g.
Proof.
  intros Hn Hfi.
  destruct (decoder_entry_run cfg fi) as (v & g0 & Hrun & Hbuilt & Hx & Hlen);
    [done|lia|].
  destruct (decoder_level_runs cfg fi v (length g0 - 1)%nat g0)
    as (v' & seg & Hlevel & Hseg & ->); [lia|done| |].
  { intros Hne. apply lookup_lt_is_Some. lia. }
  destruct (build_run cfg Hn) as (g1 & fl & f & Hlast & _ & _ & _ & Hbuild).
  pose proof (decoder_entry_step _ _ _ _ Hn Hfi Hrun) as Hstep.
  rewrite Hlevel in Hstep.
  assert (fl = forward_list v) as ->.
  { destruct (encoder_forward_list cfg Hn) as (v0 & ge & Henc & _ & _).
    rewrite (decoder_entry_unfold _ _ _ _ Henc) in Hrun.
    rewrite (decoder_entry_unfold _ _ _ _ Henc) in Hlast.
    apply for_each_decoder_forward in Hrun, Hlast.
    cbn [forward_list] in Hlast. congruence. }
  eexists v, g0, seg, _, _.
  split; [done|]. split; [done|]. split; [|split; [lia|]].
  { assert (exists done, dec_built cfg (forward_list v) done g0) as [d Hd]
      by eauto.
    clear -Hd. induction Hd as [g Henc|]; [|rewrite length_app; lia].
    by apply enc_built_length in Henc as [? _]. }
  split; [done|]. split; [done|]. split; [exact Hbuild|]. split; [done|].
  etrans; [|by apply prefix_app_r].
  eapply (decoder_entry_mono cfg (Z.to_nat fi) (fi - 1));
    [done|lia|lia|exact Hstep|].
  replace (fi - 1 - Z.of_nat (Z.to_nat fi)) with (-1) by lia. exact Hlast.
Qed.

Lemma enc_built_input cfg done g fl :
  enc_built cfg done g fl ->
  g !! 0%nat = Some (Node (Input (input_shape cfg)) []).
Proof.
  induction 1 as [|done fi g fl hadd seg _ IH _]; [done|].
  by apply lookup_app_l_Some.
Qed.

Lemma dec_built_input cfg fl done g :
  dec_built cfg fl done g ->
  g !! 0%nat = Some (Node (Input (input_shape cfg)) []).
Proof.
  induction 1 as [g Henc|done fi g seg _ IH _].
  - by eapply enc_built_input.
  - by apply lookup_app_l_Some.
Qed.

(** ** Skip connections and the head *)

(** C4: let [g0] be the graph and [hx] the current tensor [x] when decoder
    level [fi] starts.  The level appends, in this order: for
    [fi <> nlevels-1] one concatenation of [forward_list[fi+1]] with [hx]
    along the last axis, and nothing for [fi = nlevels-1]; the chain of the
    residual convolutions on [nfm * 2^(fi+1)] feature maps, reading the
    concatenation (or [hx] itself at the deepest level); the sum of the
    chain's output with [hx], the tensor from before the concatenation;
    the up convolution of that sum.  These nodes are in the model. *)
Theorem decoder_skip_connection cfg fi :
  1 <= nlevels cfg -> 0 <= fi < nlevels cfg ->
  exists v g0 hx m cat res rest hadd,
    decoder_entry cfg fi [] = Ok (v, g0) /\
    x v = Some hx /\
    get_model cfg = Ok m /\
    m_layers m =
      g0 ++ cat ++ res ++
      [Node Add [(hadd - 1)%nat; hx]; Node (up_conv cfg fi) [hadd]] ++ rest /\
    hadd = (length g0 + length cat + length res)%nat /\
    (if fi =? nlevels cfg - 1
     then cat = [] /\ chain hx (length g0) res
     else exists f,
            forward_list v !! Z.to_nat (fi + 1) = Some f /\
            cat = [Node (Concatenate (-1)) [f; hx]] /\
            chain (length g0) (S (length g0)) res) /\
    map op res = residual_ops cfg (nfm cfg * 2 ^ (fi + 1)) /\
    (exists c res', res = Node (conv5 (nfm cfg * 2 ^ (fi + 1))) c :: res') /\
    (length res <= hadd - 1)%nat.
Proof.
  intros Hn Hfi.
  destruct (decoder_level_in_model cfg fi Hn Hfi)
    as (v & g0 & seg & b & g & Hrun & Hx & Hg0 & _ & _ & Hseg & Hbuild & _
        & Hpre).
  destruct Hseg as (cat & res & nl & hadd & -> & -> & Hcat & Hops & _ & _).
  destruct Hpre as [rest' Hg].
  exists v, g0, (length g0 - 1)%nat, (Model (b_input b) (b_output b) g),
    cat, res, (nl ++ rest'), (length g0 + length cat + length res)%nat.
  split; [done|]. split; [done|]. split; [by apply get_model_build|].
  split; [cbn [m_layers]; rewrite Hg; by rewrite <- !app_assoc|].
  split; [done|]. split; [done|]. split; [done|]. split; [|lia].
  destruct res as [|[l c] res']; [done|].
  injection Hops as -> _. by exists c, res'.
Qed.

Lemma decoder_skip_connection_witness :
  exists m, get_model cfg_train = Ok m /\
    m_layers m !! 52%nat = Some (Node (Concatenate (-1)) [32%nat; 51%nat]) /\
    m_layers m !! 53%nat = Some (Node (conv5 64) [52%nat]) /\
    m_layers m !! 63%nat = Some (Node Add [62%nat; 51%nat]).
Proof.
  destruct (decoder_skip_connection cfg_train 1)
    as (v & g0 & hx & m & cat & res & rest & hadd & Hrun & Hx & Hm & Hl & _);
    [unfold cfg_train; simpl; lia..|].
  exists m. split; [exact Hm|].
  assert (get_model cfg_train = Ok m) as Hm' by exact Hm.
  vm_compute in Hm'. injection Hm' as <-.
  repeat split; reflexivity.
Defined.

(** C7: after the decoder, with [g0] the graph, [hx] the decoder output and
    [f] the forwarded features of level 0, the builder appends exactly: the
    concatenation of [f] and [hx]; a 5x5x5 and a 1x1x1 convolution to [nfm]
    feature maps, both reading the concatenation; their sum; the
    activation; a 1x1x1 convolution to 2 feature maps; the activation; the
    softmax, which is the output of the model. *)
Theorem head_structure cfg :
  1 <= nlevels cfg ->
  exists v g0 hx f m,
    decoder_entry cfg (-1) [] = Ok (v, g0) /\
    x v = Some hx /\
    forward_list v !! 0%nat = Some f /\
    get_model cfg = Ok m /\
    m_inputs m = 0%nat /\
    m_layers m !! 0%nat = Some (Node (Input (input_shape cfg)) []) /\
    let n := length g0 in
    m_layers m =
      g0 ++
      [ Node (Concatenate (-1)) [f; hx];
        Node (Conv3D (nfm cfg) (5, 5, 5) (1, 1, 1) Same) [n];
        Node (Conv3D (nfm cfg) (1, 1, 1) (1, 1, 1) Same) [n];
        Node Add [(n + 1)%nat; (n + 2)%nat];
        Node (activation cfg) [(n + 3)%nat];
        Node (Conv3D 2 (1, 1, 1) (1, 1, 1) Valid) [(n + 4)%nat];
        Node (activation cfg) [(n + 5)%nat];
        Node (Activation "softmax") [(n + 6)%nat] ] /\
    m_outputs m = (n + 7)%nat.
Proof.
  intros Hn.
  destruct (build_run cfg Hn) as (g0 & fl & f & Hrun & Hb & _ & Hf & Hbuild).
  eexists _, g0, _, f, _.
  split; [exact Hrun|]. split; [done|]. split; [done|].
  split; [by apply get_model_build|]. split; [done|]. split; [|done].
  apply lookup_app_l_Some. by eapply dec_built_input.
Qed.

Lemma head_structure_witness :
  exists m, get_model cfg_train = Ok m /\
    m_outputs m = 90%nat /\
    m_layers m !! 90%nat = Some (Node (Activation "softmax") [89%nat]) /\
    m_layers m !! 83%nat = Some (Node (Concatenate (-1)) [3%nat; 82%nat]).
Proof.
  destruct (head_structure cfg_train)
    as (v & g0 & hx & f & m & _ & _ & _ & Hm & _); [done|].
  exists m. split; [exact Hm|].
  assert (get_model cfg_train = Ok m) as Hm' by exact Hm.
  vm_compute in Hm'. injection Hm' as <-.
  repeat split; reflexivity.
Defined.

(** ** The forward-feature list *)

Lemma concat_reads_app g1 g2 :
  concat_reads (g1 ++ g2) = concat_reads g1 ++ concat_reads g2.
Proof. apply flat_map_app. Qed.

Lemma concat_reads_none l :
  forallb (fun o => negb (is_concat o)) (map op l) = true ->
  concat_reads l = [].
Proof.
  induction l as [|[o ins] l IH]; [done|]. simpl.
  intros [Ho Hl]%andb_prop. unfold concat_reads in *. simpl.
  rewrite IH by done. by destruct o.
Qed.

Lemma nl_ops_no_concat cfg d b :
  forallb (fun o => negb (is_concat o)) (nl_ops cfg d b) = true.
Proof.
  unfold nl_ops, activation.
  by destruct b, (lrelu_alpha cfg), (truthy d).
Qed.

Lemma residual_ops_no_concat cfg channels :
  forallb (fun o => negb (is_concat o)) (residual_ops cfg channels) = true.
Proof.
  unfold residual_ops, round_ops. rewrite forallb_app. cbn [forallb].
  rewrite nl_ops_no_concat. cbn.
  induction (range (nconv cfg - 1)) as [|ci l IH]; [done|].
  cbn [flat_map]. rewrite forallb_app. cbn [forallb].
  by rewrite nl_ops_no_concat, IH.
Qed.

Lemma enc_res_ops_no_concat cfg fi :
  forallb (fun o => negb (is_concat o)) (enc_res_ops cfg fi) = true.
Proof.
  unfold enc_res_ops. destruct (fi =? 0); [|apply residual_ops_no_concat].
  cbn [forallb]. by rewrite nl_ops_no_concat.
Qed.

Lemma enc_segment_reads cfg fi s n hadd seg :
  enc_segment cfg fi s n hadd seg -> concat_reads seg = [].
Proof.
  intros (res & nl & -> & _ & Hops & _ & Hnl & _).
  rewrite !concat_reads_app.
  rewrite (concat_reads_none res), (concat_reads_none nl); [done| |].
  - rewrite Hnl. apply nl_ops_no_concat.
  - rewrite Hops. apply enc_res_ops_no_concat.
Qed.

Lemma dec_segment_reads cfg fi hx fl n seg :
  dec_segment cfg fi hx fl n seg ->
  concat_reads seg =
    if fi =? nlevels cfg - 1 then []
    else option_list (fl !! Z.to_nat (fi + 1)).
Proof.
  intros (cat & res & nl & hadd & -> & _ & Hcat & Hops & Hnl & _).
  rewrite !concat_reads_app.
  rewrite (concat_reads_none res), (concat_reads_none nl).
  - destruct (fi =? nlevels cfg - 1).
    + by destruct Hcat as [-> _].
    + destruct Hcat as (f & -> & -> & _). done.
  - rewrite Hnl. apply nl_ops_no_concat.
  - rewrite Hops. apply residual_ops_no_concat.
Qed.

Lemma enc_built_reads cfg done g fl :
  enc_built cfg done g fl -> concat_reads g = [].
Proof.
  induction 1 as [|done fi g fl hadd seg _ IH Hseg]; [done|].
  by rewrite concat_reads_app, IH, (enc_segment_reads _ _ _ _ _ _ Hseg).
Qed.

Lemma dec_built_reads cfg fl done g :
  dec_built cfg fl done g ->
  concat_reads g =
    flat_map (fun fi => if fi =? nlevels cfg - 1 then []
                        else option_list (fl !! Z.to_nat (fi + 1))) done.
Proof.
  induction 1 as [g Henc|done fi g seg _ IH Hseg].
  - by eapply enc_built_reads.
  - rewrite concat_reads_app, IH, flat_map_app.
    rewrite (dec_segment_reads _ _ _ _ _ _ Hseg). simpl.
    by rewrite app_nil_r.
Qed.

Lemma flat_map_rev_short {A B} (f : A -> list B) l :
  (forall a, (length (f a) <= 1)%nat) ->
  flat_map f (rev l) = rev (flat_map f l).
Proof.
  intros Hf. induction l as [|a l IH]; [done|].
  simpl. rewrite flat_map_app, rev_app_distr, IH. simpl.
  rewrite app_nil_r. f_equal.
  specialize (Hf a). destruct (f a) as [|b [|b' l']]; simpl in *; (done || lia).
Qed.

Lemma flat_map_ext_in {A B} (f g : A -> list B) l :
  (forall a, In a l -> f a = g a) -> flat_map f l = flat_map g l.
Proof.
  intros H. induction l as [|a l IH]; [done|]. simpl.
  rewrite (H a) by (by left). rewrite IH; [done|].
  intros b Hb. apply H. by right.
Qed.

Lemma flat_map_fmap {A B C} (f : B -> list C) (h : A -> B) l :
  flat_map f (map h l) = flat_map (fun a => f (h a)) l.
Proof. induction l as [|a l IH]; [done|]. simpl. by rewrite IH. Qed.

Lemma flat_map_lookup_range {A} (l : list A) k :
  Z.of_nat (length l) <= k ->
  flat_map (fun i => option_list (l !! Z.to_nat i)) (range k) = l.
Proof.
  revert k. induction l as [|a l IH]; intros k Hk.
  - induction (range k) as [|i r IHr]; [done|].
    cbn [flat_map]. rewrite IHr. by rewrite lookup_nil.
  - simpl in Hk. replace k with (1 + (k - 1)) by lia.
    rewrite range_cons by lia. simpl. f_equal.
    rewrite flat_map_fmap. etrans; [|apply (IH (k - 1)); lia].
    apply flat_map_ext_in. intros i Hi.
    apply list_elem_of_In, elem_of_range in Hi.
    by replace (Z.to_nat (i + 1)) with (S (Z.to_nat i)) by lia.
Qed.

(** Reading entry [fi+1] at every decoder level but the deepest, from the
    deepest level up, and entry 0 last, reads the list backwards. *)
Lemma reads_backwards (fl : list handle) n f0 :
  Z.of_nat (length fl) = n -> fl !! 0%nat = Some f0 ->
  flat_map (fun fi => if fi =? n - 1 then []
                      else option_list (fl !! Z.to_nat (fi + 1)))
           (rev (range n)) ++ [f0]
  = rev fl.
Proof.
  intros Hlen Hf0. destruct fl as [|f tl]; [done|].
  injection Hf0 as ->. simpl in Hlen.
  rewrite flat_map_rev_short.
  2:{ intros fi. destruct (fi =? n - 1); [simpl; lia|].
      destruct (_ !! _); simpl; lia. }
  change (rev (f0 :: tl)) with (rev tl ++ [f0]). f_equal. f_equal.
  etrans; [|apply (flat_map_lookup_range tl n); lia].
  apply flat_map_ext_in. intros fi Hfi.
  apply list_elem_of_In, elem_of_range in Hfi.
  replace (Z.to_nat (fi + 1)) with (S (Z.to_nat fi)) by lia. simpl.
  destruct (Z.eqb_spec fi (n - 1)) as [->|Hne]; [|done].
  rewrite lookup_ge_None_2; [done|lia].
Qed.

Lemma enc_built_entries cfg done g fl :
  enc_built cfg done g fl ->
  (forall i h, fl !! i = Some h -> (S h < length g)%nat) /\
  (forall i h, fl !! i = Some h ->
     exists fi r s,
       done !! i = Some fi /\
       g !! h = Some (Node Add [r; s]) /\
       g !! S h = Some (Node (down_conv cfg fi) [h])).
Proof.
  induction 1 as [|done fi g fl hadd seg Hb [IHlt IH] Hseg]; [done|].
  destruct (enc_built_length _ _ _ _ Hb) as [_ Hlen].
  destruct Hseg as (res & nl & -> & -> & _).
  split.
  - intros i h [Hi|[_ Hi]]%lookup_app_Some.
    + apply IHlt in Hi. rewrite length_app. lia.
    + apply list_lookup_singleton_Some in Hi as [_ <-].
      rewrite !length_app. simpl. lia.
  - intros i h [Hi|[Hge Hi]]%lookup_app_Some.
    + destruct (IH i h Hi) as (fi' & r & s & Hd & Ha & Hc).
      exists fi', r, s. split; [by apply lookup_app_l_Some|].
      split; by apply lookup_app_l_Some.
    + apply list_lookup_singleton_Some in Hi as [Hi <-].
      assert (i = length done) as -> by lia.
      eexists fi, _, _. split; [|split].
      * rewrite lookup_app_r by lia. by rewrite Nat.sub_diag.
      * rewrite app_assoc. apply list_lookup_middle.
        by rewrite length_app.
      * rewrite app_assoc.
        change ([?a; ?b] ++ nl) with ([a] ++ b :: nl).
        rewrite app_assoc. apply list_lookup_middle.
        rewrite !length_app. simpl. lia.
Qed.

Lemma enc_built_ascending cfg done g fl (i j : nat) hi hj :
  enc_built cfg done g fl ->
  fl !! i = Some hi -> fl !! j = Some hj -> (i < j)%nat -> (hi < hj)%nat.
Proof.
  intros Henc. revert i j hi hj.
  induction Henc as [|lv fi g fl hadd seg Hb IH Hseg]; [done|].
  intros i j hi hj Hi Hj Hij.
  destruct (enc_built_entries _ _ _ _ Hb) as [Hlt _].
  destruct Hseg as (res & nl & _ & -> & _).
  apply lookup_app_Some in Hi as [Hi|[Hge Hi]];
    apply lookup_app_Some in Hj as [Hj|[Hge' Hj]].
  - by eapply IH.
  - apply list_lookup_singleton_Some in Hj as [_ <-].
    apply Hlt in Hi. lia.
  - apply lookup_lt_Some in Hj. lia.
  - apply list_lookup_singleton_Some in Hi as [? _].
    apply list_lookup_singleton_Some in Hj as [? _]. lia.
Qed.

Lemma dec_built_prefix cfg fl done g :
  dec_built cfg fl done g ->
  exists g0, enc_built cfg (range (nlevels cfg)) g0 fl /\ g0 `prefix_of` g.
Proof.
  induction 1 as [g Henc|done fi g seg _ (g0 & Henc & Hpre) _].
  - by exists g.
  - exists g0. split; [done|]. etrans; [done|]. by apply prefix_app_r.
Qed.

(** C3: the forward-feature list of a model with [nlevels >= 1] has
    [nlevels] entries.  Entry [i] is the residual sum of encoder level [i],
    and the node created right after it is the down convolution of level
    [i], reading it; the entries are in ascending creation order.  The
    first operands of the concatenations of the model, in creation order,
    are the list read backwards; so every entry is read exactly once, entry
    0 last.  Decoder level [fi < nlevels-1] starts by concatenating entry
    [fi+1] with the current tensor, and the head by concatenating entry 0
    with the output of the decoder. *)
Theorem forward_features cfg :
  1 <= nlevels cfg ->
  exists b g,
    build cfg [] = Ok (b, g) /\
    let fl := b_forward b in
    Z.of_nat (length fl) = nlevels cfg /\
    (forall (i : nat) h, fl !! i = Some h ->
       exists r s,
         g !! h = Some (Node Add [r; s]) /\
         g !! S h = Some (Node (down_conv cfg (Z.of_nat i)) [h])) /\
    (forall (i j : nat) hi hj,
       fl !! i = Some hi -> fl !! j = Some hj -> (i < j)%nat ->
       (hi < hj)%nat) /\
    concat_reads g = rev fl /\
    (forall fi, 0 <= fi < nlevels cfg - 1 ->
       exists v g0 hx f,
         decoder_entry cfg fi [] = Ok (v, g0) /\
         x v = Some hx /\
         forward_list v = fl /\
         fl !! Z.to_nat (fi + 1) = Some f /\
         g !! length g0 = Some (Node (Concatenate (-1)) [f; hx])) /\
    (exists v g0 hx f,
       decoder_entry cfg (-1) [] = Ok (v, g0) /\
       x v = Some hx /\
       forward_list v = fl /\
       fl !! 0%nat = Some f /\
       g !! length g0 = Some (Node (Concatenate (-1)) [f; hx])).
Proof.
  intros Hn.
  destruct (build_run cfg Hn)
    as (g1 & fl & f0 & Hlast & Hb & Hlen & Hf0 & Hbuild).
  eexists _, _. split; [exact Hbuild|]. cbn [b_forward].
  destruct (dec_built_prefix _ _ _ _ Hb) as (ge & Henc & Hpre).
  destruct (enc_built_entries _ _ _ _ Henc) as [Hlt Hentries].
  split; [lia|]. split; [|split; [|split; [|split]]].
  - intros i h Hi. destruct (Hentries i h Hi) as (fi & r & s & Hd & Ha & Hc).
    assert (fi = Z.of_nat i) as ->.
    { apply lookup_lt_Some in Hi as Hi'.
      rewrite lookup_range in Hd by lia. by injection Hd. }
    exists r, s. split; apply lookup_app_l_Some;
      by eapply prefix_lookup_Some.
  - intros i j hi hj. by eapply enc_built_ascending.
  - rewrite concat_reads_app, (dec_built_reads _ _ _ _ Hb).
    replace (concat_reads (head_nodes cfg (length g1) f0 (length g1 - 1)%nat))
      with [f0].
    2:{ unfold head_nodes, activation, concat_reads.
        by destruct (lrelu_alpha cfg). }
    apply reads_backwards; [lia|done].
  - intros fi Hfi.
    destruct (decoder_level_in_model cfg fi Hn ltac:(lia))
      as (v & g0 & seg & b' & g' & Hrun & Hx & _ & _ & _ & Hseg & Hbuild'
          & Hfl & Hpre').
    rewrite Hbuild in Hbuild'. injection Hbuild' as <- <-.
    cbn [b_forward] in Hfl. subst fl.
    destruct Hseg as (cat & res & nl & hadd & -> & _ & Hcat & _).
    destruct (Z.eqb_spec fi (nlevels cfg - 1)) as [|_]; [lia|].
    destruct Hcat as (f & Hf & -> & _).
    exists v, g0, (length g0 - 1)%nat, f. repeat split; try done.
    eapply prefix_lookup_Some; [|exact Hpre'].
    rewrite lookup_app_r by lia. by rewrite Nat.sub_diag.
  - exists (Locals (Some (length g1 - 1)%nat) fl), g1, (length g1 - 1)%nat, f0.
    repeat split; try done.
    rewrite lookup_app_r by lia. by rewrite Nat.sub_diag.
Qed.

Lemma forward_features_witness :
  exists b g,
    build cfg_train [] = Ok (b, g) /\
    b_forward b = [3; 17; 32]%nat /\
    concat_reads g = [32; 17; 3]%nat.
Proof.
  destruct (forward_features cfg_train) as (b & g & Hb & _ & _ & _ & Hr & _);
    [done|].
  exists b, g. split; [exact Hb|].
  assert (build cfg_train [] = Ok (b, g)) as Hb' by exact Hb.
  vm_compute in Hb'. injection Hb' as <- <-. split; reflexivity.
Defined.

(** ** Channel counts *)

Lemma channels_steps_prefix g acc :
  acc `prefix_of` fold_left channels_step g acc.
Proof.
  revert acc. induction g as [|nd g IH]; intros acc; [done|].
  simpl. etrans; [|apply IH]. by apply prefix_app_r.
Qed.

Lemma length_channels_steps g acc :
  length (fold_left channels_step g acc) = (length acc + length g)%nat.
Proof.
  revert acc. induction g as [|nd g IH]; intros acc; simpl; [lia|].
  rewrite IH. unfold channels_step. rewrite length_app. simpl. lia.
Qed.

(** Later nodes do not change the channel count of a tensor. *)
Lemma channels_app g g' h :
  (h < length g)%nat -> channels (g ++ g') h = channels g h.
Proof.
  intros Hh. unfold channels, all_channels, known_channels.
  rewrite fold_left_app.
  destruct (lookup_lt_is_Some_2 (fold_left channels_step g []) h) as [c Hc].
  { rewrite length_channels_steps. simpl. lia. }
  rewrite Hc.
  by rewrite (prefix_lookup_Some _ _ _ _ Hc (channels_steps_prefix g' _)).
Qed.






(** ** Channel counts through the levels *)

Lemma length_all_channels g : length (all_channels g) = length g.
Proof. unfold all_channels. by rewrite length_channels_steps. Qed.

Lemma channels_snoc g nd :
  channels (g ++ [nd]) (length g)
  = layer_channels (op nd) (map (channels g) (inputs nd)).
Proof.
  unfold channels, all_channels. rewrite fold_left_app. cbn [fold_left].
  unfold channels_step at 1. unfold known_channels at 1.
  rewrite <- (length_all_channels g) at 1. unfold all_channels.
  by rewrite list_lookup_middle.
Qed.

Lemma channels_node g1 nd g2 :
  channels (g1 ++ nd :: g2) (length g1)
  = layer_channels (op nd) (map (channels g1) (inputs nd)).
Proof.
  change (g1 ++ nd :: g2) with (g1 ++ [nd] ++ g2).
  rewrite app_assoc, channels_app by (rewrite length_app; simpl; lia).
  apply channels_snoc.
Qed.

Lemma chain_channels l g1 t g2 :
  (t < length g1)%nat ->
  chain t (length g1) l ->
  channels (g1 ++ l ++ g2) (chain_out t (length g1) l)
  = ops_channels (map op l) (channels g1 t).
Proof.
  revert g1 t. induction l as [|nd l IH]; intros g1 t Ht Hch.
  - simpl. by apply channels_app.
  - destruct Hch as [Hin Hch]. rewrite chain_out_cons.
    change (g1 ++ (nd :: l) ++ g2) with (g1 ++ [nd] ++ l ++ g2).
    rewrite app_assoc.
    specialize (IH (g1 ++ [nd]) (length g1)).
    rewrite length_app in IH. cbn [length] in IH.
    replace (length g1 + 1)%nat with (S (length g1)) in IH by lia.
    rewrite IH by (done || lia).
    cbn [map ops_channels fold_left]. unfold ops_channels. f_equal.
    by rewrite channels_snoc, Hin.
Qed.

Lemma ops_channels_app ops1 ops2 c :
  ops_channels (ops1 ++ ops2) c = ops_channels ops2 (ops_channels ops1 c).
Proof. apply fold_left_app. Qed.

Lemma ops_channels_nl cfg d b c : ops_channels (nl_ops cfg d b) c = c.
Proof.
  unfold nl_ops, activation.
  by destruct b, (lrelu_alpha cfg), (truthy d).
Qed.

Lemma ops_channels_round cfg channels b c :
  ops_channels (round_ops cfg channels b) c = Some channels.
Proof.
  unfold round_ops.
  change (?o :: ?l) with ([o] ++ l). rewrite ops_channels_app.
  apply ops_channels_nl.
Qed.

Lemma ops_channels_residual cfg channels c :
  ops_channels (residual_ops cfg channels) c = Some channels.
Proof.
  unfold residual_ops. rewrite ops_channels_app, ops_channels_round.
  induction (range (nconv cfg - 1)) as [|ci l IH]; [done|].
  cbn [flat_map]. by rewrite ops_channels_app, ops_channels_round.
Qed.

Lemma ops_channels_enc_res cfg fi c :
  ops_channels (enc_res_ops cfg fi) c = Some (nfm cfg * 2 ^ fi).
Proof.
  unfold enc_res_ops. destruct (Z.eqb_spec fi 0) as [->|_].
  - rewrite Z.mul_1_r. change (?o :: ?l) with ([o] ++ l).
    rewrite ops_channels_app. apply ops_channels_nl.
  - apply ops_channels_residual.
Qed.

Lemma ops_channels_transition cfg o fi c filters :
  layer_channels o [c] = Some filters ->
  ops_channels (o :: transition_ops cfg fi) c = Some filters.
Proof.
  intros Ho. change (?o :: ?l) with ([o] ++ l).
  rewrite ops_channels_app. unfold transition_ops.
  rewrite ops_channels_nl. exact Ho.
Qed.

(** The sum of a level and the transition after it: [pre ++ res] is what
    the level creates before the sum, [res] being the chain of its residual
    convolutions, [hx] the shortcut. *)
Lemma sum_transition_channels g pre res conv nl hx t ch filters n1 hadd :
  let g' := g ++ pre ++ res ++
            [Node Add [(hadd - 1)%nat; hx]; Node conv [hadd]] ++ nl in
  n1 = (length g + length pre)%nat ->
  hadd = (n1 + length res)%nat ->
  (hx < length g)%nat -> (t < n1)%nat ->
  chain t n1 res -> res <> [] ->
  (forall c, ops_channels (map op res) c = Some ch) ->
  (forall c, layer_channels conv [c] = Some filters) ->
  (forall c, ops_channels (map op nl) c = c) ->
  chain (S hadd) (S (S hadd)) nl ->
  g' !! hadd = Some (Node Add [(hadd - 1)%nat; hx]) /\
  g' !! S hadd = Some (Node conv [hadd]) /\
  channels g' (hadd - 1)%nat = Some ch /\
  channels g' hadd = layer_channels Add [Some ch; channels g hx] /\
  channels g' (S hadd) = Some filters /\
  channels g' (length g' - 1)%nat = Some filters.
Proof.
  intros g' Hn1 Hhadd Hhx Ht Hch Hne Hres Hconv Hnl Hchn.
  assert (length (g ++ pre) = n1) as Hlen1 by (rewrite length_app; lia).
  assert (length (g ++ pre ++ res) = hadd) as Hlen
    by (rewrite !length_app; lia).
  assert ((hadd - 1)%nat = chain_out t n1 res) as Hout
    by (rewrite chain_out_nonempty by done; lia).
  assert (g' = (g ++ pre) ++ res ++
               [Node Add [(hadd - 1)%nat; hx]; Node conv [hadd]] ++ nl) as Hg1
    by (subst g'; by rewrite <- !app_assoc).
  assert (g' = (g ++ pre ++ res) ++
               Node Add [(hadd - 1)%nat; hx] :: Node conv [hadd] :: nl) as Hg2
    by (subst g'; by rewrite <- !app_assoc).
  assert (g' = ((g ++ pre ++ res) ++ [Node Add [(hadd - 1)%nat; hx]]) ++
               Node conv [hadd] :: nl) as Hg3
    by (subst g'; by rewrite <- !app_assoc).
  assert (forall g2,
            channels ((g ++ pre) ++ res ++ g2) (hadd - 1)%nat = Some ch)
    as Hres_out.
  { intros g2. rewrite Hout, <- Hlen1, chain_channels by (by rewrite Hlen1).
    apply Hres. }
  split; [rewrite Hg2; by apply list_lookup_middle|].
  split.
  { rewrite Hg3. apply list_lookup_middle. rewrite length_app. simpl. lia. }
  split; [rewrite Hg1; apply Hres_out|].
  split.
  { rewrite Hg2, <- Hlen, channels_node. cbn [op inputs map]. rewrite Hlen.
    f_equal. f_equal.
    - specialize (Hres_out []). rewrite app_nil_r, <- app_assoc in Hres_out.
      exact Hres_out.
    - f_equal. rewrite !app_assoc, !channels_app; [done|lia|].
      rewrite length_app. lia. }
  assert (length ((g ++ pre ++ res) ++ [Node Add [(hadd - 1)%nat; hx]])
          = S hadd)
    as Hlen3 by (rewrite length_app, Hlen; simpl; lia).
  split.
  { rewrite Hg3, <- Hlen3, channels_node. apply Hconv. }
  pose proof (chain_channels (Node conv [hadd] :: nl)
                ((g ++ pre ++ res) ++ [Node Add [(hadd - 1)%nat; hx]])
                hadd []) as Hlast.
  rewrite Hlen3, app_nil_r in Hlast.
  rewrite <- Hg3 in Hlast.
  replace (chain_out hadd (S hadd) (Node conv [hadd] :: nl))
    with (length g' - 1)%nat in Hlast.
  2:{ rewrite Hg3, length_app, Hlen3. simpl. lia. }
  rewrite Hlast by (done || lia).
  cbn [map op]. change (?o :: ?l) with ([o] ++ l).
  rewrite ops_channels_app, Hnl. apply Hconv.
Qed.

Lemma sum_then_transition_mono g g' conv cin cs cout :
  sum_then_transition g conv cin cs cout ->
  sum_then_transition (g ++ g') conv cin cs cout.
Proof.
  intros (h & r & s & Hlt & Hr & Hs & Ha & Hc & Hcr & Hcs & Hch & Hco).
  exists h, r, s. rewrite length_app, !channels_app by lia.
  repeat split; try done; try lia; by apply lookup_app_l_Some.
Qed.

Lemma sum_then_transition_prefix g g' conv cin cs cout :
  g `prefix_of` g' ->
  sum_then_transition g conv cin cs cout ->
  sum_then_transition g' conv cin cs cout.
Proof. intros [r ->]. apply sum_then_transition_mono. Qed.

Lemma transition_ops_channels cfg fi c :
  ops_channels (transition_ops cfg fi) c = c.
Proof. apply ops_channels_nl. Qed.

(** Channel counts after the encoder levels [0 .. k-1]. *)
Lemma enc_built_channels cfg lv g fl :
  enc_built cfg lv g fl ->
  lv = range (Z.of_nat (length lv)) ->
  channels g (length g - 1)%nat
  = match length lv with
    | O => last (input_shape cfg)
    | S _ => Some (nfm cfg * 2 ^ Z.of_nat (length lv))
    end /\
  forall fi, fi ∈ lv ->
    sum_then_transition g (down_conv cfg fi) (nfm cfg * 2 ^ fi)
      (if fi =? 0 then last (input_shape cfg) else Some (nfm cfg * 2 ^ fi))
      (nfm cfg * 2 ^ (fi + 1)).
Proof.
  induction 1 as [|lv fi g fl hadd seg Hb IH Hseg]; intros Hlv.
  - split; [done|]. intros fi Hfi. by apply elem_of_nil in Hfi.
  - rewrite length_app in Hlv. cbn [length] in Hlv.
    replace (Z.of_nat (length lv + 1)) with (Z.of_nat (length lv) + 1) in Hlv
      by lia.
    rewrite range_succ in Hlv by lia.
    apply app_inj_tail in Hlv as [Hlv ->].
    destruct (IH Hlv) as [IHx IHl]. clear IH.
    destruct (enc_built_length _ _ _ _ Hb) as [Hg _].
    destruct Hseg as (res & nl & -> & -> & Hops & Hch & Hnl & Hchn).
    pose proof (map_op_nonempty _ _ Hops (enc_res_ops_nonempty _ _)) as Hr1.
    pose proof (map_op_nonempty _ _ Hnl (nl_ops_nonempty _ _ _)) as Hn1.
    destruct (sum_transition_channels g [] res
                (down_conv cfg (Z.of_nat (length lv))) nl
                (length g - 1)%nat (length g - 1)%nat
                (nfm cfg * 2 ^ Z.of_nat (length lv))
                (nfm cfg * 2 ^ (Z.of_nat (length lv) + 1))
                (length g) (length g + length res)%nat)
      as (Ha & Hc & Hcr & Hca & Hco & Hlast);
      cbn [app length]; try done; try lia.
    { intros ->. simpl in Hr1. lia. }
    { intros c. rewrite Hops. apply ops_channels_enc_res. }
    { intros c. rewrite Hnl. apply transition_ops_channels. }
    cbn [app] in *.
    split.
    + rewrite Hlast, length_app. cbn [length].
      replace (length lv + 1)%nat with (S (length lv)) by lia.
      do 2 f_equal. lia.
    + intros fi [Hfi| ->%list_elem_of_singleton]%elem_of_app.
      * by apply sum_then_transition_mono, IHl.
      * exists (length g + length res)%nat,
          (length g + length res - 1)%nat, (length g - 1)%nat.
        rewrite !length_app. cbn [length].
        assert (channels
                  (g ++ res ++
                   [Node Add [(length g + length res - 1)%nat;
                              (length g - 1)%nat];
                    Node (down_conv cfg (Z.of_nat (length lv)))
                         [(length g + length res)%nat]] ++ nl)
                  (length g - 1)%nat
                = (if Z.of_nat (length lv) =? 0 then last (input_shape cfg)
                   else Some (nfm cfg * 2 ^ Z.of_nat (length lv)))) as Hcs.
        { rewrite channels_app by lia. rewrite IHx.
          destruct (length lv) eqn:E; [done|].
          by destruct (Z.eqb_spec (Z.of_nat (S n)) 0); [lia|]. }
        split; [lia|]. split; [lia|]. split; [lia|].
        split; [done|]. split; [done|]. split; [done|].
        split; [done|]. split; [|done].
        rewrite Hca, <- Hcs. by rewrite channels_app by lia.
Qed.

(** Channel counts after the decoder levels [nlevels-1 .. nlevels-k]. *)
Lemma dec_built_channels cfg fl lv g :
  1 <= nlevels cfg ->
  dec_built cfg fl lv g ->
  lv = take (length lv) (rev (range (nlevels cfg))) ->
  (length lv <= Z.to_nat (nlevels cfg))%nat ->
  channels g (length g - 1)%nat
  = Some (nfm cfg * 2 ^ (nlevels cfg - Z.of_nat (length lv))) /\
  (forall fi, fi ∈ range (nlevels cfg) ->
     sum_then_transition g (down_conv cfg fi) (nfm cfg * 2 ^ fi)
       (if fi =? 0 then last (input_shape cfg) else Some (nfm cfg * 2 ^ fi))
       (nfm cfg * 2 ^ (fi + 1))) /\
  (forall fi, fi ∈ lv ->
     sum_then_transition g (up_conv cfg fi) (nfm cfg * 2 ^ (fi + 1))
       (Some (nfm cfg * 2 ^ (fi + 1))) (nfm cfg * 2 ^ fi)).
Proof.
  intros Hn. induction 1 as [g Henc|lv fi g seg Hb IH Hseg]; intros Hlv Hle.
  - destruct (enc_built_channels _ _ _ _ Henc) as [Hx Hl].
    { by rewrite length_range, Z2Nat.id by lia. }
    rewrite length_range in Hx.
    destruct (Z.to_nat (nlevels cfg)) eqn:E; [lia|].
    split; [|split; [done|]].
    + rewrite Hx. do 3 f_equal. cbn [length]. lia.
    + intros fi Hfi. by apply elem_of_nil in Hfi.
  - rewrite length_app in Hlv, Hle. cbn [length] in Hlv, Hle.
    replace (length lv + 1)%nat with (S (length lv)) in Hlv by lia.
    assert (rev (range (nlevels cfg)) !! length lv
            = Some (nlevels cfg - 1 - Z.of_nat (length lv))) as Hlk.
    { pose proof (lookup_rev_range (Z.to_nat (nlevels cfg)) (length lv)) as Hl.
      rewrite Z2Nat.id in Hl by lia. by rewrite Hl by lia. }
    rewrite (take_S_r _ _ _ Hlk) in Hlv.
    apply app_inj_tail in Hlv as [Hlv ->].
    destruct (IH Hlv) as (IHx & IHe & IHl); [lia|]. clear IH.
    set (fi := nlevels cfg - 1 - Z.of_nat (length lv)) in *.
    assert (1 <= length g)%nat as Hg.
    { clear -Hb. induction Hb as [g Henc|]; [|rewrite length_app; lia].
      by apply enc_built_length in Henc as [? _]. }
    destruct Hseg
      as (cat & res & nl & hadd & -> & -> & Hcat & Hops & Hnl & Hchn).
    pose proof (map_op_nonempty _ _ Hops (residual_ops_nonempty _ _)) as Hr1.
    pose proof (map_op_nonempty _ _ Hnl (nl_ops_nonempty _ _ _)) as Hn1.
    assert (exists t, (t < length g + length cat)%nat /\
                      chain t (length g + length cat) res) as (t & Ht & Hch).
    { destruct (fi =? nlevels cfg - 1).
      - destruct Hcat as [-> Hch]. exists (length g - 1)%nat.
        cbn [length]. split; [lia|]. chain_lia Hch.
      - destruct Hcat as (f & _ & -> & Hch). exists (length g).
        cbn [length]. split; [lia|]. chain_lia Hch. }
    destruct (sum_transition_channels g cat res (up_conv cfg fi) nl
                (length g - 1)%nat t
                (nfm cfg * 2 ^ (fi + 1)) (nfm cfg * 2 ^ fi)
                (length g + length cat)%nat
                (length g + length cat + length res)%nat)
      as (Ha & Hc & Hcr & Hca & Hco & Hlast); try done; try lia.
    { intros ->. simpl in Hr1. lia. }
    { intros c. rewrite Hops. apply ops_channels_residual. }
    { intros c. rewrite Hnl. apply transition_ops_channels. }
    split; [|split].
    + rewrite Hlast, length_app. cbn [length]. do 3 f_equal. subst fi. lia.
    + intros fi' Hfi'. by apply sum_then_transition_mono, IHe.
    + intros fi' [Hfi'| ->%list_elem_of_singleton]%elem_of_app.
      * by apply sum_then_transition_mono, IHl.
      * exists (length g + length cat + length res)%nat,
          (length g + length cat + length res - 1)%nat, (length g - 1)%nat.
        rewrite !length_app. cbn [length].
        assert (channels g (length g - 1)%nat = Some (nfm cfg * 2 ^ (fi + 1)))
          as Hcs.
        { rewrite IHx. do 3 f_equal. subst fi. lia. }
        split; [lia|]. split; [lia|]. split; [lia|].
        split; [done|]. split; [done|]. split; [done|].
        split; [by rewrite channels_app by lia|].
        split; [|done]. by rewrite Hca, Hcs.
Qed.

(** ** Transitions: counts and widths *)

Lemma broadcast_dim_same a : broadcast_dim a a = Some a.
Proof. unfold broadcast_dim. by rewrite Z.eqb_refl. Qed.

(** The sum of a tensor of [a] channels with one of 1 or of [a] channels has
    [a] channels. *)
Lemma broadcast_dim_input a c :
  c = Some 1 \/ c = Some a -> layer_channels Add [Some a; c] = Some a.
Proof.
  intros [-> | ->]; cbn [layer_channels]; [|apply broadcast_dim_same].
  unfold broadcast_dim.
  destruct (Z.eqb_spec a 1) as [->|Ha]; [done|].
  by destruct (Z.eqb_spec a 1).
Qed.

Lemma sum_then_transition_widths g conv cin cs cout :
  sum_then_transition g conv cin cs cout ->
  layer_channels Add [Some cin; cs] = Some cin ->
  transition_widths g conv cin cout.
Proof.
  intros (h & r & s & _ & _ & _ & _ & Hc & _ & _ & Hch & Hco) Hadd.
  exists h. split; [done|]. split; [|done]. by rewrite Hch.
Qed.

(** C5, as stated, fails at level 0: with [nfm = 1] on an input of three
    channels Keras accepts every layer call; the sum of level 0 adds the
    input to the residual of one channel, so the tensor that enters the
    first down convolution has three channels, not [nfm * 2^0 = 1]. *)
Lemma level0_entering_counterexample :
  nfm cfg_one_filter * 2 ^ 0 = 1 /\
  exists m, Keras.get_model cfg_one_filter = Ok m /\
    get_model cfg_one_filter = Ok m /\
    List.filter is_down (map op (m_layers m))
    = [Conv3D 2 (2, 2, 2) (2, 2, 2) Valid] /\
    m_layers m !! 3%nat = Some (Node Add [2%nat; 0%nat]) /\
    m_layers m !! 4%nat
    = Some (Node (Conv3D 2 (2, 2, 2) (2, 2, 2) Valid) [3%nat]) /\
    channels (m_layers m) 2%nat = Some 1 /\
    channels (m_layers m) 0%nat = Some 3 /\
    channels (m_layers m) 3%nat = Some 3 /\
    channels (m_layers m) 4%nat = Some 2 /\
    ~ transition_widths (m_layers m)
        (Conv3D (nfm cfg_one_filter * 2 ^ (0 + 1)) (2, 2, 2) (2, 2, 2) Valid)
        (nfm cfg_one_filter * 2 ^ 0) (nfm cfg_one_filter * 2 ^ (0 + 1)).
Proof.
  split; [reflexivity|]. eexists.
  split; [vm_compute; reflexivity|].
  do 8 (split; [vm_compute; reflexivity|]).
  intros (h & Hl & Hc & _).
  cbn [m_layers] in Hl, Hc.
  do 20 (destruct h as [|h]; [vm_compute in Hl, Hc; congruence|]).
  vm_compute in Hl. discriminate Hl.
Qed.

(** C5 amended: a model with [nlevels >= 1] has exactly [nlevels] strided
    down convolutions and [nlevels] transposed up convolutions; in creation
    order the down convolution of encoder level [fi] has [nfm * 2^(fi+1)]
    feature maps, for [fi = 0 .. nlevels-1], and the up convolution of
    decoder level [fi] has [nfm * 2^fi], for [fi = nlevels-1 .. 0].  The
    residual convolutions of encoder level [fi] have [nfm * 2^fi] feature
    maps and those of decoder level [fi] have [nfm * 2^(fi+1)].  Each down
    convolution reads a sum whose residual operand has [nfm * 2^fi]
    channels; for [fi >= 1] the shortcut has as many, and so has the sum
    that enters the convolution; at level 0 the shortcut is the input, and
    the sum has [nfm] channels when the input has 1 or [nfm] channels.  Each
    down convolution leaves [nfm * 2^(fi+1)] channels; each up convolution
    reads a sum of [nfm * 2^(fi+1)] channels and leaves [nfm * 2^fi]. *)
Theorem transition_counts_and_widths cfg :
  1 <= nlevels cfg ->
  exists m, get_model cfg = Ok m /\
    List.filter is_down (map op (m_layers m))
    = map (fun fi => Conv3D (nfm cfg * 2 ^ (fi + 1)) (2, 2, 2) (2, 2, 2) Valid)
          (range (nlevels cfg)) /\
    List.filter is_up (map op (m_layers m))
    = map (fun fi => Conv3DTranspose (nfm cfg * 2 ^ fi) (2, 2, 2) (2, 2, 2))
          (rev (range (nlevels cfg))) /\
    Z.of_nat (length (List.filter is_down (map op (m_layers m))))
    = nlevels cfg /\
    Z.of_nat (length (List.filter is_up (map op (m_layers m))))
    = nlevels cfg /\
    map fst (conv5_blocks (m_layers m))
    = flat_map (fun fi => repeat (conv5 (nfm cfg * 2 ^ fi))
                            (if fi =? 0 then 1
                             else S (Z.to_nat (nconv cfg - 1))))
               (range (nlevels cfg)) ++
      flat_map (fun fi => repeat (conv5 (nfm cfg * 2 ^ (fi + 1)))
                            (S (Z.to_nat (nconv cfg - 1))))
               (rev (range (nlevels cfg))) ++
      [conv5 (nfm cfg)] /\
    (forall fi, 0 <= fi < nlevels cfg ->
       sum_then_transition (m_layers m)
         (Conv3D (nfm cfg * 2 ^ (fi + 1)) (2, 2, 2) (2, 2, 2) Valid)
         (nfm cfg * 2 ^ fi)
         (if fi =? 0 then last (input_shape cfg) else Some (nfm cfg * 2 ^ fi))
         (nfm cfg * 2 ^ (fi + 1))) /\
    (forall fi, 0 <= fi < nlevels cfg ->
       sum_then_transition (m_layers m)
         (Conv3DTranspose (nfm cfg * 2 ^ fi) (2, 2, 2) (2, 2, 2))
         (nfm cfg * 2 ^ (fi + 1))
         (Some (nfm cfg * 2 ^ (fi + 1)))
         (nfm cfg * 2 ^ fi)) /\
    (forall fi, 0 <= fi < nlevels cfg ->
       (fi = 0 -> last (input_shape cfg) = Some 1 \/
                  last (input_shape cfg) = Some (nfm cfg)) ->
       transition_widths (m_layers m)
         (Conv3D (nfm cfg * 2 ^ (fi + 1)) (2, 2, 2) (2, 2, 2) Valid)
         (nfm cfg * 2 ^ fi) (nfm cfg * 2 ^ (fi + 1))) /\
    (forall fi, 0 <= fi < nlevels cfg ->
       transition_widths (m_layers m)
         (Conv3DTranspose (nfm cfg * 2 ^ fi) (2, 2, 2) (2, 2, 2))
         (nfm cfg * 2 ^ (fi + 1)) (nfm cfg * 2 ^ fi)).
Proof.
  intros Hn.
  destruct (model_transition_layers cfg Hn)
    as (m & Hm & Hdown & Hup & Hnd & Hnu & Hconv).
  exists m. do 6 (split; [done|]).
  destruct (build_run cfg Hn) as (g & fl & f & _ & Hb & _ & _ & Hbuild).
  apply get_model_build in Hbuild. rewrite Hm in Hbuild.
  injection Hbuild as ->. cbn [m_layers].
  destruct (dec_built_channels cfg fl _ g Hn Hb) as (_ & He & Hd).
  { rewrite length_rev_range. symmetry. apply take_ge.
    by rewrite length_rev_range. }
  { by rewrite length_rev_range. }
  assert (forall fi, 0 <= fi < nlevels cfg ->
            sum_then_transition
              (g ++ head_nodes cfg (length g) f (length g - 1)%nat)
              (down_conv cfg fi) (nfm cfg * 2 ^ fi)
              (if fi =? 0 then last (input_shape cfg)
               else Some (nfm cfg * 2 ^ fi))
              (nfm cfg * 2 ^ (fi + 1))) as Hdown'.
  { intros fi Hfi. apply sum_then_transition_mono, He.
    by apply elem_of_range. }
  assert (forall fi, 0 <= fi < nlevels cfg ->
            sum_then_transition
              (g ++ head_nodes cfg (length g) f (length g - 1)%nat)
              (up_conv cfg fi) (nfm cfg * 2 ^ (fi + 1))
              (Some (nfm cfg * 2 ^ (fi + 1))) (nfm cfg * 2 ^ fi)) as Hup'.
  { intros fi Hfi. apply sum_then_transition_mono, Hd.
    apply list_elem_of_In, in_rev. rewrite rev_involutive.
    by apply list_elem_of_In, elem_of_range. }
  split; [exact Hdown'|]. split; [exact Hup'|]. split.
  - intros fi Hfi Hin.
    eapply sum_then_transition_widths; [by apply Hdown'|].
    destruct (Z.eqb_spec fi 0) as [->|Hne].
    + rewrite Z.pow_0_r, Z.mul_1_r. apply broadcast_dim_input. by apply Hin.
    + cbn [layer_channels]. apply broadcast_dim_same.
  - intros fi Hfi.
    eapply sum_then_transition_widths; [by apply Hup'|].
    cbn [layer_channels]. apply broadcast_dim_same.
Qed.

Lemma transition_counts_and_widths_witness :
  List.filter is_down
    (map op (match get_model cfg_train with
             | Ok m => m_layers m
             | Raise _ => []
             end))
  = [ Conv3D 32 (2, 2, 2) (2, 2, 2) Valid;
      Conv3D 64 (2, 2, 2) (2, 2, 2) Valid;
      Conv3D 128 (2, 2, 2) (2, 2, 2) Valid ] /\
  transition_widths
    (match get_model cfg_train with
     | Ok m => m_layers m
     | Raise _ => []
     end)
    (Conv3D 32 (2, 2, 2) (2, 2, 2) Valid) 16 32.
Proof.
  pose proof (transition_counts_and_widths cfg_train
                ltac:(unfold cfg_train; simpl; lia))
    as (m & Hm & Hd & _ & _ & _ & _ & _ & _ & Hw & _).
  rewrite Hm. split; [rewrite Hd; reflexivity|].
  apply (Hw 0); [unfold cfg_train; simpl; lia|].
  intros _. left. reflexivity.
Defined.

(** ** Wiring *)

Ltac elem_of_list :=
  repeat first [apply list_elem_of_here | apply list_elem_of_further].

Lemma wired_nil n : wired n [].
Proof. intros i nd Hi. by rewrite lookup_nil in Hi. Qed.

Lemma wired_cons n nd l :
  Forall (fun j => (j < n)%nat) (inputs nd) ->
  (n - 1)%nat ∈ inputs nd ->
  wired (S n) l ->
  wired n (nd :: l).
Proof.
  intros Hlt Hprev Hl [|i] nd' Hi; simpl in Hi.
  - injection Hi as <-. rewrite Nat.add_0_r. done.
  - destruct (Hl i nd' Hi) as (H1 & H2).
    replace (n + S i)%nat with (S n + i)%nat by lia. done.
Qed.

Lemma wired_app n l1 l2 :
  wired n l1 -> wired (n + length l1) l2 -> wired n (l1 ++ l2).
Proof.
  intros H1 H2 i nd Hi.
  apply lookup_app_Some in Hi as [Hi|(Hle & Hi)].
  - by apply H1.
  - destruct (H2 _ _ Hi) as (Ha & Hb).
    replace (n + i)%nat with (n + length l1 + (i - length l1))%nat by lia.
    done.
Qed.

Lemma chain_wired n l : (1 <= n)%nat -> chain (n - 1) n l -> wired n l.
Proof.
  revert n. induction l as [|nd l IH]; intros n Hn Hch.
  - apply wired_nil.
  - destruct Hch as (Hin & Hch). apply wired_cons.
    + rewrite Hin. constructor; [lia|constructor].
    + rewrite Hin. apply list_elem_of_here.
    + apply IH; [lia|]. eapply chain_eq; [| |exact Hch]; lia.
Qed.

Lemma enc_segment_wired cfg fi n hadd seg :
  (1 <= n)%nat ->
  enc_segment cfg fi (n - 1) n hadd seg -> wired n seg.
Proof.
  intros Hn (res & nl & -> & -> & _ & Hch & _ & Hchn).
  apply wired_app; [by apply chain_wired|].
  apply wired_cons.
  { repeat constructor; lia. }
  { apply list_elem_of_here. }
  apply wired_cons.
  { repeat constructor; lia. }
  { replace (S (n + length res) - 1)%nat with (n + length res)%nat by lia.
    apply list_elem_of_here. }
  apply chain_wired; [lia|]. eapply chain_eq; [| |exact Hchn]; lia.
Qed.

Lemma dec_segment_wired cfg fi fl n seg :
  (1 <= n)%nat ->
  (forall i f, fl !! i = Some f -> (f < n)%nat) ->
  dec_segment cfg fi (n - 1) fl n seg -> wired n seg.
Proof.
  intros Hn Hfl (cat & res & nl & hadd & -> & -> & Hcat & _ & _ & Hchn).
  assert (wired n cat /\ wired (n + length cat) res) as (Hwc & Hwr).
  { destruct (fi =? nlevels cfg - 1).
    - destruct Hcat as (-> & Hch). split; [apply wired_nil|].
      simpl. rewrite Nat.add_0_r. by apply chain_wired.
    - destruct Hcat as (f & Hf & -> & Hch). apply Hfl in Hf. split.
      + apply wired_cons; [|apply list_elem_of_further, list_elem_of_here
                           |apply wired_nil].
        repeat constructor; lia.
      + simpl. apply chain_wired; [lia|].
        eapply chain_eq; [| |exact Hch]; lia. }
  apply wired_app; [done|]. apply wired_app; [done|].
  apply wired_cons.
  { repeat constructor; lia. }
  { apply list_elem_of_here. }
  apply wired_cons.
  { repeat constructor; lia. }
  { replace (S (n + length cat + length res) - 1)%nat
      with (n + length cat + length res)%nat by lia.
    apply list_elem_of_here. }
  apply chain_wired; [lia|]. eapply chain_eq; [| |exact Hchn]; lia.
Qed.

Lemma enc_built_wired cfg lv g fl :
  enc_built cfg lv g fl -> wired 1 (tail g).
Proof.
  induction 1 as [|lv fi g fl hadd seg Hb IH Hseg].
  - apply wired_nil.
  - destruct (enc_built_length _ _ _ _ Hb) as (Hlen & _).
    destruct g as [|nd0 g]; [simpl in Hlen; lia|].
    cbn [tail app] in *. apply wired_app; [done|].
    eapply enc_segment_wired; [|apply Hseg]. simpl. lia.
Qed.

Lemma dec_built_wired cfg fl lv g :
  dec_built cfg fl lv g -> wired 1 (tail g).
Proof.
  induction 1 as [g Hb|lv fi g seg Hb IH Hseg].
  - by eapply enc_built_wired.
  - destruct (dec_built_prefix _ _ _ _ Hb) as (g0 & Hg0 & Hpre).
    destruct (enc_built_length _ _ _ _ Hg0) as (Hlen & _).
    apply prefix_length in Hpre as Hle.
    destruct g as [|nd0 g]; [simpl in Hle; lia|].
    cbn [tail app] in *. apply wired_app; [done|].
    eapply dec_segment_wired; [| |apply Hseg]; [simpl; lia|].
    intros i f Hf.
    apply (proj1 (enc_built_entries _ _ _ _ Hg0)) in Hf. simpl in *. lia.
Qed.

Lemma wired_topological (g : list node) nd0 :
  g !! 0%nat = Some nd0 -> inputs nd0 = [] -> wired 1 (tail g) ->
  topological g.
Proof.
  intros H0 Hin Hw [|h] nd Hh.
  - rewrite H0 in Hh. injection Hh as <-. rewrite Hin. by split.
  - destruct g as [|nd1 g]; [done|]. simpl in Hh, Hw.
    destruct (Hw _ _ Hh) as (Hlt & Hprev). split.
    + eapply Forall_impl; [exact Hlt|]. simpl. intros; lia.
    + intros Hnil. rewrite Hnil in Hprev. by apply elem_of_nil in Hprev.
Qed.

Lemma wired_read_by (g : list node) h :
  wired 1 (tail g) -> (S h < length g)%nat -> read_by g h (S h).
Proof.
  intros Hw Hlt. destruct g as [|nd0 g]; [simpl in Hlt; lia|].
  simpl in *. destruct (lookup_lt_is_Some_2 g h) as (nd & Hnd); [lia|].
  exists nd. split; [done|]. destruct (Hw _ _ Hnd) as (_ & Hprev).
  by replace (1 + h - 1)%nat with h in Hprev by lia.
Qed.

Lemma read_by_app g g' h h' : read_by g h h' -> read_by (g ++ g') h h'.
Proof.
  intros (nd & Hnd & Hin). exists nd. split; [|done].
  by apply lookup_app_l_Some.
Qed.

(** The model as the graph at the entry of the head followed by the nodes of
    the head. *)
Lemma get_model_graph cfg :
  1 <= nlevels cfg ->
  exists g fl f,
    dec_built cfg fl (rev (range (nlevels cfg))) g /\
    length fl = Z.to_nat (nlevels cfg) /\
    fl !! 0%nat = Some f /\ (S f < length g)%nat /\
    get_model cfg
    = Ok (Model 0%nat (length g + 7)%nat
            (g ++ head_nodes cfg (length g) f (length g - 1)%nat)).
Proof.
  intros Hn.
  destruct (build_run cfg Hn) as (g & fl & f & _ & Hb & Hlen & Hf & Hbuild).
  exists g, fl, f. do 3 (split; [done|]). split.
  - destruct (dec_built_prefix _ _ _ _ Hb) as (g0 & Hg0 & Hpre).
    apply prefix_length in Hpre.
    apply (proj1 (enc_built_entries _ _ _ _ Hg0)) in Hf. lia.
  - by apply get_model_build in Hbuild.
Qed.

Lemma model_graph_topological cfg fl g f :
  dec_built cfg fl (rev (range (nlevels cfg))) g ->
  (S f < length g)%nat ->
  topological (g ++ head_nodes cfg (length g) f (length g - 1)%nat).
Proof.
  intros Hb Hf.
  pose proof (dec_built_input _ _ _ _ Hb) as H0.
  pose proof (wired_topological g _ H0 eq_refl (dec_built_wired _ _ _ _ Hb))
    as Htop.
  intros h nd Hh.
  apply lookup_app_Some in Hh as [Hh|(Hle & Hh)]; [by apply Htop|].
  remember (h - length g)%nat as k eqn:Hk.
  assert (h = length g + k)%nat as -> by lia. clear Hk Hle.
  unfold head_nodes in Hh.
  do 8 (destruct k as [|k];
        [injection Hh as <-; cbn [inputs]; split;
         [repeat constructor; lia|discriminate]|]).
  done.
Qed.

(** X1: in the model that [get_model] returns every layer reads tensors
    that were created before it, and the only layer that reads no tensor is
    the [Input] layer, which is the model's input. *)
Theorem model_topological cfg :
  1 <= nlevels cfg ->
  exists m, get_model cfg = Ok m /\
    m_layers m !! m_inputs m = Some (Node (Input (input_shape cfg)) []) /\
    topological (m_layers m).
Proof.
  intros Hn.
  destruct (get_model_graph cfg Hn) as (g & fl & f & Hb & _ & _ & Hf & ->).
  eexists. split; [done|]. cbn [m_layers m_inputs].
  split; [|by eapply model_graph_topological].
  by apply lookup_app_l_Some, (dec_built_input _ _ _ _ Hb).
Qed.

Lemma model_topological_witness :
  exists m, get_model cfg_train = Ok m /\
    m_layers m !! m_inputs m = Some (Node (Input [128; 128; 128; 1]) []) /\
    topological (m_layers m).
Proof. apply (model_topological cfg_train). done. Defined.

(** X2: no layer of the model is left unused.  Every tensor other than the
    model's output is read by a layer created later; the output is the last
    tensor created and is read by no layer. *)
Theorem model_layers_all_read cfg :
  1 <= nlevels cfg ->
  exists m, get_model cfg = Ok m /\
    S (m_outputs m) = length (m_layers m) /\
    (forall h, (h < m_outputs m)%nat ->
       exists h', (h < h')%nat /\ read_by (m_layers m) h h') /\
    (forall h', ~ read_by (m_layers m) (m_outputs m) h').
Proof.
  intros Hn.
  destruct (get_model_graph cfg Hn) as (g & fl & f & Hb & _ & _ & Hf & ->).
  eexists. split; [done|]. cbn [m_layers m_outputs].
  pose proof (model_graph_topological _ _ _ _ Hb Hf) as Htop.
  set (n := length g) in *.
  split; [rewrite length_app; simpl; lia|]. split.
  - intros h Hh.
    destruct (decide (S h < n)%nat) as [Hlt|Hge].
    { exists (S h). split; [lia|].
      apply read_by_app, wired_read_by; [|done].
      by eapply dec_built_wired. }
    assert (forall k nd, head_nodes cfg n f (n - 1)%nat !! k = Some nd ->
              h ∈ inputs nd ->
              exists h', (h < h')%nat /\
                read_by (g ++ head_nodes cfg n f (n - 1)%nat) h h') as Hk.
    { intros k nd Hnd Hin. exists (n + k)%nat.
      assert ((g ++ head_nodes cfg n f (n - 1)%nat) !! (n + k)%nat = Some nd)
        as Hl.
      { rewrite lookup_app_r by (unfold n; lia).
        by replace (n + k - length g)%nat with k by (unfold n; lia). }
      split; [|by exists nd].
      destruct (Htop _ _ Hl) as (Hall & _).
      rewrite Forall_forall in Hall. by apply Hall. }
    assert (h = n - 1 \/ h = n \/ h = n + 1 \/ h = n + 2 \/ h = n + 3 \/
            h = n + 4 \/ h = n + 5 \/ h = n + 6)%nat as Hcases by lia.
    destruct Hcases as [->|[->|[->|[->|[->|[->|[->| ->]]]]]]].
    + apply (Hk 0%nat _ eq_refl). cbn. elem_of_list.
    + apply (Hk 1%nat _ eq_refl). cbn. elem_of_list.
    + apply (Hk 3%nat _ eq_refl). cbn. elem_of_list.
    + apply (Hk 3%nat _ eq_refl). cbn. elem_of_list.
    + apply (Hk 4%nat _ eq_refl). cbn. elem_of_list.
    + apply (Hk 5%nat _ eq_refl). cbn. elem_of_list.
    + apply (Hk 6%nat _ eq_refl). cbn. elem_of_list.
    + apply (Hk 7%nat _ eq_refl). cbn. elem_of_list.
  - intros h' (nd & Hnd & Hin).
    apply lookup_lt_Some in Hnd as Hlt.
    rewrite length_app in Hlt. simpl in Hlt.
    destruct (Htop _ _ Hnd) as (Hall & _).
    rewrite Forall_forall in Hall. apply Hall in Hin. lia.
Qed.

Lemma model_layers_all_read_witness :
  exists m, get_model cfg_train = Ok m /\
    S (m_outputs m) = length (m_layers m) /\
    (forall h, (h < m_outputs m)%nat ->
       exists h', (h < h')%nat /\ read_by (m_layers m) h h') /\
    (forall h', ~ read_by (m_layers m) (m_outputs m) h').
Proof. apply (model_layers_all_read cfg_train). done. Defined.
(** ** Counting layers *)

Lemma count_cons p a l : count p (a :: l) = Z.b2z (p a) + count p l.
Proof. unfold count. simpl. destruct (p a); simpl; lia. Qed.

Lemma count_app p l1 l2 : count p (l1 ++ l2) = count p l1 + count p l2.
Proof. unfold count. rewrite List.filter_app, length_app. lia. Qed.

Lemma count_flat_map {A} p (f : A -> list layer) l :
  count p (flat_map f l) = sumZ (map (fun a => count p (f a)) l).
Proof.
  induction l as [|a l IH]; [done|].
  cbn [flat_map map sumZ fold_right]. rewrite count_app, IH. done.
Qed.

Lemma sumZ_app l1 l2 : sumZ (l1 ++ l2) = sumZ l1 + sumZ l2.
Proof. induction l1 as [|a l1 IH]; simpl; [done|]. rewrite IH. lia. Qed.

Lemma sumZ_rev l : sumZ (rev l) = sumZ l.
Proof.
  induction l as [|a l IH]; [done|].
  simpl. rewrite sumZ_app, IH. simpl. lia.
Qed.

Lemma sumZ_map_add {A} (F G : A -> Z) l :
  sumZ (map (fun a => F a + G a) l) = sumZ (map F l) + sumZ (map G l).
Proof. induction l as [|a l IH]; simpl; [done|]. rewrite IH. lia. Qed.

Lemma sumZ_map_const {A} (c : Z) (l : list A) :
  sumZ (map (fun _ => c) l) = Z.of_nat (length l) * c.
Proof. induction l as [|a l IH]; simpl length; simpl; [done|]. rewrite IH. lia. Qed.

Lemma sumZ_map_ext {A} (F G : A -> Z) l :
  (forall a, a ∈ l -> F a = G a) -> sumZ (map F l) = sumZ (map G l).
Proof.
  intros H. f_equal. apply map_ext_in. intros a Ha.
  by apply H, list_elem_of_In.
Qed.

Lemma sumZ_range_at_nat (m : nat) k a b :
  sumZ (map (fun fi => if fi =? k then a else b) (range (Z.of_nat m)))
  = (if (0 <=? k) && (k <? Z.of_nat m) then a - b else 0) + Z.of_nat m * b.
Proof.
  induction m as [|m IH].
  { change (Z.of_nat 0) with 0.
    destruct (Z.leb_spec 0 k), (Z.ltb_spec k 0); simpl; lia. }
  replace (Z.of_nat (S m)) with (Z.of_nat m + 1) by lia.
  rewrite range_succ by lia.
  rewrite map_app, sumZ_app, IH. simpl.
  destruct (Z.eqb_spec (Z.of_nat m) k), (Z.leb_spec 0 k),
    (Z.ltb_spec k (Z.of_nat m)), (Z.ltb_spec k (Z.of_nat m + 1)); simpl; lia.
Qed.

(** A sum over [range n] in which one index is special. *)
Lemma sumZ_range_at n k a b :
  sumZ (map (fun fi => if fi =? k then a else b) (range n))
  = (if (0 <=? k) && (k <? n) then a - b else 0) + Z.max 0 n * b.
Proof.
  destruct (Z.le_gt_cases n 0) as [Hn|Hn].
  { rewrite range_nonpos by done. simpl.
    destruct (Z.leb_spec 0 k), (Z.ltb_spec k n); simpl; lia. }
  pose proof (sumZ_range_at_nat (Z.to_nat n) k a b) as H.
  rewrite Z2Nat.id in H by lia. rewrite H. lia.
Qed.

Lemma sumZ_range_const n c : sumZ (map (fun _ => c) (range n)) = Z.max 0 n * c.
Proof. rewrite sumZ_map_const, length_range. lia. Qed.

Section Census.

Variable cfg : config.
Variable p : layer -> bool.

Hypothesis p_conv5 : forall channels, p (conv5 channels) = p (conv5 (nfm cfg)).
Hypothesis p_down : forall fi, p (down_conv cfg fi) = p (down_conv cfg 0).
Hypothesis p_up : forall fi, p (up_conv cfg fi) = p (up_conv cfg 0).

Lemma count_nl_ops d b :
  count p (nl_ops cfg d b)
  = Z.b2z b * Z.b2z (p (BatchNormalization false)) +
    Z.b2z (p (activation cfg)) + census_drop p d.
Proof.
  unfold nl_ops, census_drop. rewrite !count_app.
  destruct b, (truthy d); rewrite ?count_cons; unfold count; simpl; lia.
Qed.

Lemma count_round_ops channels b :
  count p (round_ops cfg channels b)
  = Z.b2z (p (conv5 (nfm cfg))) + Z.b2z (p (activation cfg)) +
    census_drop p (dropout_in cfg) +
    Z.b2z b * Z.b2z (p (BatchNormalization false)).
Proof.
  unfold round_ops. rewrite count_cons, count_nl_ops.
  fold (conv5 channels). rewrite p_conv5. lia.
Qed.

Lemma count_residual_ops channels :
  count p (residual_ops cfg channels) = census_residual cfg p.
Proof.
  unfold residual_ops, census_residual, rounds.
  rewrite count_app, count_flat_map, count_round_ops.
  rewrite (sumZ_map_ext _
    (fun ci => (Z.b2z (p (conv5 (nfm cfg))) + Z.b2z (p (activation cfg)) +
                census_drop p (dropout_in cfg)) +
               (if ci =? nconv cfg - 2
                then Z.b2z (batch_norm cfg) *
                     Z.b2z (p (BatchNormalization false))
                else 0))).
  2:{ intros ci _. rewrite count_round_ops. unfold round_bn.
      destruct (ci =? nconv cfg - 2); simpl; lia. }
  rewrite sumZ_map_add, sumZ_range_const, sumZ_range_at.
  destruct (batch_norm cfg), (Z.leb_spec 2 (nconv cfg)),
    (Z.leb_spec 0 (nconv cfg - 2)),
    (Z.ltb_spec (nconv cfg - 2) (nconv cfg - 1)); simpl; lia.
Qed.

Lemma count_transition_ops fi :
  1 <= nlevels cfg -> 0 <= fi <= nlevels cfg - 1 ->
  count p (transition_ops cfg fi)
  = census_nl cfg p +
    (if fi =? 0 then 0 else census_drop p (dropout_out cfg)).
Proof.
  intros Hn Hfi. unfold transition_ops, census_nl.
  rewrite count_nl_ops, transition_dropout_spec by done.
  destruct (fi =? 0); simpl; [|lia].
  unfold census_drop. simpl. lia.
Qed.

Lemma count_enc_ops fi :
  1 <= nlevels cfg -> 0 <= fi <= nlevels cfg - 1 ->
  count p (enc_ops cfg fi)
  = (if fi =? 0
     then Z.b2z (p (conv5 (nfm cfg))) + Z.b2z (p (activation cfg)) +
          Z.b2z (p Add) + Z.b2z (p (down_conv cfg 0)) + census_nl cfg p
     else census_residual cfg p + Z.b2z (p Add) +
          Z.b2z (p (down_conv cfg 0)) + census_nl cfg p +
          census_drop p (dropout_out cfg)).
Proof.
  intros Hn Hfi. unfold enc_ops, enc_res_ops.
  rewrite !count_app, count_transition_ops by done.
  rewrite !count_cons, p_down.
  destruct (fi =? 0).
  - rewrite count_cons, count_nl_ops. fold (conv5 (nfm cfg)).
    unfold census_drop, count. simpl. lia.
  - rewrite count_residual_ops. unfold count. simpl. lia.
Qed.

Lemma count_dec_ops fi :
  1 <= nlevels cfg -> 0 <= fi <= nlevels cfg - 1 ->
  count p (dec_ops cfg fi)
  = (if fi =? nlevels cfg - 1 then 0 else Z.b2z (p (Concatenate (-1)))) +
    (if fi =? 0
     then census_residual cfg p + Z.b2z (p Add) +
          Z.b2z (p (up_conv cfg 0)) + census_nl cfg p
     else census_residual cfg p + Z.b2z (p Add) +
          Z.b2z (p (up_conv cfg 0)) + census_nl cfg p +
          census_drop p (dropout_out cfg)).
Proof.
  intros Hn Hfi. unfold dec_ops.
  rewrite !count_app, count_transition_ops, count_residual_ops by done.
  rewrite !count_cons, p_up.
  destruct (fi =? nlevels cfg - 1), (fi =? 0);
    rewrite ?count_cons; unfold count; simpl; lia.
Qed.

Lemma count_model_ops :
  1 <= nlevels cfg -> count p (model_ops cfg) = census cfg p.
Proof.
  intros Hn. unfold model_ops, census.
  rewrite count_cons, !count_app, !count_flat_map.
  rewrite map_rev, sumZ_rev.
  erewrite (sumZ_map_ext (fun fi => count p (enc_ops cfg fi))).
  2:{ intros fi Hfi. apply elem_of_range in Hfi.
      apply count_enc_ops; [done|lia]. }
  erewrite (sumZ_map_ext (fun fi => count p (dec_ops cfg fi))).
  2:{ intros fi Hfi. apply elem_of_range in Hfi.
      apply count_dec_ops; [done|lia]. }
  rewrite sumZ_map_add, !sumZ_range_at.
  unfold head_ops. rewrite !count_cons. fold (conv5 (nfm cfg)).
  change (count p []) with 0.
  rewrite Z.max_r by lia.
  destruct (Z.leb_spec 0 0); [|lia].
  destruct (Z.ltb_spec 0 (nlevels cfg)); [|lia].
  destruct (Z.leb_spec 0 (nlevels cfg - 1)); [|lia].
  destruct (Z.ltb_spec (nlevels cfg - 1) (nlevels cfg)); [|lia].
  cbn [andb]. ring.
Qed.

End Census.

Lemma get_model_census cfg p :
  (forall channels, p (conv5 channels) = p (conv5 (nfm cfg))) ->
  (forall fi, p (down_conv cfg fi) = p (down_conv cfg 0)) ->
  (forall fi, p (up_conv cfg fi) = p (up_conv cfg 0)) ->
  1 <= nlevels cfg ->
  exists m, get_model cfg = Ok m /\ count_layers p (m_layers m) = census cfg p.
Proof.
  intros H5 Hd Hu Hn.
  destruct (get_model_ops cfg Hn) as (m & Hm & Hops). exists m. split; [done|].
  unfold count_layers. rewrite Hops. by apply count_model_ops.
Qed.
(** ** Which layers occur in the model *)

Lemma nl_ops_Forall cfg (P : layer -> Prop) d b :
  (b = true -> P (BatchNormalization false)) ->
  P (activation cfg) ->
  (truthy d = true -> P (Dropout d)) ->
  Forall P (nl_ops cfg d b).
Proof.
  intros Hb Ha Hd. unfold nl_ops.
  repeat apply Forall_app_2.
  - destruct b; [|done]. by repeat constructor; apply Hb.
  - by repeat constructor.
  - destruct (truthy d); [|done]. by repeat constructor; apply Hd.
Qed.

Section Occurring.

Variable cfg : config.
Variable P : layer -> Prop.

Hypothesis P_input : P (Input (input_shape cfg)).
Hypothesis P_conv5 : forall channels, P (conv5 channels).
Hypothesis P_down : forall fi, P (down_conv cfg fi).
Hypothesis P_up : forall fi, P (up_conv cfg fi).
Hypothesis P_add : P Add.
Hypothesis P_concat : P (Concatenate (-1)).
Hypothesis P_conv1 : P (Conv3D (nfm cfg) unit_size unit_size Same).
Hypothesis P_conv2 : P (Conv3D 2 unit_size unit_size Valid).
Hypothesis P_softmax : P (Activation "softmax").
Hypothesis P_activation : P (activation cfg).
Hypothesis P_batch_norm :
  batch_norm cfg = true -> P (BatchNormalization false).
Hypothesis P_dropout_in :
  truthy (dropout_in cfg) = true -> P (Dropout (dropout_in cfg)).
Hypothesis P_dropout_out :
  truthy (dropout_out cfg) = true -> P (Dropout (dropout_out cfg)).

Lemma residual_ops_Forall channels : Forall P (residual_ops cfg channels).
Proof.
  unfold residual_ops, round_ops. apply Forall_app_2.
  - constructor; [apply P_conv5|]. by apply nl_ops_Forall.
  - apply Forall_flat_map, Forall_forall. intros ci _.
    constructor; [apply P_conv5|]. apply nl_ops_Forall; [|done..].
    unfold round_bn. intros [_ Hb]%andb_prop. by apply P_batch_norm.
Qed.

Lemma transition_ops_Forall fi : Forall P (transition_ops cfg fi).
Proof.
  unfold transition_ops. apply nl_ops_Forall; [done..|].
  by destruct (transition_dropout cfg fi).
Qed.

Lemma model_ops_Forall : Forall P (model_ops cfg).
Proof.
  unfold model_ops. constructor; [done|].
  apply Forall_app_2; [|apply Forall_app_2].
  - apply Forall_flat_map, Forall_forall. intros fi _.
    unfold enc_ops, enc_res_ops.
    apply Forall_app_2; [|apply Forall_app_2].
    + destruct (fi =? 0); [|apply residual_ops_Forall].
      constructor; [apply P_conv5|]. by apply nl_ops_Forall.
    + by repeat constructor.
    + apply transition_ops_Forall.
  - apply Forall_flat_map, Forall_forall. intros fi _.
    unfold dec_ops.
    apply Forall_app_2; [|apply Forall_app_2; [|apply Forall_app_2]].
    + destruct (fi =? nlevels cfg - 1); by repeat constructor.
    + apply residual_ops_Forall.
    + by repeat constructor.
    + apply transition_ops_Forall.
  - unfold head_ops. repeat constructor; try done. apply P_conv5.
Qed.

End Occurring.

Lemma get_model_layers_Forall cfg (P : layer -> Prop) m :
  get_model cfg = Ok m -> Forall P (model_ops cfg) ->
  forall nd, nd ∈ m_layers m -> P (op nd).
Proof.
  intros Hm HP nd Hnd.
  destruct (Z.le_gt_cases (nlevels cfg) 0) as [Hn|Hn].
  { rewrite get_model_no_levels in Hm by done. discriminate. }
  destruct (get_model_ops cfg) as (m' & Hm' & Hops); [lia|].
  rewrite Hm in Hm'. injection Hm' as <-.
  rewrite <- Hops, Forall_forall in HP. apply HP.
  by apply list_elem_of_fmap_2.
Qed.

(** X3: the number of BatchNormalization layers.  With [batch_norm] set
    there is one after each of the [2 * nlevels] transitions and, when
    [nconv >= 2], one in each of the [2 * nlevels - 1] full residual blocks;
    without it there is none.  Each has [scale=False]. *)
Theorem batch_norm_census cfg :
  1 <= nlevels cfg ->
  exists m, get_model cfg = Ok m /\
    count_layers is_batch_norm (m_layers m)
    = Z.b2z (batch_norm cfg) *
      (2 * nlevels cfg + Z.b2z (2 <=? nconv cfg) * (2 * nlevels cfg - 1)) /\
    (forall nd, nd ∈ m_layers m -> is_batch_norm (op nd) = true ->
       batch_norm cfg = true /\ op nd = BatchNormalization false).
Proof.
  intros Hn.
  destruct (get_model_census cfg is_batch_norm) as (m & Hm & Hc); try done.
  exists m. split; [done|]. split.
  - rewrite Hc. unfold census, census_residual, census_nl, census_drop,
      activation.
    destruct (lrelu_alpha cfg), (batch_norm cfg), (2 <=? nconv cfg);
      cbn; lia.
  - apply (get_model_layers_Forall cfg
             (fun l => is_batch_norm l = true ->
                       batch_norm cfg = true /\ l = BatchNormalization false));
      [done|].
    apply model_ops_Forall; try done; try by intros ->.
    unfold activation. by destruct (lrelu_alpha cfg).
Qed.

Lemma batch_norm_census_witness :
  exists m, get_model cfg_train = Ok m /\
    count_layers is_batch_norm (m_layers m) = 11.
Proof.
  destruct (batch_norm_census cfg_train) as (m & Hm & Hc & _); [done|].
  exists m. split; [done|]. rewrite Hc. reflexivity.
Defined.

(** X4: the number of Dropout layers.  A truthy [dropout_in] gives one
    after every convolution of the [2 * nlevels - 1] full residual blocks, a
    truthy [dropout_out] one after each transition except the two of level
    0.  Every Dropout layer carries one of these two rates; a rate of [False]
    or [0.0] creates no layer. *)
Theorem dropout_census cfg :
  1 <= nlevels cfg ->
  exists m, get_model cfg = Ok m /\
    count_layers is_dropout (m_layers m)
    = Z.b2z (truthy (dropout_in cfg)) * ((2 * nlevels cfg - 1) * rounds cfg) +
      Z.b2z (truthy (dropout_out cfg)) * (2 * (nlevels cfg - 1)) /\
    (forall nd r, nd ∈ m_layers m -> op nd = Dropout r ->
       truthy r = true /\ (r = dropout_in cfg \/ r = dropout_out cfg)).
Proof.
  intros Hn.
  destruct (get_model_census cfg is_dropout) as (m & Hm & Hc); try done.
  exists m. split; [done|]. split.
  - rewrite Hc. unfold census, census_residual, census_nl, census_drop,
      activation.
    destruct (lrelu_alpha cfg), (truthy (dropout_in cfg)),
      (truthy (dropout_out cfg)); cbn; lia.
  - intros nd r Hnd. revert r.
    apply (get_model_layers_Forall cfg
             (fun l => forall r, l = Dropout r ->
                truthy r = true /\
                (r = dropout_in cfg \/ r = dropout_out cfg)) m Hm);
      [|done].
    apply model_ops_Forall; try done.
    + unfold activation. by destruct (lrelu_alpha cfg).
    + intros Ht r [= <-]. auto.
    + intros Ht r [= <-]. auto.
Qed.

Lemma dropout_census_witness :
  exists m, get_model cfg_train = Ok m /\
    count_layers is_dropout (m_layers m) = 19.
Proof.
  destruct (dropout_census cfg_train) as (m & Hm & Hc & _); [done|].
  exists m. split; [done|]. rewrite Hc. reflexivity.
Defined.

(** X5: the activations.  [NonLinearity] is called once after every 5x5x5
    convolution but the one of the head, after every transition, and twice
    in the head; each call creates exactly one activation layer, a
    [LeakyReLU(alpha=lrelu_alpha)] when [lrelu_alpha] is given and a [PReLU]
    otherwise, never a mix of the two. *)
Theorem activation_census cfg :
  1 <= nlevels cfg ->
  exists m, get_model cfg = Ok m /\
    count_layers is_relu (m_layers m)
    = (2 * nlevels cfg - 1) * rounds cfg + 2 * nlevels cfg + 3 /\
    (forall nd, nd ∈ m_layers m -> is_relu (op nd) = true ->
       op nd = match lrelu_alpha cfg with
               | Some a => LeakyReLU a
               | None => PReLU
               end).
Proof.
  intros Hn.
  destruct (get_model_census cfg is_relu) as (m & Hm & Hc); try done.
  exists m. split; [done|]. split.
  - rewrite Hc. unfold census, census_residual, census_nl, census_drop,
      activation.
    destruct (lrelu_alpha cfg), (batch_norm cfg), (2 <=? nconv cfg),
      (truthy (dropout_in cfg)), (truthy (dropout_out cfg)); cbn; lia.
  - apply (get_model_layers_Forall cfg
             (fun l => is_relu l = true -> l = activation cfg) m Hm).
    by apply model_ops_Forall.
Qed.

Lemma activation_census_witness :
  exists m, get_model cfg_train = Ok m /\
    count_layers is_relu (m_layers m) = 24 /\
    (forall nd, nd ∈ m_layers m -> is_relu (op nd) = true ->
       op nd = LeakyReLU cfg_half).
Proof.
  destruct (activation_census cfg_train) as (m & Hm & Hc & Hall); [done|].
  exists m. split; [done|]. split; [|done]. rewrite Hc. reflexivity.
Defined.

(** X6: the size of the model: one Input, [2 * nlevels + 1] residual sums,
    [nlevels] concatenations, [nlevels] transposed convolutions, one softmax
    activation, the Conv3D layers, and the total number of layers. *)
Theorem layer_census cfg :
  1 <= nlevels cfg ->
  exists m, get_model cfg = Ok m /\
    count_layers is_input (m_layers m) = 1 /\
    count_layers is_add (m_layers m) = 2 * nlevels cfg + 1 /\
    count_layers is_concat (m_layers m) = nlevels cfg /\
    count_layers is_conv (m_layers m)
    = (2 * nlevels cfg - 1) * rounds cfg + nlevels cfg + 4 /\
    count_layers is_up (m_layers m) = nlevels cfg /\
    count_layers is_activation (m_layers m) = 1 /\
    Z.of_nat (length (m_layers m))
    = 7 * nlevels cfg + 10 + 2 * ((2 * nlevels cfg - 1) * rounds cfg) +
      count_layers is_batch_norm (m_layers m) +
      count_layers is_dropout (m_layers m).
Proof.
  intros Hn.
  destruct (get_model_ops cfg Hn) as (m & Hm & Hops). exists m.
  split; [done|].
  assert (forall p,
            (forall channels, p (conv5 channels) = p (conv5 (nfm cfg))) ->
            (forall fi, p (down_conv cfg fi) = p (down_conv cfg 0)) ->
            (forall fi, p (up_conv cfg fi) = p (up_conv cfg 0)) ->
            count_layers p (m_layers m) = census cfg p) as Hcensus.
  { intros p H5 Hd Hu. unfold count_layers. rewrite Hops.
    by apply count_model_ops. }
  assert (Z.of_nat (length (m_layers m))
          = count_layers (fun _ => true) (m_layers m)) as ->.
  { unfold count_layers, count.
    rewrite filter_all, length_map; [done|]. by apply Forall_forall. }
  rewrite !Hcensus by done.
  unfold census, census_residual, census_nl, census_drop, activation.
  destruct (lrelu_alpha cfg), (batch_norm cfg), (2 <=? nconv cfg),
    (truthy (dropout_in cfg)), (truthy (dropout_out cfg)); cbn;
    repeat split; lia.
Qed.

Lemma layer_census_witness :
  exists m, get_model cfg_train = Ok m /\
    count_layers is_conv (m_layers m) = 22 /\
    length (m_layers m) = 91%nat.
Proof.
  destruct (layer_census cfg_train)
    as (m & Hm & _ & _ & _ & Hc & _ & _ & Hlen); [done|].
  exists m. split; [done|]. split; [by rewrite Hc|].
  apply Nat2Z.inj. rewrite Hlen.
  assert (get_model cfg_train = Ok m) as Hm' by done.
  vm_compute in Hm'. injection Hm' as <-. reflexivity.
Defined.
(** ** Channel counts of the skip connections and of the output *)

Lemma channels_prefix (g g' : list node) h :
  g `prefix_of` g' -> (h < length g)%nat -> channels g' h = channels g h.
Proof. intros [r ->] Hh. by apply channels_app. Qed.

(** The channel count of a node from those of its inputs. *)
Lemma channels_lookup (g : list node) h nd :
  g !! h = Some nd ->
  Forall (fun i => (i < h)%nat) (inputs nd) ->
  channels g h = layer_channels (op nd) (map (channels g) (inputs nd)).
Proof.
  intros Hh Hall.
  pose proof (lookup_lt_Some _ _ _ Hh) as Hlt.
  pose proof (take_drop_middle g h nd Hh) as Hg.
  assert (length (take h g) = h) as Hlen by (rewrite length_take; lia).
  trans (channels (take h g ++ nd :: drop (S h) g) (length (take h g))).
  { by rewrite Hg, Hlen. }
  rewrite channels_node. f_equal. apply map_ext_in. intros i Hi.
  rewrite Forall_forall in Hall.
  apply list_elem_of_In, Hall in Hi.
  rewrite <- (channels_app (take h g) (nd :: drop (S h) g) i) by lia.
  by rewrite Hg.
Qed.

Lemma layer_channels_activation cfg c :
  layer_channels (activation cfg) [c] = c.
Proof. unfold activation. by destruct (lrelu_alpha cfg). Qed.

(** The channel counts of the forwarded features. *)
Lemma enc_built_forward_channels cfg lv g fl :
  enc_built cfg lv g fl ->
  lv = range (Z.of_nat (length lv)) ->
  forall (i : nat) h, fl !! i = Some h ->
    channels g h
    = layer_channels Add
        [Some (nfm cfg * 2 ^ Z.of_nat i);
         if Z.of_nat i =? 0 then last (input_shape cfg)
         else Some (nfm cfg * 2 ^ Z.of_nat i)].
Proof.
  induction 1 as [|lv fi g fl hadd seg Hb IH Hseg]; intros Hlv i h Hi.
  - by rewrite lookup_nil in Hi.
  - rewrite length_app in Hlv. cbn [length] in Hlv.
    replace (Z.of_nat (length lv + 1)) with (Z.of_nat (length lv) + 1) in Hlv
      by lia.
    rewrite range_succ in Hlv by lia.
    apply app_inj_tail in Hlv as [Hlv ->].
    destruct (enc_built_length _ _ _ _ Hb) as [Hg Hfl].
    apply lookup_app_Some in Hi as [Hi|(Hle & Hi)].
    { rewrite channels_app; [by apply IH|].
      apply (proj1 (enc_built_entries _ _ _ _ Hb)) in Hi. lia. }
    apply list_lookup_singleton_Some in Hi as [Hi <-].
    assert (i = length lv) as -> by lia.
    destruct (enc_built_channels _ _ _ _ Hb Hlv) as [Hx _].
    destruct Hseg as (res & nl & -> & -> & Hops & Hch & Hnl & Hchn).
    pose proof (map_op_nonempty _ _ Hops (enc_res_ops_nonempty _ _)) as Hr1.
    destruct (sum_transition_channels g [] res
                (down_conv cfg (Z.of_nat (length lv))) nl
                (length g - 1)%nat (length g - 1)%nat
                (nfm cfg * 2 ^ Z.of_nat (length lv))
                (nfm cfg * 2 ^ (Z.of_nat (length lv) + 1))
                (length g) (length g + length res)%nat)
      as (_ & _ & _ & Hca & _);
      cbn [app length]; try done; try lia.
    { intros ->. simpl in Hr1. lia. }
    { intros c. rewrite Hops. apply ops_channels_enc_res. }
    { intros c. rewrite Hnl. apply transition_ops_channels. }
    cbn [app] in Hca. rewrite Hca, Hx.
    destruct (length lv) eqn:E; [done|].
    by destruct (Z.eqb_spec (Z.of_nat (S n)) 0); [lia|].
Qed.

(** X7: in every decoder level below the deepest one the concatenation
    joins the forwarded features of the encoder level above with the current
    tensor; both have [nfm * 2^(fi+1)] channels, so the concatenated tensor
    has twice as many. *)
Theorem skip_concatenation_channels cfg fi :
  1 <= nlevels cfg -> 0 <= fi < nlevels cfg - 1 ->
  exists v g0 hx f m,
    decoder_entry cfg fi [] = Ok (v, g0) /\
    x v = Some hx /\
    forward_list v !! Z.to_nat (fi + 1) = Some f /\
    get_model cfg = Ok m /\
    m_layers m !! length g0 = Some (Node (Concatenate (-1)) [f; hx]) /\
    channels (m_layers m) f = Some (nfm cfg * 2 ^ (fi + 1)) /\
    channels (m_layers m) hx = Some (nfm cfg * 2 ^ (fi + 1)) /\
    channels (m_layers m) (length g0) = Some (nfm cfg * 2 ^ (fi + 2)).
Proof.
  intros Hn Hfi.
  destruct (decoder_level_in_model cfg fi Hn)
    as (v & g0 & seg & b & g & Hrun & Hx & Hlen & Hfl & _ & Hseg & Hbuild &
        _ & Hpre); [lia|].
  destruct (decoder_entry_run cfg fi Hn) as (v' & g0' & Hrun' & Hb & _);
    [lia|].
  rewrite Hrun in Hrun'. injection Hrun' as <- <-.
  destruct Hseg as (cat & res & nl & hadd & -> & _ & Hcat & _).
  destruct (Z.eqb_spec fi (nlevels cfg - 1)) as [|_]; [lia|].
  destruct Hcat as (f & Hf & -> & _).
  exists v, g0, (length g0 - 1)%nat, f. eexists.
  do 3 (split; [done|]).
  split; [by apply get_model_build|]. cbn [m_layers].
  set (lv := take (Z.to_nat (nlevels cfg - 1 - fi))
               (rev (range (nlevels cfg)))) in *.
  assert (length lv = Z.to_nat (nlevels cfg - 1 - fi)) as Hlv.
  { unfold lv. rewrite length_take, length_rev_range. lia. }
  destruct (dec_built_channels cfg _ lv g0 Hn Hb) as (Hcx & _).
  { by rewrite Hlv. }
  { lia. }
  rewrite Hlv in Hcx.
  replace (nlevels cfg - Z.of_nat (Z.to_nat (nlevels cfg - 1 - fi)))
    with (fi + 1) in Hcx by lia.
  destruct (dec_built_prefix _ _ _ _ Hb) as (ge & Hge & Hpre_e).
  pose proof (proj1 (enc_built_entries _ _ _ _ Hge) _ _ Hf) as Hflt.
  apply prefix_length in Hpre_e as Hle.
  assert (channels g0 f = Some (nfm cfg * 2 ^ (fi + 1))) as Hcf.
  { rewrite (channels_prefix ge) by (done || lia).
    rewrite (enc_built_forward_channels _ _ _ _ Hge) with (i := Z.to_nat (fi + 1));
      [|by rewrite length_range, Z2Nat.id by lia|done].
    rewrite Z2Nat.id by lia.
    destruct (Z.eqb_spec (fi + 1) 0); [lia|].
    cbn [layer_channels]. apply broadcast_dim_same. }
  assert (g0 `prefix_of` g) as Hpre0.
  { etrans; [|exact Hpre]. by apply prefix_app_r. }
  split.
  { eapply prefix_lookup_Some; [|exact Hpre].
    cbn [app]. by apply list_lookup_middle. }
  split; [rewrite (channels_prefix g0) by (done || lia); done|].
  split; [rewrite (channels_prefix g0) by (done || lia); done|].
  rewrite (channels_prefix _ _ _ Hpre) by (rewrite length_app; simpl; lia).
  cbn [app]. rewrite channels_node. cbn [op inputs map].
  rewrite Hcf, Hcx. cbn. f_equal.
  replace (fi + 2) with (Z.succ (fi + 1)) by lia.
  rewrite Z.pow_succ_r by lia. lia.
Qed.

Lemma skip_concatenation_channels_witness :
  exists v g0 hx f m,
    decoder_entry cfg_train 1 [] = Ok (v, g0) /\
    x v = Some hx /\
    forward_list v !! 2%nat = Some f /\
    get_model cfg_train = Ok m /\
    m_layers m !! length g0 = Some (Node (Concatenate (-1)) [f; hx]) /\
    channels (m_layers m) f = Some 64 /\
    channels (m_layers m) hx = Some 64 /\
    channels (m_layers m) (length g0) = Some 128.
Proof. apply (skip_concatenation_channels cfg_train 1); done. Defined.

Lemma head_nodes_lookup cfg (g : list node) f hx k :
  (g ++ head_nodes cfg (length g) f hx) !! (length g + k)%nat
  = head_nodes cfg (length g) f hx !! k.
Proof. rewrite lookup_app_r by lia. f_equal. lia. Qed.

(** X8: the decoder hands a tensor of [nfm] channels to the head; there the
    residual and the shortcut convolution both produce [nfm] channels, so
    their sum is well formed, and the tensor that the model outputs has
    exactly 2 channels. *)
Theorem output_channels cfg :
  1 <= nlevels cfg ->
  exists v g0 hx m,
    decoder_entry cfg (-1) [] = Ok (v, g0) /\
    x v = Some hx /\
    get_model cfg = Ok m /\
    channels (m_layers m) hx = Some (nfm cfg) /\
    channels (m_layers m) (length g0 + 1)%nat = Some (nfm cfg) /\
    channels (m_layers m) (length g0 + 2)%nat = Some (nfm cfg) /\
    m_layers m !! (length g0 + 3)%nat
    = Some (Node Add [(length g0 + 1)%nat; (length g0 + 2)%nat]) /\
    channels (m_layers m) (length g0 + 3)%nat = Some (nfm cfg) /\
    channels (m_layers m) (m_outputs m) = Some 2.
Proof.
  intros Hn.
  destruct (build_run cfg Hn) as (g & fl & f & Hrun & Hb & Hlen & Hf & Hbuild).
  apply get_model_build in Hbuild. cbn [b_input b_output] in Hbuild.
  exists (Locals (Some (length g - 1)%nat) fl), g, (length g - 1)%nat.
  eexists. do 3 (split; [done|]). cbn [m_layers m_outputs].
  destruct (dec_built_channels cfg fl _ g Hn Hb) as (Hcx & _).
  { rewrite length_rev_range. symmetry. apply take_ge.
    by rewrite length_rev_range. }
  { by rewrite length_rev_range. }
  rewrite length_rev_range, Z2Nat.id, Z.sub_diag, Z.mul_1_r in Hcx by lia.
  pose proof (dec_built_input _ _ _ _ Hb) as H0.
  apply lookup_lt_Some in H0.
  set (G := g ++ head_nodes cfg (length g) f (length g - 1)%nat).
  assert (forall k nd,
            head_nodes cfg (length g) f (length g - 1)%nat !! k = Some nd ->
            Forall (fun i => (i < length g + k)%nat) (inputs nd) ->
            channels G (length g + k)%nat
            = layer_channels (op nd) (map (channels G) (inputs nd))) as Hk.
  { intros k nd Hnd Hall. apply channels_lookup; [|done].
    unfold G. by rewrite head_nodes_lookup. }
  assert (channels G (length g + 1)%nat = Some (nfm cfg)) as H1.
  { by rewrite (Hk 1%nat _ eq_refl) by (repeat constructor; lia). }
  assert (channels G (length g + 2)%nat = Some (nfm cfg)) as H2.
  { by rewrite (Hk 2%nat _ eq_refl) by (repeat constructor; lia). }
  assert (channels G (length g + 3)%nat = Some (nfm cfg)) as H3.
  { rewrite (Hk 3%nat _ eq_refl) by (repeat constructor; lia).
    cbn [op inputs map]. rewrite H1, H2. cbn [layer_channels].
    apply broadcast_dim_same. }
  split; [by unfold G; rewrite channels_app by lia|].
  do 2 (split; [done|]).
  split; [unfold G; by rewrite head_nodes_lookup|].
  split; [done|].
  rewrite (Hk 7%nat _ eq_refl) by (repeat constructor; lia).
  cbn [op inputs map layer_channels].
  rewrite (Hk 6%nat _ eq_refl) by (repeat constructor; lia).
  cbn [op inputs map]. rewrite layer_channels_activation.
  by rewrite (Hk 5%nat _ eq_refl) by (repeat constructor; lia).
Qed.

Lemma output_channels_witness :
  exists m, get_model cfg_train = Ok m /\
    channels (m_layers m) (m_outputs m) = Some 2.
Proof.
  destruct (output_channels cfg_train) as (v & g0 & hx & m & _ & _ & Hm & H);
    [done|].
  exists m. split; [done|]. apply H.
Defined.
(** ** The input shape *)

Lemma oblivious_ret {A} (a : A) : oblivious (ret a).
Proof.
  intros g1 g2 _. cbn. split; [done|]. exists []. by rewrite !app_nil_r.
Qed.

Lemma oblivious_raise {A} e : oblivious (@raise A e).
Proof. by intros g1 g2 _. Qed.

Lemma oblivious_call l ins : oblivious (call l ins).
Proof. intros g1 g2 Hlen. cbn. split; [done|]. by eexists. Qed.

Lemma oblivious_bind {A B} (m : M A) (k : A -> M B) :
  oblivious m -> (forall a, oblivious (k a)) -> oblivious (m ≫= k).
Proof.
  intros Hm Hk g1 g2 Hlen. unfold mbind, M_bind, bind.
  specialize (Hm g1 g2 Hlen).
  destruct (m g1) as [[a1 g1']|e1], (m g2) as [[a2 g2']|e2]; try done.
  destruct Hm as (<- & add1 & -> & ->).
  specialize (Hk a1 (g1 ++ add1) (g2 ++ add1)).
  rewrite !length_app, Hlen in Hk. specialize (Hk eq_refl).
  destruct (k a1 (g1 ++ add1)) as [[b1 g1'']|e1],
    (k a1 (g2 ++ add1)) as [[b2 g2'']|e2]; try done.
  destruct Hk as (<- & add2 & -> & ->). split; [done|].
  exists (add1 ++ add2). by rewrite !app_assoc.
Qed.

Lemma oblivious_read_local {A} (o : option A) : oblivious (read_local o).
Proof. destruct o; [apply oblivious_ret|apply oblivious_raise]. Qed.

Lemma oblivious_py_index {A} (l : list A) i : oblivious (py_index l i).
Proof.
  unfold py_index. repeat case_match;
    first [apply oblivious_ret|apply oblivious_raise].
Qed.

Ltac oblivious_step :=
  lazymatch goal with
  | |- oblivious (ret _) => apply oblivious_ret
  | |- oblivious (raise _) => apply oblivious_raise
  | |- oblivious (call _ _) => apply oblivious_call
  | |- oblivious (read_local _) => apply oblivious_read_local
  | |- oblivious (py_index _ _) => apply oblivious_py_index
  | |- oblivious (_ ≫= _) => apply oblivious_bind; [|intros ?]
  | |- oblivious (if _ then _ else _) => case_match
  | |- oblivious (match _ with _ => _ end) => case_match
  end.

Lemma oblivious_NonLinearity cfg t d b : oblivious (NonLinearity cfg t d b).
Proof. unfold NonLinearity. repeat oblivious_step. Qed.

Lemma oblivious_extra_convs cfg channels cis r :
  oblivious (extra_convs cfg channels cis r).
Proof.
  revert r. induction cis as [|ci cis IH]; intros r; cbn [extra_convs].
  - apply oblivious_ret.
  - apply oblivious_bind; [apply oblivious_call|intros c].
    apply oblivious_bind; [apply oblivious_NonLinearity|intros c']. apply IH.
Qed.

Lemma oblivious_residual_convs cfg channels t :
  oblivious (residual_convs cfg channels t).
Proof.
  unfold residual_convs.
  apply oblivious_bind; [apply oblivious_call|intros c].
  apply oblivious_bind; [apply oblivious_NonLinearity|intros c'].
  apply oblivious_extra_convs.
Qed.

Lemma oblivious_transition_nonlinearity cfg fi t :
  oblivious (transition_nonlinearity cfg fi t).
Proof.
  unfold transition_nonlinearity. case_match; apply oblivious_NonLinearity.
Qed.

Ltac oblivious_level :=
  lazymatch goal with
  | |- oblivious (NonLinearity _ _ _ _) => apply oblivious_NonLinearity
  | |- oblivious (residual_convs _ _ _) => apply oblivious_residual_convs
  | |- oblivious (transition_nonlinearity _ _ _) =>
      apply oblivious_transition_nonlinearity
  | |- _ => oblivious_step
  end.

Lemma oblivious_encoder_level cfg input fi v :
  oblivious (encoder_level cfg input fi v).
Proof. unfold encoder_level. repeat oblivious_level. Qed.

Lemma oblivious_decoder_level cfg fi v : oblivious (decoder_level cfg fi v).
Proof. unfold decoder_level. repeat oblivious_level. Qed.

Lemma oblivious_for_each body fis v :
  (forall fi v, oblivious (body fi v)) -> oblivious (for_each body fis v).
Proof.
  intros Hb. revert v. induction fis as [|fi fis IH]; intros v.
  - apply oblivious_ret.
  - cbn [for_each]. apply oblivious_bind; [apply Hb|apply IH].
Qed.

Lemma oblivious_head cfg v : oblivious (head cfg v).
Proof. unfold head. repeat oblivious_level. Qed.

(** What [build] does after the creation of the [Input] layer. *)
Lemma oblivious_after_input cfg input_state :
  oblivious (v ← encoder cfg input_state;
             v ← decoder cfg v;
             out ← head cfg v;
             ret (Built input_state out (forward_list v))).
Proof.
  apply oblivious_bind.
  { apply oblivious_for_each. intros. apply oblivious_encoder_level. }
  intros v. apply oblivious_bind.
  { apply oblivious_for_each. intros. apply oblivious_decoder_level. }
  intros v'. apply oblivious_bind; [apply oblivious_head|].
  intros out. apply oblivious_ret.
Qed.

(** The layer calls that the code issues do not depend on [input_shape],
    apart from the [Input] layer. *)
Lemma get_model_input_shape cfg shape' :
  match get_model cfg, get_model (with_input_shape cfg shape') with
  | Ok m, Ok m' =>
      m_inputs m = m_inputs m' /\ m_outputs m = m_outputs m' /\
      exists rest,
        m_layers m = Node (Input (input_shape cfg)) [] :: rest /\
        m_layers m' = Node (Input shape') [] :: rest
  | Raise e, Raise e' => e = e'
  | _, _ => False
  end.
Proof.
  unfold get_model.
  pose (rest := (v ← encoder cfg 0%nat;
                 v ← decoder cfg v;
                 out ← head cfg v;
                 ret (Built 0%nat out (forward_list v))) : M built).
  change (build cfg []) with (rest [Node (Input (input_shape cfg)) []]).
  change (build (with_input_shape cfg shape') [])
    with (rest [Node (Input shape') []]).
  assert (oblivious rest) as H by apply oblivious_after_input.
  specialize (H [Node (Input (input_shape cfg)) []]
                [Node (Input shape') []] eq_refl).
  destruct (rest [Node (Input (input_shape cfg)) []]) as [[b1 g1]|e1],
    (rest [Node (Input shape') []]) as [[b2 g2]|e2]; try done.
  destruct H as (<- & added & -> & ->). eauto.
Qed.

(** X9: the code of [get_model] never looks at [input_shape]; only Keras
    does, inside the layer calls.  When the call returns a model for two
    configurations that differ only in [input_shape], the two models have
    the same layers and the same wiring apart from the shape stored in the
    [Input] layer. *)
Theorem input_shape_only_in_input_layer cfg shape' m m' :
  Keras.get_model cfg = Ok m ->
  Keras.get_model (with_input_shape cfg shape') = Ok m' ->
  m_inputs m = m_inputs m' /\ m_outputs m = m_outputs m' /\
  exists rest,
    m_layers m = Node (Input (input_shape cfg)) [] :: rest /\
    m_layers m' = Node (Input shape') [] :: rest.
Proof.
  intros Hm%keras_get_model_sound Hm'%keras_get_model_sound.
  pose proof (get_model_input_shape cfg shape') as H.
  by rewrite Hm, Hm' in H.
Qed.

Lemma input_shape_only_in_input_layer_witness :
  exists m m' rest,
    Keras.get_model cfg_default = Ok m /\
    Keras.get_model (with_input_shape cfg_default [8; 8; 8; 1]) = Ok m' /\
    m_layers m = Node (Input [64; 64; 64; 1]) [] :: rest /\
    m_layers m' = Node (Input [8; 8; 8; 1]) [] :: rest.
Proof.
  assert (exists m, Keras.get_model cfg_default = Ok m) as (m & Hm)
    by (eexists; vm_compute; reflexivity).
  assert (exists m', Keras.get_model
                       (with_input_shape cfg_default [8; 8; 8; 1]) = Ok m')
    as (m' & Hm') by (eexists; vm_compute; reflexivity).
  destruct (input_shape_only_in_input_layer cfg_default [8; 8; 8; 1] m m'
              Hm Hm') as (_ & _ & rest & H & H').
  exists m, m', rest. repeat split; assumption.
Defined.
(** ** Dropout and the other layers *)

Lemma not_dropout_nl_ops cfg d b d_in d_out :
  List.filter not_dropout (nl_ops cfg d b)
  = nl_ops (with_dropout cfg d_in d_out) PyFalse b.
Proof.
  unfold nl_ops, activation. cbn [lrelu_alpha with_dropout truthy].
  rewrite !List.filter_app.
  by destruct b, (truthy d), (lrelu_alpha cfg).
Qed.

Lemma not_dropout_round_ops cfg channels b :
  List.filter not_dropout (round_ops cfg channels b)
  = round_ops (with_dropout cfg PyFalse PyFalse) channels b.
Proof.
  unfold round_ops. cbn [List.filter not_dropout is_dropout negb].
  by rewrite (not_dropout_nl_ops _ _ _ PyFalse PyFalse).
Qed.

Lemma not_dropout_residual_ops cfg channels :
  List.filter not_dropout (residual_ops cfg channels)
  = residual_ops (with_dropout cfg PyFalse PyFalse) channels.
Proof.
  unfold residual_ops.
  rewrite List.filter_app, filter_flat_map, not_dropout_round_ops.
  f_equal. apply flat_map_ext. intros ci. apply not_dropout_round_ops.
Qed.

Lemma not_dropout_transition_ops cfg fi :
  List.filter not_dropout (transition_ops cfg fi)
  = transition_ops (with_dropout cfg PyFalse PyFalse) fi.
Proof.
  unfold transition_ops.
  rewrite (not_dropout_nl_ops _ _ _ PyFalse PyFalse).
  cbn [dropout_out with_dropout batch_norm].
  by destruct (transition_dropout _ fi).
Qed.

Lemma not_dropout_model_ops cfg :
  List.filter not_dropout (model_ops cfg)
  = model_ops (with_dropout cfg PyFalse PyFalse).
Proof.
  unfold model_ops. cbn [List.filter not_dropout is_dropout negb].
  rewrite !List.filter_app, !filter_flat_map. f_equal. f_equal; [|f_equal].
  - apply flat_map_ext. intros fi. unfold enc_ops, enc_res_ops.
    rewrite !List.filter_app, not_dropout_transition_ops.
    f_equal. destruct (fi =? 0).
    + cbn [List.filter not_dropout is_dropout negb].
      by rewrite (not_dropout_nl_ops _ _ _ PyFalse PyFalse).
    + apply not_dropout_residual_ops.
  - apply flat_map_ext. intros fi. unfold dec_ops.
    rewrite !List.filter_app, not_dropout_transition_ops,
      not_dropout_residual_ops.
    f_equal. cbn [nlevels with_dropout]. by destruct (fi =? nlevels cfg - 1).
  - unfold head_ops, activation. cbn [lrelu_alpha nfm with_dropout].
    by destruct (lrelu_alpha cfg).
Qed.

(** X10: [dropout_in] and [dropout_out] only insert Dropout layers.
    Whatever their values, the other layers of the model, in creation
    order, are those of the model built without dropout; so two models
    that differ only in their dropout rates, such as the two that the
    training script builds, have the same layers other than Dropout, in the
    same order. *)
Theorem dropout_only_inserts_layers cfg d_in d_out :
  1 <= nlevels cfg ->
  exists m m' m0,
    get_model cfg = Ok m /\
    get_model (with_dropout cfg d_in d_out) = Ok m' /\
    get_model (with_dropout cfg PyFalse PyFalse) = Ok m0 /\
    List.filter not_dropout (map op (m_layers m)) = map op (m_layers m0) /\
    List.filter not_dropout (map op (m_layers m')) = map op (m_layers m0).
Proof.
  intros Hn.
  destruct (get_model_ops cfg Hn) as (m & Hm & Hops).
  destruct (get_model_ops (with_dropout cfg d_in d_out) Hn)
    as (m' & Hm' & Hops').
  destruct (get_model_ops (with_dropout cfg PyFalse PyFalse) Hn)
    as (m0 & Hm0 & Hops0).
  exists m, m', m0. do 3 (split; [done|]).
  rewrite Hops, Hops', Hops0, !not_dropout_model_ops. done.
Qed.

Lemma dropout_only_inserts_layers_witness :
  exists m m',
    get_model train_fresh_cfg = Ok m /\
    get_model train_reload_cfg = Ok m' /\
    List.filter not_dropout (map op (m_layers m))
    = List.filter not_dropout (map op (m_layers m')).
Proof.
  destruct (dropout_only_inserts_layers train_fresh_cfg PyFalse
              (PyFloat float_0_4))
    as (m & m' & m0 & Hm & Hm' & _ & H & H'); [done|].
  exists m, m'. do 2 (split; [done|]). by rewrite H, H'.
Defined.

(** X11: the code of [get_model] raises only one exception of its own, the
    [IndexError] of [forward_list[0]] when [nlevels <= 0]; the local [x] is
    never read before it is assigned.  With at least one level the call
    returns the model of the layer calls that the code issues, or it ends
    with the [ValueError] of a layer call that Keras rejects. *)
Theorem get_model_outcome cfg :
  (nlevels cfg <= 0 -> Keras.get_model cfg = Raise IndexError) /\
  (1 <= nlevels cfg ->
   exists m, get_model cfg = Ok m /\
     (Keras.get_model cfg = Ok m \/ Keras.get_model cfg = Raise ValueError)).
Proof.
  split; [apply keras_get_model_no_levels|].
  intros Hn. destruct (get_model_returns cfg Hn) as (m & Hm).
  exists m. split; [done|].
  destruct (keras_get_model_follows cfg) as [H|H]; [left|by right].
  by rewrite H.
Qed.

Lemma get_model_outcome_witness :
  (exists m, get_model cfg_default = Ok m /\ Keras.get_model cfg_default = Ok m)
  /\
  (exists m, get_model (Config 4 2 [8; 8; 8; 1] 2 PyFalse PyFalse None false)
             = Ok m /\
             Keras.get_model
               (Config 4 2 [8; 8; 8; 1] 2 PyFalse PyFalse None false)
             = Raise ValueError).
Proof.
  split.
  - pose proof (proj2 (get_model_outcome cfg_default)
                  ltac:(unfold cfg_default; simpl; lia))
      as (m & Hm & [Hk|Hk]).
    + exists m. split; assumption.
    + exfalso. vm_compute in Hk. discriminate Hk.
  - pose proof (proj2 (get_model_outcome
                         (Config 4 2 [8; 8; 8; 1] 2 PyFalse PyFalse None
                                 false))
                  ltac:(simpl; lia))
      as (m & Hm & [Hk|Hk]).
    + exfalso. vm_compute in Hk. discriminate Hk.
    + exists m. split; assumption.
Defined.
(** ** The training script *)

Lemma files_loop_app s b l1 l2 st :
  Train.files_loop s b (l1 ++ l2) st
  = match Train.files_loop s b l1 st with
    | Train.Returns st' => Train.files_loop s b l2 st'
    | Train.Fails e tr => Train.Fails e tr
    end.
Proof.
  revert st. induction l1 as [|fi l1 IH]; intros st; [done|].
  cbn [app Train.files_loop].
  destruct (Train.file_step s b fi st); [apply IH|done].
Qed.

Lemma newest_first_cons hi n :
  0 <= n -> hi :: Train.newest_first (hi - 1) n = Train.newest_first hi (1 + n).
Proof.
  intros Hn. unfold Train.newest_first. rewrite range_cons by done.
  cbn [map]. rewrite Z.sub_0_r, map_map. f_equal.
  apply map_ext. intros j. lia.
Qed.

Lemma elem_of_newest_first hi n f :
  f ∈ Train.newest_first hi n <-> hi - n < f <= hi.
Proof.
  unfold Train.newest_first. rewrite list_elem_of_fmap. split.
  - intros (j & -> & Hj%elem_of_range). lia.
  - intros Hf. exists (hi - f). split; [lia|]. apply elem_of_range. lia.
Qed.

Lemma files_loop_schedule s b tr0 (k : nat) :
  Train.check s = false -> 1 <= b ->
  exists i,
    Train.files_loop s (Some b) (range (Z.of_nat k))
      (Train.State None None tr0)
    = Train.Returns
        (Train.State i
           (match k with
            | O => None
            | S k' => Some (Train.newest_first (Z.of_nat k')
                              (1 + Z.of_nat k' mod b))
            end)
           (tr0 ++ flat_map (Train.schedule b) (range (Z.of_nat k)))).
Proof.
  intros Hcheck Hb. induction k as [|k (i & IH)].
  { exists None. cbn. by rewrite app_nil_r. }
  replace (Z.of_nat (S k)) with (Z.of_nat k + 1) by lia.
  rewrite range_succ, files_loop_app, IH by lia.
  cbn [Train.files_loop]. unfold Train.file_step.
  cbn [Train.trace Train.it Train.delta]. rewrite Hcheck. cbn [andb].
  destruct (Z.eqb_spec b 0) as [|_]; [lia|].
  rewrite flat_map_app. cbn [flat_map]. rewrite app_nil_r.
  assert (exists d,
            (if Z.of_nat k mod b =? 0 then Some [Z.of_nat k]
             else match
                    match k with
                    | O => None
                    | S k' => Some (Train.newest_first (Z.of_nat k')
                                      (1 + Z.of_nat k' mod b))
                    end
                  with
                  | Some d => Some (Z.of_nat k :: d)
                  | None => None
                  end) = Some d /\
            d = Train.newest_first (Z.of_nat k) (1 + Z.of_nat k mod b))
    as (d & -> & Hd).
  { destruct (Z.eqb_spec (Z.of_nat k mod b) 0) as [E|E].
    - eexists. split; [done|]. rewrite E.
      unfold Train.newest_first. change (range (1 + 0)) with [0].
      cbn [map]. by rewrite Z.sub_0_r.
    - destruct k as [|k']; [by rewrite Z.mod_0_l in E by lia|].
      eexists. split; [done|].
      replace (Z.of_nat k') with (Z.of_nat (S k') - 1) by lia.
      rewrite newest_first_cons by (pose proof (Z.mod_pos_bound
        (Z.of_nat (S k') - 1) b); lia).
      f_equal.
      pose proof (Z.mod_pos_bound (Z.of_nat (S k')) b ltac:(lia)).
      pose proof (Z.div_mod (Z.of_nat (S k')) b ltac:(lia)).
      rewrite <- (Z.mod_unique_pos (Z.of_nat (S k') - 1) b
                 (Z.of_nat (S k') / b) (Z.of_nat (S k') mod b - 1)); lia. }
  destruct (Z.eqb_spec ((Z.of_nat k + 1) mod b) 0) as [E|E].
  - eexists. f_equal. f_equal; [by rewrite Hd|].
    rewrite <- !app_assoc. do 2 f_equal.
    unfold Train.schedule. rewrite (proj2 (Z.eqb_eq _ _) E).
    cbn [app]. f_equal.
    change (map _ (range Train.niter))
      with [Train.Fit (Z.of_nat k) 0 d; Train.Fit (Z.of_nat k) 1 d].
    assert (1 + Z.of_nat k mod b = b) as Hfull.
    { pose proof (Z.mod_pos_bound (Z.of_nat k) b ltac:(lia)) as Hr.
      rewrite <- Z.add_mod_idemp_l in E by lia.
      destruct (Z.lt_ge_cases (Z.of_nat k mod b + 1) b) as [Hlt|Hge]; [|lia].
      rewrite Z.mod_small in E by lia. lia. }
    rewrite Hd, Hfull. done.
  - eexists. f_equal. f_equal; [by rewrite Hd|].
    rewrite <- !app_assoc. do 2 f_equal.
    unfold Train.schedule. by rewrite (proj2 (Z.eqb_neq _ _) E).
Qed.

Lemma range_of_nat_to_nat n : range (Z.of_nat (Z.to_nat n)) = range n.
Proof. unfold range. by rewrite Nat2Z.id. Qed.

Lemma main_schedule s nfiles b :
  Train.check s = false ->
  Train.setup_filesperbatch s nfiles = Some b -> 1 <= b ->
  exists st,
    Train.main s nfiles = Train.Returns st /\
    Train.trace st
    = Train.setup_trace s ++ flat_map (Train.schedule b) (range nfiles).
Proof.
  intros Hcheck Hsetup Hb. unfold Train.main. rewrite Hsetup.
  destruct (files_loop_schedule s b (Train.setup_trace s) (Z.to_nat nfiles)
              Hcheck Hb) as (i & Hrun).
  rewrite range_of_nat_to_nat in Hrun. rewrite Hrun. by eexists.
Qed.

(** X12: a saved model file, or the check output, stops the script at the
    first file.  With [inputmodelfile] set, [filesperbatch] is never bound;
    with [check] set, line 91 reads [it] before the inner loop has bound it.
    Either way the first pass through the loop raises [NameError], after the
    first file has been read and before any training. *)
Theorem train_unbound_name s nfiles :
  1 <= nfiles ->
  is_Some (Train.inputmodelfile s) \/ Train.check s = true ->
  Train.main s nfiles
  = Train.Fails Train.NameError (Train.setup_trace s ++ [Train.LoadFile 0]).
Proof.
  intros Hn Hs. unfold Train.main.
  replace nfiles with (1 + (nfiles - 1)) at 2 by lia.
  rewrite range_cons by lia. cbn [Train.files_loop].
  unfold Train.file_step. cbn [Train.trace Train.it Train.delta].
  change (0 =? 0) with true. rewrite andb_true_r.
  destruct (Train.check s) eqn:Hc; [done|].
  destruct Hs as [(f & Hf)|]; [|done].
  unfold Train.setup_filesperbatch. by rewrite Hf.
Qed.

Lemma train_unbound_name_witness :
  Train.main (Train.Settings None None true) 10
  = Train.Fails Train.NameError
      [Train.GetModel train_fresh_cfg; Train.LoadFile 0].
Proof.
  apply (train_unbound_name (Train.Settings None None true) 10); [lia|].
  by right.
Defined.

(** X13: when saved weights are reloaded, [filesperbatch = nfiles/8] is 0
    for fewer than 8 catalog files, and [fi % filesperbatch] raises
    [ZeroDivisionError] at the first file: the model has been built, one
    file has been read, nothing has been trained. *)
Theorem train_too_few_files s nfiles :
  Train.inputmodelfile s = None ->
  is_Some (Train.inputweightsfile s) ->
  Train.check s = false ->
  1 <= nfiles < 8 ->
  Train.main s nfiles
  = Train.Fails Train.ZeroDivisionError
      [Train.GetModel train_reload_cfg; Train.LoadFile 0].
Proof.
  intros Hm (w & Hw) Hc Hn. unfold Train.main.
  replace nfiles with (1 + (nfiles - 1)) at 2 by lia.
  rewrite range_cons by lia. cbn [Train.files_loop].
  unfold Train.file_step, Train.setup_filesperbatch, Train.setup_trace.
  rewrite Hm, Hw, Hc, Z.div_small by lia. done.
Qed.

Lemma train_too_few_files_witness :
  Train.main Train.script_settings 7
  = Train.Fails Train.ZeroDivisionError
      [Train.GetModel train_reload_cfg; Train.LoadFile 0].
Proof.
  apply (train_too_few_files Train.script_settings 7); done.
Defined.

(** X14: the batches.  When [filesperbatch] is bound to [b >= 1] (5 for a
    fresh training, [nfiles/8] with at least 8 files otherwise) the script
    runs to its end: no name is read unbound.  Every file is read once, in
    order; after each file [fi] with [(fi + 1) % b = 0] the network is fitted
    twice on the arrays made of the last [b] files, newest first. *)
Theorem train_schedule s nfiles b :
  Train.check s = false ->
  Train.setup_filesperbatch s nfiles = Some b ->
  1 <= b ->
  exists st,
    Train.main s nfiles = Train.Returns st /\
    Train.trace st
    = Train.setup_trace s ++
      flat_map (fun fi =>
                  Train.LoadFile fi ::
                  (if (fi + 1) mod b =? 0
                   then [Train.Fit fi 0 (map (fun j => fi - j) (range b));
                         Train.Fit fi 1 (map (fun j => fi - j) (range b))]
                   else []))
               (range nfiles).
Proof. apply main_schedule. Qed.

Lemma train_schedule_witness :
  exists st,
    Train.main Train.script_settings 17 = Train.Returns st /\
    List.filter Train.is_fit (Train.trace st)
    = flat_map (fun fi => [Train.Fit fi 0 [fi; fi - 1];
                           Train.Fit fi 1 [fi; fi - 1]])
               [1; 3; 5; 7; 9; 11; 13; 15].
Proof.
  destruct (train_schedule Train.script_settings 17 2) as (st & Hm & Htr);
    [done|done|lia|].
  exists st. split; [done|]. rewrite Htr. reflexivity.
Defined.

(** X15: the files that are used.  Under the conditions of X14 the files
    whose sub-cubes are passed to [fit], as training or as validation data,
    are those below [b * (nfiles / b)]: the [nfiles % b] last files are read
    but never passed to [fit]. *)
Theorem train_files_passed_to_fit s nfiles b :
  Train.check s = false ->
  Train.setup_filesperbatch s nfiles = Some b ->
  1 <= b -> 0 <= nfiles ->
  exists st,
    Train.main s nfiles = Train.Returns st /\
    forall f, f ∈ Train.files_passed_to_fit (Train.trace st) <->
              0 <= f < b * (nfiles / b).
Proof.
  intros Hc Hs Hb Hn.
  destruct (main_schedule s nfiles b Hc Hs Hb) as (st & Hm & Htr).
  exists st. split; [done|]. intros f. rewrite Htr.
  unfold Train.files_passed_to_fit. rewrite flat_map_app.
  assert (flat_map (fun e => match e with
                             | Train.Fit _ _ files => files
                             | _ => []
                             end) (Train.setup_trace s) = []) as ->.
  { unfold Train.setup_trace.
    by destruct (Train.inputmodelfile s), (Train.inputweightsfile s). }
  cbn [app]. rewrite !list_elem_of_In, in_flat_map. split.
  - intros (e & He & Hf).
    apply in_flat_map in He as (fi & Hfi & He).
    apply list_elem_of_In, elem_of_range in Hfi.
    unfold Train.schedule in He.
    destruct He as [<-|He]; [done|].
    destruct (Z.eqb_spec ((fi + 1) mod b) 0) as [E|E]; [|done].
    assert (f ∈ Train.newest_first fi b) as Hin.
    { apply list_elem_of_In. by destruct He as [<-|[<-|[]]]. }
    apply elem_of_newest_first in Hin.
    apply Z.mod_divide in E as (q & Hq); [|lia].
    assert (q <= nfiles / b) by (apply Z.div_le_lower_bound; lia).
    assert (1 <= q) by nia.
    assert (q * b <= b * (nfiles / b)) by nia.
    assert (b <= q * b) by nia.
    lia.
  - intros Hf.
    pose proof (Z.mul_div_le f b ltac:(lia)).
    pose proof (Z.mod_pos_bound f b ltac:(lia)).
    pose proof (Z.div_mod f b ltac:(lia)).
    pose proof (Z.mul_div_le nfiles b ltac:(lia)).
    assert (f / b < nfiles / b)
      by (apply Z.div_lt_upper_bound; lia).
    assert (0 <= f / b) by (apply Z.div_pos; lia).
    set (fi := b * (f / b + 1) - 1).
    exists (Train.Fit fi 0 (Train.newest_first fi b)). split.
    + apply in_flat_map. exists fi. split.
      * apply list_elem_of_In, elem_of_range. unfold fi. nia.
      * unfold Train.schedule. right.
        replace (fi + 1) with ((f / b + 1) * b) by (unfold fi; lia).
        rewrite Z.mod_mul by lia. by left.
    + apply list_elem_of_In, elem_of_newest_first. unfold fi. lia.
Qed.

Lemma train_files_passed_to_fit_witness :
  exists st,
    Train.main Train.script_settings 17 = Train.Returns st /\
    (16 ∈ Train.files_passed_to_fit (Train.trace st) <-> 0 <= 16 < 16).
Proof.
  destruct (train_files_passed_to_fit Train.script_settings 17 2)
    as (st & Hm & Hf); [done|done|lia|lia|].
  exists st. split; [done|]. apply (Hf 16).
Defined.
